(** * binance_bot: the TradingView webhook of [app.py]

    A shallow embedding of [app.py]: the module body that reads the
    environment, the quantization helpers [truncate] and
    [round_step_size], the filter lookup [get_symbol_filters], the health
    check [root] and the request handler [webhook], followed by the
    properties of the order sizing, of the signal dispatch and of the
    calls a request makes.

    Python [float] is IEEE 754 binary64.  It is modelled by [spec_float]
    at precision 53 and maximal exponent 1024, so every product, quotient
    and comparison below rounds exactly as the interpreter does.  Python
    [int] is [Z], [str] is [string] (code points below 256), a [dict]
    keyed by strings is a [gmap string _]. *)

From Stdlib Require Import ZArith QArith Qabs Qpower Lqa Lia Bool List.
From Stdlib Require Import Strings.String Strings.Ascii Numbers.DecimalString.
From Stdlib Require Import Floats.SpecFloat.
From stdpp Require Import base strings gmap.

Local Open Scope string_scope.
Local Open Scope Z_scope.

(** ** Exceptions and the result of a computation that may raise *)

(** The built-in exceptions the handler can run into. *)
Inductive pyerr : Type :=
| ZeroDivisionError
| OverflowError
| ValueError
| TypeError
| AttributeError
| KeyError
| IndexError.

Inductive result (E A : Type) : Type :=
| Ok (a : A)
| Raise (e : E).
Arguments Ok {E A} a.
Arguments Raise {E A} e.

Definition rbind {E A B} (r : result E A) (k : A -> result E B) : result E B :=
  match r with
  | Ok a => k a
  | Raise e => Raise e
  end.

#[global] Instance result_ret {E} : MRet (result E) := fun _ a => Ok a.
#[global] Instance result_bind {E} : MBind (result E) :=
  fun _ _ k r => rbind r k.

(** ** Binary64 arithmetic *)

Abbreviation float := spec_float.

Module F64.

Definition prec : Z := 53.
Definition emax : Z := 1024.

Definition mul : float -> float -> float := SFmul prec emax.
Definition ltb : float -> float -> bool := SFltb.
(** The finite values of the format: a 53-bit significand, or a shorter
    one at the least exponent. *)
Definition valid : float -> bool := valid_binary prec emax.

Definition is_zero (x : float) : bool :=
  match x with S754_zero _ => true | _ => false end.

(** [x / y] on two floats: Python raises where IEEE 754 would return an
    infinity or a NaN for a zero divisor. *)
Definition truediv (x y : float) : result pyerr float :=
  if is_zero y then Raise ZeroDivisionError else Ok (SFdiv prec emax x y).

(** Conversion of an [int] operand in mixed arithmetic: correctly
    rounded, [OverflowError] beyond the largest double. *)
Definition of_int (n : Z) : result pyerr float :=
  match binary_normalize prec emax n 0 false with
  | S754_infinity _ => Raise OverflowError
  | f => Ok f
  end.

(** [a / b] on two [int]s: the correctly rounded quotient. *)
Definition int_truediv (a b : Z) : result pyerr float :=
  let s := xorb (a <? 0) (b <? 0) in
  match Z.abs a, Z.abs b with
  | _, Z0 => Raise ZeroDivisionError
  | Zpos ma, Zpos mb =>
      match SFdiv prec emax (S754_finite (a <? 0) ma 0) (S754_finite (b <? 0) mb 0) with
      | S754_infinity _ => Raise OverflowError
      | f => Ok f
      end
  | _, _ => Ok (S754_zero s)
  end.

(** The integer [cond_Zopp s m * 2^e] is the numerator of the value of a
    finite float over [2^(-e)] when [e] is negative. *)
Definition signed (s : bool) (m : positive) : Z := cond_Zopp s (Zpos m).

(** [math.floor]. *)
Definition floor (x : float) : result pyerr Z :=
  match x with
  | S754_nan => Raise ValueError
  | S754_infinity _ => Raise OverflowError
  | S754_zero _ => Ok 0
  | S754_finite s m e =>
      if 0 <=? e then Ok (signed s m * 2 ^ e)
      else Ok (signed s m / 2 ^ (- e))
  end.

(** The exact value of a float that has one. *)
Definition to_Q (x : float) : Q :=
  match x with
  | S754_finite s m e =>
      if 0 <=? e then inject_Z (signed s m * 2 ^ e)
      else Qmake (signed s m) (Z.to_pos (2 ^ (- e)))
  | _ => 0%Q
  end.

(** The integer nearest to [m * 2^e * 10^nd], ties to even: the digits
    that the correctly rounded decimal conversion (used by [round] and
    by the [f] format) keeps. *)
Definition nearest_even (num den : Z) : Z :=
  let q := num / den in
  match Z.compare (2 * (num mod den)) den with
  | Lt => q
  | Gt => q + 1
  | Eq => if Z.even q then q else q + 1
  end.

Definition scaled_digits (m : positive) (e : Z) (nd : nat) : Z :=
  if 0 <=? e then Zpos m * 2 ^ e * 10 ^ Z.of_nat nd
  else nearest_even (Zpos m * 10 ^ Z.of_nat nd) (2 ^ (- e)).

(** The double nearest to the decimal [(-1)^s * n / 10^nd]. *)
Definition of_decimal (s : bool) (n : Z) (nd : nat) : result pyerr float :=
  match n with
  | Zpos n =>
      match SFdiv prec emax (S754_finite s n 0)
              (S754_finite false (Z.to_pos (10 ^ Z.of_nat nd)) 0) with
      | S754_infinity _ => Raise OverflowError
      | f => Ok f
      end
  | _ => Ok (S754_zero s)
  end.

(** [round(x, nd)] for [nd >= 0]: round to the decimal with [nd]
    fractional digits, then to the nearest double. *)
Definition round (x : float) (nd : nat) : result pyerr float :=
  match x with
  | S754_finite s m e => of_decimal s (scaled_digits m e nd) nd
  | _ => Ok x
  end.

(** Literals of the source. *)
Definition c0_98 : float := S754_finite false 8827055269646172 (-53).
Definition c5 : float := S754_finite false 5629499534213120 (-50).

(** The unit roundoff and half the least positive double. *)
Definition u : Q := (2 ^ (-53))%Q.
Definition eta : Q := (2 ^ (-1075))%Q.

(** A float that is [+0], [-0] or finite and positive. *)
Definition nonneg (x : float) : bool :=
  match x with
  | S754_zero _ | S754_finite false _ _ => true
  | _ => false
  end.

(** A float that is finite and positive. *)
Definition positive_finite (x : float) : bool :=
  match x with
  | S754_finite false _ _ => true
  | _ => false
  end.

End F64.

(** ** The string operations the handler uses *)

Module Str.

Definition is_space (c : ascii) : bool :=
  let n := nat_of_ascii c in
  ((9 <=? n) && (n <=? 13) || (28 <=? n) && (n <=? 32)
   || (n =? 133) || (n =? 160))%nat.

(** [s.lstrip()], [s.rstrip()] and [s.strip()]. *)
Fixpoint lstrip (s : string) : string :=
  match s with
  | String c s' => if is_space c then lstrip s' else s
  | EmptyString => EmptyString
  end.

Fixpoint rstrip_by (p : ascii -> bool) (s : string) : string :=
  match s with
  | EmptyString => EmptyString
  | String c s' =>
      match rstrip_by p s' with
      | EmptyString => if p c then EmptyString else String c EmptyString
      | r => String c r
      end
  end.

Definition strip (s : string) : string := rstrip_by is_space (lstrip s).

(** [s.rstrip(c)] for a one-character argument. *)
Definition rstrip (c : ascii) (s : string) : string :=
  rstrip_by (Ascii.eqb c) s.

(** [s.lower()]: the upper-case letters of ASCII and of Latin-1. *)
Definition lower_char (c : ascii) : ascii :=
  let n := nat_of_ascii c in
  if ((65 <=? n) && (n <=? 90)
      || (192 <=? n) && (n <=? 222) && negb (n =? 215))%nat
  then ascii_of_nat (n + 32) else c.

Fixpoint lower (s : string) : string :=
  match s with
  | String c s' => String (lower_char c) (lower s')
  | EmptyString => EmptyString
  end.

(** [c in s] for a one-character [c]. *)
Fixpoint contains (c : ascii) (s : string) : bool :=
  match s with
  | String a s' => Ascii.eqb c a || contains c s'
  | EmptyString => false
  end.

(** [s.split(c)] for a one-character separator: never empty. *)
Fixpoint split (c : ascii) (s : string) : list string :=
  match s with
  | EmptyString => [EmptyString]
  | String a s' =>
      if Ascii.eqb c a then EmptyString :: split c s'
      else match split c s' with
           | h :: t => String a h :: t
           | [] => [String a EmptyString]
           end
  end.

(** [k] decimal digits of [n], most significant first, zero padded. *)
Definition digit (d : Z) : ascii := ascii_of_nat (48 + Z.to_nat d).

Fixpoint digits (k : nat) (n : Z) : string :=
  match k with
  | O => EmptyString
  | S k' => digits k' (n / 10) ++ String (digit (n mod 10)) EmptyString
  end.

Definition of_int (n : Z) : string := NilZero.string_of_int (Z.to_int n).

End Str.

(** [f"{x:.10f}"]. *)
Definition format_10f (x : float) : string :=
  match x with
  | S754_nan => "nan"
  | S754_infinity s => if s then "-inf" else "inf"
  | S754_zero s => (if s then "-" else "") ++ "0.0000000000"
  | S754_finite s m e =>
      let n := F64.scaled_digits m e 10 in
      (if s then "-" else "")
        ++ Str.of_int (n / 10 ^ 10) ++ "." ++ Str.digits 10 (n mod 10 ^ 10)
  end.

(** ** Hilfsfunktionen *)

(** [truncate(number, decimals)] with [factor = 10 ** decimals] an [int]
    (the exponent is a count of digits). *)
Definition truncate (number : float) (decimals : nat) : result pyerr float :=
  let factor := 10 ^ Z.of_nat decimals in
  f ← F64.of_int factor;
  n ← F64.floor (F64.mul number f);
  F64.int_truediv n factor.

Definition round_step_size (quantity step_size : float) : result pyerr float :=
  q ← F64.truediv quantity step_size;
  n ← F64.floor q;
  f ← F64.of_int n;
  Ok (F64.mul f step_size).

(** The two lines that derive the number of decimals from [step_size]. *)
Definition step_decimals (step_size : float) : result pyerr nat :=
  let step_str := Str.rstrip "0" (format_10f step_size) in
  if Str.contains "." step_str then
    match Str.split "." step_str with
    | _ :: frac :: _ => Ok (String.length frac)
    | _ => Raise IndexError
    end
  else Ok O.

(** ** Payloads, configuration and the exchange client *)

#[local] Set Warnings "-register-all".

(** What [request.json()] can return. *)
Inductive json : Type :=
| JNull
| JBool (b : bool)
| JInt (n : Z)
| JFloat (x : float)
| JStr (s : string)
| JList (l : list json)
| JDict (d : gmap string json).

(** Truth value of an object, as [or] and [if] test it. *)
Definition truthy (v : json) : bool :=
  match v with
  | JNull => false
  | JBool b => b
  | JInt n => negb (n =? 0)
  | JFloat x => negb (F64.is_zero x)
  | JStr s => negb (String.eqb s "")
  | JList l => match l with [] => false | _ => true end
  | JDict d => negb (bool_decide (d = ∅))
  end.

(** [body.get(key)]: only a [dict] has the method. *)
Definition dict_get (body : json) (key : string) : result pyerr json :=
  match body with
  | JDict d => Ok (default JNull (d !! key))
  | _ => Raise AttributeError
  end.

(** [v != s] for a [str] [s]. *)
Definition differs_from_str (v : json) (s : string) : bool :=
  match v with
  | JStr s' => negb (String.eqb s' s)
  | _ => true
  end.

(** [v.strip().lower()]: only a [str] has the methods. *)
Definition strip_lower (v : json) : result pyerr string :=
  match v with
  | JStr s => Ok (Str.lower (Str.strip s))
  | _ => Raise AttributeError
  end.

(** [(body.get("message") or body.get("action") or "").strip().lower()]. *)
Definition action_text (body : json) : result pyerr string :=
  m ← dict_get body "message";
  v ← (if truthy m then Ok m
       else a ← dict_get body "action";
            Ok (if truthy a then a else JStr ""));
  strip_lower v.

Record Config : Type := {
  WEBHOOK_TOKEN : option string;
  SYMBOL : string;
  BASE_ASSET : string;
  QUOTE_ASSET : string }.

(** [if WEBHOOK_TOKEN:] holds for a set, non-empty token. *)
Definition token_configured (cfg : Config) : option string :=
  match WEBHOOK_TOKEN cfg with
  | Some t => if String.eqb t "" then None else Some t
  | None => None
  end.

(** *** The module body *)

(** The exception of the module body: the [RuntimeError] about the
    missing credentials. *)
Inductive startup_exn : Type := RuntimeError_credentials.

(** What the module body leaves behind: the credentials, as [os.getenv]
    returned them, and the settings the handlers read. *)
Record Settings : Type := {
  BINANCE_API_KEY : option string;
  BINANCE_API_SECRET : option string;
  config : Config }.

(** [os.getenv(name)] and [os.getenv(name, default)] on the environment. *)
Definition getenv (env : gmap string string) (name : string) : option string :=
  env !! name.

Definition getenv_or (env : gmap string string) (name dflt : string) : string :=
  default dflt (env !! name).

(** [not v] for what [os.getenv] returned. *)
Definition unset (v : option string) : bool :=
  match v with
  | Some s => String.eqb s ""
  | None => true
  end.

(** The module body up to the construction of the client. *)
Definition configure (env : gmap string string) : result startup_exn Settings :=
  let key := getenv env "BINANCE_API_KEY" in
  let secret := getenv env "BINANCE_API_SECRET" in
  let cfg := {| WEBHOOK_TOKEN := getenv env "WEBHOOK_TOKEN";
                SYMBOL := getenv_or env "SYMBOL" "ETHUSDC";
                BASE_ASSET := getenv_or env "BASE_ASSET" "ETH";
                QUOTE_ASSET := getenv_or env "QUOTE_ASSET" "USDC" |} in
  if unset key || unset secret then Raise RuntimeError_credentials
  else Ok {| BINANCE_API_KEY := key; BINANCE_API_SECRET := secret;
             config := cfg |}.

(** One entry of [info["filters"]].  The numeric fields hold the double
    that [float(f[key])] reads from the exchange's decimal string, [None]
    when the key is missing. *)
Record Filter : Type := {
  filterType : option string;
  stepSize : option float;
  minQty : option float;
  minNotional : option float }.

Inductive Side : Type := SIDE_BUY | SIDE_SELL.

(** A market order is sized by quote amount or by base quantity. *)
Inductive Sizing : Type :=
| quoteOrderQty (amount : float)
| quantity (amount : float).

Record OrderRequest : Type := {
  o_symbol : string;
  o_side : Side;
  o_size : Sizing }.

Record Fill : Type := { price : option string }.

Record Order : Type := {
  executedQty : option string;
  side : option string;
  status : option string;
  fills : list Fill }.

(** Exceptions of the exchange client. *)
Inductive binance_exn : Type :=
| BinanceAPIException (msg : string)
| BinanceOrderException (msg : string)
| BinanceRequestException (msg : string).

(** The exchange, as the handler sees it: each call returns or raises.
    [get_symbol_info] returns [None] for an unknown symbol, else the
    filter list of the info; [get_asset_balance] returns [None] for an
    unknown asset, else the double read from ["free"]. *)
Record Exchange : Type := {
  get_symbol_info : string -> result binance_exn (option (list Filter));
  get_asset_balance : string -> result binance_exn (option float);
  create_order : OrderRequest -> result binance_exn Order }.

(** ** Errors of the handler *)

Inductive fault : Type :=
| Builtin (e : pyerr)
| Binance (e : binance_exn).

(** The [detail] of each [HTTPException] the source raises, with the
    values its message interpolates. *)
Inductive Detail : Type :=
| Invalid_JSON
| Ungueltiger_Token
| Erwarte_buy_oder_sell
| Symbol_nicht_gefunden (symbol : string)
| Guthaben_zu_gering_minNotional (quote_qty min_notional : float)
| Guthaben_zu_gering (usdc_free : float)
| LOT_SIZE_nicht_bestimmt
| Zu_wenig (asset : string) (qty min_qty : float)
| Binance_Error (e : binance_exn)
| Server_error (e : fault).

Inductive exn : Type :=
| Fault (e : fault)
| HTTPException (status_code : Z) (detail : Detail).

(** ** Calls to the exchange, in order *)

Inductive call : Type :=
| GetSymbolInfo (symbol : string)
| GetAssetBalance (asset : string)
| CreateOrder (req : OrderRequest).

(** A handler computation: it extends the log of exchange calls made so
    far and returns or raises. *)
Definition io (A : Type) : Type := list call -> result exn A * list call.

#[global] Instance io_ret : MRet io := fun _ a log => (Ok a, log).
#[global] Instance io_bind : MBind io := fun _ _ k m log =>
  match m log with
  | (Ok a, log') => k a log'
  | (Raise e, log') => (Raise e, log')
  end.

Definition raise {A} (e : exn) : io A := fun log => (Raise e, log).

(** A pure step; a built-in exception propagates. *)
Definition pure {A} (r : result pyerr A) : io A := fun log =>
  match r with
  | Ok a => (Ok a, log)
  | Raise e => (Raise (Fault (Builtin e)), log)
  end.

(** A call to the client: logged, then its answer. *)
Definition client {A} (c : call) (r : result binance_exn A) : io A := fun log =>
  match r with
  | Ok a => (Ok a, log ++ [c])%list
  | Raise e => (Raise (Fault (Binance e)), log ++ [c])%list
  end.

Definition try_except {A} (m : io A) (handler : exn -> io A) : io A := fun log =>
  match m log with
  | (Raise e, log') => handler e log'
  | r => r
  end.

(** [d[key]]. *)
Definition getitem {A} (field : option A) : result pyerr A :=
  match field with
  | Some a => Ok a
  | None => Raise KeyError
  end.

(** ** [get_symbol_filters] *)

Definition filters_state : Type := (option float * option float * option float)%type.

Definition is_type (f : Filter) (name : string) : bool :=
  match filterType f with
  | Some t => String.eqb t name
  | None => false
  end.

(** The body of the [for] loop. *)
Definition scan_filter (f : Filter) (st : filters_state)
  : result pyerr filters_state :=
  let '(step_size, min_qty, min_notional) := st in
  lot ← (if is_type f "LOT_SIZE" then
           s ← getitem (stepSize f);
           q ← getitem (minQty f);
           Ok (Some s, Some q)
         else Ok (step_size, min_qty));
  let min_notional :=
    if is_type f "MIN_NOTIONAL" || is_type f "NOTIONAL" then
      match minNotional f with
      | Some v => Some v
      | None => min_notional
      end
    else min_notional in
  Ok (lot.1, lot.2, min_notional).

Fixpoint scan_filters (fs : list Filter) (st : filters_state)
  : result pyerr filters_state :=
  match fs with
  | [] => Ok st
  | f :: fs' => st' ← scan_filter f st; scan_filters fs' st'
  end.

Definition get_symbol_filters (ex : Exchange) (symbol : string)
  : io filters_state :=
  info ← client (GetSymbolInfo symbol) (get_symbol_info ex symbol);
  match info with
  | None => raise (HTTPException 400 (Symbol_nicht_gefunden symbol))
  | Some fs => pure (scan_filters fs (None, None, None))
  end.

(** ** Healthcheck *)

Record Health : Type := { h_status : string; h_symbol : string }.

(** [root]: no call to the client. *)
Definition root (cfg : Config) : io Health :=
  mret {| h_status := "ok"; h_symbol := SYMBOL cfg |}.

(** ** [webhook] *)

(** The request, by what [await request.json()] does with its body:
    [None] when it raises. *)
Record Request : Type := { request_json : option json }.

Record Response : Type := {
  r_status : string;
  r_action : string;
  r_symbol : string;
  r_executedQty : option string;
  r_side : option string;
  r_orderStatus : option string;
  r_avgPrice : option string }.

(** The [except] clauses of the handler, in order. *)
Definition on_exception {A} (e : exn) : io A :=
  match e with
  | Fault (Binance (BinanceAPIException _ as b))
  | Fault (Binance (BinanceOrderException _ as b)) =>
      raise (HTTPException 400 (Binance_Error b))
  | HTTPException _ _ => raise e
  | Fault f => raise (HTTPException 500 (Server_error f))
  end.

(** [float(balance["free"])] on the answer of [get_asset_balance]. *)
Definition free (balance : option float) : result pyerr float :=
  match balance with
  | Some x => Ok x
  | None => Raise TypeError
  end.

Definition buy (cfg : Config) (ex : Exchange) (min_notional : option float)
  : io Order :=
  usdc ← client (GetAssetBalance (QUOTE_ASSET cfg))
                (get_asset_balance ex (QUOTE_ASSET cfg));
  usdc_free ← pure (free usdc);
  quote_qty ← pure (truncate (F64.mul usdc_free F64.c0_98) 2);
  _ ← match min_notional with
      | Some mn =>
          if F64.ltb quote_qty mn
          then raise (HTTPException 400 (Guthaben_zu_gering_minNotional quote_qty mn))
          else mret tt
      | None => mret tt
      end;
  if F64.ltb quote_qty F64.c5
  then raise (HTTPException 400 (Guthaben_zu_gering usdc_free))
  else
    let req := {| o_symbol := SYMBOL cfg; o_side := SIDE_BUY;
                  o_size := quoteOrderQty quote_qty |} in
    client (CreateOrder req) (create_order ex req).

Definition sell (cfg : Config) (ex : Exchange) (step_size min_qty : option float)
  : io Order :=
  match step_size, min_qty with
  | Some step_size, Some min_qty =>
      eth ← client (GetAssetBalance (BASE_ASSET cfg))
                   (get_asset_balance ex (BASE_ASSET cfg));
      raw_qty ← pure (free eth);
      qty ← pure (round_step_size raw_qty step_size);
      decimals ← pure (step_decimals step_size);
      qty ← pure (F64.round qty decimals);
      if F64.ltb qty min_qty
      then raise (HTTPException 400 (Zu_wenig (BASE_ASSET cfg) qty min_qty))
      else
        let req := {| o_symbol := SYMBOL cfg; o_side := SIDE_SELL;
                      o_size := quantity qty |} in
        client (CreateOrder req) (create_order ex req)
  | _, _ => raise (HTTPException 400 LOT_SIZE_nicht_bestimmt)
  end.

(** The compact order feedback. *)
Definition feedback (cfg : Config) (text : string) (order : Order)
  : result pyerr Response :=
  avg ← match fills order with
        | f :: _ => p ← getitem (price f); Ok (Some p)
        | [] => Ok None
        end;
  Ok {| r_status := "ok"; r_action := text; r_symbol := SYMBOL cfg;
        r_executedQty := executedQty order; r_side := side order;
        r_orderStatus := status order; r_avgPrice := avg |}.

Definition is_action (text : string) : bool :=
  String.eqb text "buy" || String.eqb text "sell".

(** The optional token check. *)
Definition token_check (cfg : Config) (body : json) : io unit :=
  match token_configured cfg with
  | Some token =>
      t ← pure (dict_get body "token");
      if differs_from_str t token
      then raise (HTTPException 401 Ungueltiger_Token)
      else mret tt
  | None => mret tt
  end.

(** The [try] statement: size and submit the order, report it. *)
Definition place_order (cfg : Config) (ex : Exchange) (text : string)
    (step_size min_qty min_notional : option float) : io Response :=
  try_except
    (order ← (if String.eqb text "buy" then buy cfg ex min_notional
              else sell cfg ex step_size min_qty);
     pure (feedback cfg text order))
    on_exception.

(** What follows the check of the action text. *)
Definition execute (cfg : Config) (ex : Exchange) (text : string)
  : io Response :=
  '(step_size, min_qty, min_notional) ← get_symbol_filters ex (SYMBOL cfg);
  place_order cfg ex text step_size min_qty min_notional.

Definition webhook (cfg : Config) (ex : Exchange) (request : Request)
  : io Response :=
  body ← match request_json request with
         | Some b => mret b
         | None => raise (HTTPException 400 Invalid_JSON)
         end;
  _ ← token_check cfg body;
  text ← pure (action_text body);
  if negb (is_action text)
  then raise (HTTPException 400 Erwarte_buy_oder_sell)
  else execute cfg ex text.

(** A request is served from an empty log. *)
Definition serve (cfg : Config) (ex : Exchange) (request : Request)
  : result exn Response * list call :=
  webhook cfg ex request [].

(** The orders submitted in a log. *)
Fixpoint orders (log : list call) : list OrderRequest :=
  match log with
  | CreateOrder req :: log' => req :: orders log'
  | _ :: log' => orders log'
  | [] => []
  end.

(** ** Notions used by the properties *)

(** The magnitude of a finite float, scaled by a power of ten. *)
Definition scaled (m : positive) (e : Z) (nd : nat) : Q :=
  (F64.to_Q (S754_finite false m e) * inject_Z (10 ^ Z.of_nat nd))%Q.

(** The locations from which rounding to nearest may go up. *)
Definition half_up (l : location) : bool :=
  match l with
  | loc_Inexact Eq | loc_Inexact Gt => true
  | _ => false
  end.

(** The rounded significand [m] at the exponent [e] it is read at,
    against the value [V] that was rounded: above it by a relative
    [u] at most, or by [eta] in the subnormal range. *)
Definition rounded_up_to (V : Q) (m : Z) (e : Z) : Prop :=
  (inject_Z m * 2 ^ e <= V * (1 + F64.u) \/
   (inject_Z m * 2 ^ e <= V + F64.eta /\ inject_Z m * 2 ^ e <= 2 ^ (-1021)))%Q.

(** The same for a float [r] that [V] was rounded to. *)
Definition upper_rounded (V : Q) (r : float) : Prop :=
  (F64.to_Q r <= V * (1 + F64.u) \/
   (F64.to_Q r <= V + F64.eta /\ F64.to_Q r <= 2 ^ (-1021)))%Q.

(** The rounded significand [m] at the exponent [e] it is read at,
    against the value [V] that was rounded: below it by a relative
    [u] at most, or by [eta] in the subnormal range. *)
Definition rounded_down_to (V : Q) (m : Z) (e : Z) : Prop :=
  (V * (1 - F64.u) <= inject_Z m * 2 ^ e \/ V - F64.eta <= inject_Z m * 2 ^ e)%Q.

(** The same for a float [r] that [V] was rounded to. *)
Definition lower_rounded (V : Q) (r : float) : Prop :=
  (V * (1 - F64.u) <= F64.to_Q r \/ V - F64.eta <= F64.to_Q r)%Q.

(** The locations from which rounding to nearest may go down. *)
Definition half_down (l : location) : bool :=
  match l with
  | loc_Inexact Gt => false
  | _ => true
  end.

(** The digits after the point, once the trailing zeros are gone. *)
Definition kept_digits (n : Z) : string :=
  Str.rstrip "0" (Str.digits 10 (n mod 10 ^ 10)).

Definition post (body : json) : Request := {| request_json := Some body |}.

(** The token check lets the body through. *)
Definition authorized (cfg : Config) (body : json) : Prop :=
  forall log, token_check cfg body log = (Ok tt, log).

(** The client errors of the spec: every [detail] but the exchange's own
    refusal and the unexpected failure. *)
Definition rejection (d : Detail) : bool :=
  match d with
  | Binance_Error _ | Server_error _ => false
  | _ => true
  end.

(** The lookup in the words of the spec, to compare [action_text] with:
    from an ordered list of candidate field names the first
    present-and-non-empty one wins; the empty text stands in when there
    is none. *)
Fixpoint first_non_empty (d : gmap string json) (names : list string) : json :=
  match names with
  | [] => JStr ""
  | name :: names' =>
      match d !! name with
      | Some v => if truthy v then v else first_non_empty d names'
      | None => first_non_empty d names'
      end
  end.

(** The rejections raised before the payload is acted upon. *)
Definition early (d : Detail) : bool :=
  match d with
  | Invalid_JSON | Ungueltiger_Token | Erwarte_buy_oder_sell => true
  | _ => false
  end.

(** What an exception that leaves a block after the action check tells
    about the log.  An [HTTPException] is no early rejection, its status
    is not 401, and a rejection leaves the orders of the log as they
    were; so does an exception that is not handled. *)
Definition late (log log' : list call) (r : result exn Response) : Prop :=
  match r with
  | Raise (HTTPException st d) =>
      early d = false /\ st <> 401 /\
      (rejection d = true -> orders log' = orders log)
  | Raise (Fault _) => orders log' = orders log
  | Ok _ => True
  end.

(** The sizing blocks raise their rejections with the orders of the
    log untouched; they raise no other [HTTPException]. *)
Definition sized (log log' : list call) (r : result exn Order) : Prop :=
  match r with
  | Raise (HTTPException st d) =>
      early d = false /\ st = 400 /\ rejection d = true /\
      orders log' = orders log
  | Raise (Fault (Builtin _)) => orders log' = orders log
  | _ => True
  end.

(** [x < bound] for a bound that may be unknown. *)
Definition below (x : float) (bound : option float) : bool :=
  match bound with
  | Some b => F64.ltb x b
  | None => false
  end.

(** *** The filter list *)

(** The last filter of a list that satisfies [p]. *)
Fixpoint last_such (p : Filter -> bool) (fs : list Filter) : option Filter :=
  match fs with
  | [] => None
  | f :: fs' =>
      match last_such p fs' with
      | Some g => Some g
      | None => if p f then Some f else None
      end
  end.

(** The filters the loop reads: a lot size, and a notional that carries
    its minimum. *)
Definition is_lot_size (f : Filter) : bool := is_type f "LOT_SIZE".

Definition carries_min_notional (f : Filter) : bool :=
  (is_type f "MIN_NOTIONAL" || is_type f "NOTIONAL")
  && match minNotional f with Some _ => true | None => false end.

(** A lot size filter that lacks one of its two keys. *)
Definition incomplete_lot_size (f : Filter) : bool :=
  is_lot_size f
  && match stepSize f, minQty f with Some _, Some _ => false | _, _ => true end.

(** What the loop leaves in its three variables, read off the list. *)
Definition lot_of (fs : list Filter) : option float * option float :=
  match last_such is_lot_size fs with
  | Some f => (stepSize f, minQty f)
  | None => (None, None)
  end.

Definition min_notional_of (fs : list Filter) : option float :=
  match last_such carries_min_notional fs with
  | Some f => minNotional f
  | None => None
  end.

(** *** The calls of a request *)

(** The asset whose balance a signal reads, and the order it submits
    for an amount. *)
Definition asset_of (cfg : Config) (text : string) : string :=
  if String.eqb text "buy" then QUOTE_ASSET cfg else BASE_ASSET cfg.

Definition order_of (cfg : Config) (text : string) (amount : float) : OrderRequest :=
  {| o_symbol := SYMBOL cfg;
     o_side := if String.eqb text "buy" then SIDE_BUY else SIDE_SELL;
     o_size := if String.eqb text "buy" then quoteOrderQty amount
               else quantity amount |}.

(** The three calls of a request that goes all the way. *)
Definition session (cfg : Config) (text : string) (amount : float) : list call :=
  [GetSymbolInfo (SYMBOL cfg); GetAssetBalance (asset_of cfg text);
   CreateOrder (order_of cfg text amount)].

(** The exchange raises [e] on the call [c]; it answers the call. *)
Definition raises (ex : Exchange) (c : call) (e : binance_exn) : Prop :=
  match c with
  | GetSymbolInfo s => get_symbol_info ex s = Raise e
  | GetAssetBalance a => get_asset_balance ex a = Raise e
  | CreateOrder req => create_order ex req = Raise e
  end.

Definition answers (ex : Exchange) (c : call) : Prop :=
  match c with
  | GetSymbolInfo s => exists v, get_symbol_info ex s = Ok v
  | GetAssetBalance a => exists v, get_asset_balance ex a = Ok v
  | CreateOrder req => exists v, create_order ex req = Ok v
  end.

(** The exceptions of the client that the first [except] clause names. *)
Definition passed_on (e : binance_exn) : bool :=
  match e with
  | BinanceRequestException _ => false
  | _ => true
  end.

(** The answer to a failure of the exchange inside the [try] statement. *)
Definition reported (e : binance_exn) : exn :=
  if passed_on e then HTTPException 400 (Binance_Error e)
  else HTTPException 500 (Server_error (Binance e)).

(** The status code that goes with each [detail]. *)
Definition status_of (d : Detail) : Z :=
  match d with
  | Ungueltiger_Token => 401
  | Server_error _ => 500
  | _ => 400
  end.

(** The price of the first fill, [None] without fills. *)
Definition first_price (order : Order) : option string :=
  match fills order with
  | f :: _ => price f
  | [] => None
  end.

(** The calls of a block inside the [try] statement end in a call that
    raised [e]: the balance read, or the order after it. *)
Definition failed_at (cfg : Config) (ex : Exchange) (text : string)
    (l : list call) (e : binance_exn) : Prop :=
  let bal := GetAssetBalance (asset_of cfg text) in
  (l = [bal] /\ raises ex bal e) \/
  (exists amount,
     l = [bal; CreateOrder (order_of cfg text amount)] /\ answers ex bal /\
     raises ex (CreateOrder (order_of cfg text amount)) e).

(** The calls of a block that submitted an order the exchange accepted. *)
Definition accepted_at (cfg : Config) (ex : Exchange) (text : string)
    (l : list call) (order : Order) : Prop :=
  let bal := GetAssetBalance (asset_of cfg text) in
  exists amount,
    l = [bal; CreateOrder (order_of cfg text amount)] /\ answers ex bal /\
    create_order ex (order_of cfg text amount) = Ok order.

(** The calls of a block that stopped after the balance read, or at the
    guard of the sell branch before it. *)
Definition stopped_at (cfg : Config) (ex : Exchange) (text : string)
    (l : list call) (guard : bool) : Prop :=
  let bal := GetAssetBalance (asset_of cfg text) in
  (l = [bal] /\ answers ex bal) \/ (l = [] /\ guard = true).

Definition is_guard (d : Detail) : bool :=
  match d with LOT_SIZE_nicht_bestimmt => true | _ => false end.

(** The calls of a sizing block and what they tell about its result. *)
Definition sizing_trace (cfg : Config) (ex : Exchange) (text : string)
    (r : result exn Order) (l : list call) : Prop :=
  match r with
  | Ok order => accepted_at cfg ex text l order
  | Raise (Fault (Binance e)) => failed_at cfg ex text l e
  | Raise (Fault (Builtin e)) => stopped_at cfg ex text l false
  | Raise (HTTPException st d) =>
      st = 400 /\ rejection d = true /\ early d = false /\
      stopped_at cfg ex text l (is_guard d)
  end.

(** The same for the [try] statement as a whole. *)
Definition placed_trace (cfg : Config) (ex : Exchange) (text : string)
    (r : result exn Response) (l : list call) : Prop :=
  match r with
  | Ok resp =>
      exists order, accepted_at cfg ex text l order /\ feedback cfg text order = Ok resp
  | Raise (HTTPException st (Binance_Error e)) =>
      st = 400 /\ passed_on e = true /\ failed_at cfg ex text l e
  | Raise (HTTPException st (Server_error (Binance e))) =>
      st = 500 /\ passed_on e = false /\ failed_at cfg ex text l e
  | Raise (HTTPException st (Server_error (Builtin e))) =>
      st = 500 /\
      (stopped_at cfg ex text l false \/
       exists order, accepted_at cfg ex text l order /\ feedback cfg text order = Raise e)
  | Raise (HTTPException st d) =>
      st = 400 /\ rejection d = true /\ early d = false /\
      stopped_at cfg ex text l (is_guard d)
  | Raise (Fault _) => False
  end.

(** What stops a request at the filter lookup, before the [try]
    statement. *)
Definition lookup_failure (cfg : Config) (ex : Exchange) (r : result exn Response) : Prop :=
  (r = Raise (HTTPException 400 (Symbol_nicht_gefunden (SYMBOL cfg))) /\
   get_symbol_info ex (SYMBOL cfg) = Ok None) \/
  (exists e, r = Raise (Fault (Binance e)) /\
             get_symbol_info ex (SYMBOL cfg) = Raise e) \/
  (r = Raise (Fault (Builtin KeyError)) /\
   exists fs, get_symbol_info ex (SYMBOL cfg) = Ok (Some fs) /\
              existsb incomplete_lot_size fs = true).

(** What stops a request before any exchange call. *)
Definition turned_away (cfg : Config) (request : Request) (r : result exn Response) : Prop :=
  match request_json request with
  | None => r = Raise (HTTPException 400 Invalid_JSON)
  | Some body =>
      r = Raise (HTTPException 401 Ungueltiger_Token) /\ token_configured cfg <> None \/
      r = Raise (Fault (Builtin AttributeError)) \/
      r = Raise (HTTPException 400 Erwarte_buy_oder_sell) /\
      exists text, action_text body = Ok text /\ is_action text = false
  end.

(** *** The spelling of an action *)

(** A predicate over the characters of a string. *)
Fixpoint over (p : ascii -> bool) (s : string) : bool :=
  match s with
  | String c s' => p c && over p s'
  | EmptyString => true
  end.

(** A string of whitespace only. *)
Definition blank (s : string) : bool := over Str.is_space s.

(** [s] is [core] between two runs of whitespace. *)
Definition padded (s core : string) : Prop :=
  exists l r, s = l ++ core ++ r /\ blank l = true /\ blank r = true.

(** The upper-case form of a lower-case ASCII letter. *)
Definition upper_of (c : ascii) : ascii := ascii_of_nat (nat_of_ascii c - 32).

(** [core] spells the lower-case [word], letter by letter, in either
    case. *)
Fixpoint spells (word core : string) : bool :=
  match word, core with
  | EmptyString, EmptyString => true
  | String w word', String c core' =>
      (Ascii.eqb c w || Ascii.eqb c (upper_of w)) && spells word' core'
  | _, _ => false
  end.

(** The letters of the two action words. *)
Definition letters : list ascii := ["b"; "u"; "y"; "s"; "e"; "l"]%char.

Definition is_letter (c : ascii) : bool := existsb (Ascii.eqb c) letters.

(** ** Doubles used in the examples *)

Module Dbl.
Definition pos (m : positive) (e : Z) : float := S754_finite false m e.

Definition d0_1 : float := pos 7205759403792794 (-56).
Definition d0_001 : float := pos 4611686018427388 (-62).
Definition d0_01 : float := pos 5764607523034235 (-59).
Definition d0_7 : float := pos 6305039478318694 (-53).
Definition d0_9 : float := pos 8106479329266893 (-53).
(** 0.8999999999999999, the double just below 0.9. *)
Definition d0_9_pred : float := pos 8106479329266892 (-53).
Definition d1 : float := pos 4503599627370496 (-52).
Definition d1_23 : float := pos 5539427541665710 (-52).
Definition d1_23456 : float := pos 5559963955966520 (-52).
Definition d1_5 : float := pos 6755399441055744 (-52).
Definition d1_7 : float := pos 7656119366529843 (-52).
(** 1.7000000000000002, the double just above 1.7. *)
Definition d1_7_succ : float := pos 7656119366529844 (-52).
Definition d3_92 : float := pos 8827055269646172 (-51).
Definition d4 : float := pos 4503599627370496 (-50).
Definition d98 : float := pos 6896136929411072 (-46).
Definition d100 : float := pos 7036874417766400 (-46).
Definition d1e_11 : float := pos 6189700196426901 (-89).
Definition d9e_11 : float := pos 6963412720980264 (-86).
(** 2.1 and 2.0999999999999996, the double just below it. *)
Definition d2_1 : float := pos 4728779608739021 (-51).
Definition d2_1_pred : float := pos 4728779608739020 (-51).
End Dbl.

(** ** A configured service and an exchange to run it against *)

Module Example.

Definition cfg : Config :=
  {| WEBHOOK_TOKEN := Some "secret"; SYMBOL := "ETHUSDC";
     BASE_ASSET := "ETH"; QUOTE_ASSET := "USDC" |}.

(** The same service without a token. *)
Definition open_cfg : Config :=
  {| WEBHOOK_TOKEN := None; SYMBOL := "ETHUSDC";
     BASE_ASSET := "ETH"; QUOTE_ASSET := "USDC" |}.

Definition lot_size (step min : float) : Filter :=
  {| filterType := Some "LOT_SIZE"; stepSize := Some step;
     minQty := Some min; minNotional := None |}.

Definition notional (min : float) : Filter :=
  {| filterType := Some "NOTIONAL"; stepSize := None;
     minQty := None; minNotional := Some min |}.

Definition filled : Order :=
  {| executedQty := Some "0.03"; side := Some "BUY";
     status := Some "FILLED"; fills := [{| price := Some "3200.00" |}] |}.

(** An exchange with the given lot step (minimum quantity 0.01,
    minimum notional 5) and the given free balances. *)
Definition exchange (step usdc eth : float) : Exchange :=
  {| get_symbol_info := fun _ =>
       Ok (Some [lot_size step Dbl.d0_01; notional F64.c5]);
     get_asset_balance := fun asset =>
       Ok (Some (if String.eqb asset "USDC" then usdc else eth));
     create_order := fun _ => Ok filled |}.

(** Step 0.01, 100 USDC and 1.23456 ETH. *)
Definition ex : Exchange := exchange Dbl.d0_01 Dbl.d100 Dbl.d1_23456.

Definition filters (step : float) : list Filter :=
  [lot_size step Dbl.d0_01; notional F64.c5].

Definition payload (fields : list (string * json)) : json :=
  JDict (list_to_map fields).

Definition signal (text : string) : json :=
  payload [("token", JStr "secret"); ("message", JStr text)].

Definition market (s : Side) (size : Sizing) : OrderRequest :=
  {| o_symbol := "ETHUSDC"; o_side := s; o_size := size |}.

Definition min_notional_filter (min : float) : Filter :=
  {| filterType := Some "MIN_NOTIONAL"; stepSize := None;
     minQty := None; minNotional := Some min |}.

Definition price_filter : Filter :=
  {| filterType := Some "PRICE_FILTER"; stepSize := None;
     minQty := None; minNotional := None |}.

(** A list with two filters of each kind: the later ones count. *)
Definition crowded : list Filter :=
  [lot_size Dbl.d0_1 Dbl.d1; notional Dbl.d100; price_filter;
   lot_size Dbl.d0_01 Dbl.d0_01; min_notional_filter F64.c5].

(** A lot size filter without its ["minQty"]. *)
Definition broken_lot : Filter :=
  {| filterType := Some "LOT_SIZE"; stepSize := Some Dbl.d0_01;
     minQty := None; minNotional := None |}.

(** The exchange [ex] with another answer to the symbol lookup, and
    with another answer to an order. *)
Definition looking_up (info : result binance_exn (option (list Filter))) : Exchange :=
  {| get_symbol_info := fun _ => info;
     get_asset_balance := get_asset_balance ex;
     create_order := create_order ex |}.

Definition ordering (answer : result binance_exn Order) : Exchange :=
  {| get_symbol_info := get_symbol_info ex;
     get_asset_balance := get_asset_balance ex;
     create_order := fun _ => answer |}.

(** An order whose only fill carries no price. *)
Definition unpriced : Order :=
  {| executedQty := Some "0.03"; side := Some "BUY";
     status := Some "FILLED"; fills := [{| price := None |}] |}.

(** The answer to [filled]. *)
Definition bought : Response :=
  {| r_status := "ok"; r_action := "buy"; r_symbol := "ETHUSDC";
     r_executedQty := Some "0.03"; r_side := Some "BUY";
     r_orderStatus := Some "FILLED"; r_avgPrice := Some "3200.00" |}.

(** An environment with the credentials and a token, and one whose
    token is empty. *)
Definition env : gmap string string :=
  list_to_map [("BINANCE_API_KEY", "key"); ("BINANCE_API_SECRET", "secret key");
               ("WEBHOOK_TOKEN", "secret")].

Definition settings : Settings :=
  {| BINANCE_API_KEY := Some "key"; BINANCE_API_SECRET := Some "secret key";
     config := cfg |}.

End Example.

(** * Properties *)

(** ** The floor and the decimal rounding, against exact values *)

Section Exact.

Local Open Scope Q_scope.

Lemma Zpos_to_pos_pow2 (e : Z) : (e < 0)%Z -> Zpos (Z.to_pos (2 ^ (- e))) = (2 ^ (- e))%Z.
Proof.
  intros H. apply Z2Pos.id. apply Z.pow_pos_nonneg; lia.
Qed.

(** [math.floor] returns the greatest integer below the value. *)
Lemma floor_spec (x : float) (n : Z) :
  F64.floor x = Ok n ->
  inject_Z n <= F64.to_Q x /\ F64.to_Q x < inject_Z (n + 1).
Proof.
  destruct x as [s|s| |s m e]; simpl; try discriminate.
  - intros [= <-]. split; [apply Qle_refl | reflexivity].
  - destruct (Z.leb_spec 0 e) as [He|He]; intros [= <-].
    + split; [apply Qle_refl|]. rewrite <- Zlt_Qlt. lia.
    + assert (Hd : (0 < 2 ^ (- e))%Z) by (apply Z.pow_pos_nonneg; lia).
      unfold Qle, Qlt; simpl. rewrite Zpos_to_pos_pow2 by lia.
      set (a := F64.signed s m) in *. set (d := (2 ^ (- e))%Z) in *.
      pose proof (Z.div_mod a d ltac:(lia)) as Hdm.
      pose proof (Z.mod_pos_bound a d Hd) as Hb.
      split; nia.
Qed.

Lemma nearest_even_spec (num den : Z) :
  (0 < den)%Z ->
  (2 * Z.abs (F64.nearest_even num den * den - num) <= den)%Z.
Proof.
  intros Hd. unfold F64.nearest_even.
  pose proof (Z.div_mod num den ltac:(lia)) as Hdm.
  pose proof (Z.mod_pos_bound num den Hd) as Hb.
  set (q := (num / den)%Z) in *. set (r := (num mod den)%Z) in *.
  destruct (Z.compare_spec (2 * r) den) as [H|H|H];
    [destruct (Z.even q)| |]; nia.
Qed.

(** The digits kept by the decimal rounding are those of an integer
    nearest to the scaled value. *)
Lemma scaled_digits_spec (m : positive) (e : Z) (nd : nat) :
  Qabs (inject_Z (F64.scaled_digits m e nd) - scaled m e nd) <= 1 # 2.
Proof.
  unfold scaled, F64.scaled_digits, F64.to_Q.
  change (F64.signed false m) with (Z.pos m).
  destruct (Z.leb_spec 0 e) as [He|He].
  - rewrite <- inject_Z_mult.
    set (v := inject_Z _).
    assert (Hv : v - v == 0) by ring.
    rewrite Hv. discriminate.
  - assert (Hd : (0 < 2 ^ (- e))%Z) by (apply Z.pow_pos_nonneg; lia).
    pose proof (nearest_even_spec (Z.pos m * 10 ^ Z.of_nat nd) _ Hd) as H.
    set (N := F64.nearest_even _ _) in *.
    apply Qabs_Qle_condition.
    unfold Qle, Qminus, Qplus, Qopp, Qmult, inject_Z; simpl.
    rewrite ?Pos2Z.inj_mul, ?Zpos_to_pos_pow2 by lia.
    set (d := (2 ^ (- e))%Z) in *. set (t := (10 ^ Z.of_nat nd)%Z) in *.
    split; nia.
Qed.

End Exact.

(** ** Rounding to nearest never goes far above the value *)

(** *** Shifting a significand right *)

(** A significand of [n] bits lies between [2^(n-1)] and [2^n]. *)
Lemma digits2_bounds (m : positive) :
  2 ^ (Zpos (digits2_pos m) - 1) <= Zpos m < 2 ^ Zpos (digits2_pos m).
Proof.
  induction m as [m IH|m IH|]; cbn [digits2_pos].
  - rewrite Pos2Z.inj_succ, (Pos2Z.inj_xI m).
    replace (Z.succ (Z.pos (digits2_pos m)) - 1) with (Z.succ (Z.pos (digits2_pos m) - 1)) by lia.
    rewrite !Z.pow_succ_r by lia.
    revert IH. generalize (2 ^ (Z.pos (digits2_pos m) - 1)) (2 ^ Z.pos (digits2_pos m)).
    intros; lia.
  - rewrite Pos2Z.inj_succ, (Pos2Z.inj_xO m).
    replace (Z.succ (Z.pos (digits2_pos m)) - 1) with (Z.succ (Z.pos (digits2_pos m) - 1)) by lia.
    rewrite !Z.pow_succ_r by lia.
    revert IH. generalize (2 ^ (Z.pos (digits2_pos m) - 1)) (2 ^ Z.pos (digits2_pos m)).
    intros; lia.
  - cbn. lia.
Qed.

Lemma shr_1_spec (mrs : shr_record) :
  0 <= shr_m mrs ->
  shr_m (shr_1 mrs) = shr_m mrs / 2 /\ shr_r (shr_1 mrs) = Z.odd (shr_m mrs).
Proof.
  destruct mrs as [m r s]. cbn [shr_m]. intros Hm.
  destruct m as [|p|p]; [split; reflexivity| |lia].
  destruct p as [p|p|]; cbn [shr_1 shr_m shr_r].
  - split; [|reflexivity]. rewrite (Pos2Z.inj_xI p).
    apply Z.div_unique with 1; lia.
  - split; [|reflexivity]. rewrite (Pos2Z.inj_xO p).
    apply Z.div_unique with 0; lia.
  - split; reflexivity.
Qed.

Lemma iter_pos_nat {A} (f : A -> A) (p : positive) (x : A) :
  SpecFloat.iter_pos f p x = Nat.iter (Pos.to_nat p) f x.
Proof.
  revert x. induction p as [p IH|p IH|]; intros x; cbn [SpecFloat.iter_pos].
  - rewrite !IH, Pos2Nat.inj_xI.
    replace (2 * Pos.to_nat p)%nat with (Pos.to_nat p + Pos.to_nat p)%nat by lia.
    now rewrite Nat.iter_succ_r, Nat.iter_add.
  - rewrite !IH, Pos2Nat.inj_xO.
    replace (2 * Pos.to_nat p)%nat with (Pos.to_nat p + Pos.to_nat p)%nat by lia.
    now rewrite Nat.iter_add.
  - reflexivity.
Qed.

(** [k] shifts divide the significand by [2^k]; the round bit is the
    last bit shifted out. *)
Lemma shr_iter_spec (k : nat) (mrs : shr_record) :
  0 <= shr_m mrs ->
  shr_m (Nat.iter k shr_1 mrs) = shr_m mrs / 2 ^ Z.of_nat k /\
  ((0 < k)%nat -> shr_r (Nat.iter k shr_1 mrs) = true ->
   2 ^ (Z.of_nat k - 1) <= shr_m mrs mod 2 ^ Z.of_nat k).
Proof.
  intros Hm. induction k as [|k [IHm IHr]].
  - cbn. split; [now rewrite Z.div_1_r|lia].
  - change (Nat.iter (S k) shr_1 mrs) with (shr_1 (Nat.iter k shr_1 mrs)).
    assert (Hk : 0 <= shr_m (Nat.iter k shr_1 mrs)).
    { rewrite IHm. apply Z.div_pos; [lia|]. apply Z.pow_pos_nonneg; lia. }
    destruct (shr_1_spec _ Hk) as [H1 H2].
    rewrite H1, H2, IHm, Nat2Z.inj_succ, Z.pow_succ_r by lia.
    assert (Hp : 0 < 2 ^ Z.of_nat k) by (apply Z.pow_pos_nonneg; lia).
    split.
    + rewrite Z.div_div by lia. f_equal. lia.
    + intros _ Hodd.
      replace (Z.succ (Z.of_nat k) - 1) with (Z.of_nat k) by lia.
      replace (2 * 2 ^ Z.of_nat k) with (2 ^ Z.of_nat k * 2) by lia.
      rewrite Z.rem_mul_r by lia.
      rewrite Zmod_odd, Hodd.
      pose proof (Z.mod_pos_bound (shr_m mrs) (2 ^ Z.of_nat k) Hp). lia.
Qed.

Lemma shr_spec (mrs : shr_record) (e n : Z) :
  0 <= shr_m mrs ->
  (n <= 0 -> shr mrs e n = (mrs, e)) /\
  (0 < n ->
   shr_m (fst (shr mrs e n)) = shr_m mrs / 2 ^ n /\
   snd (shr mrs e n) = e + n /\
   (shr_r (fst (shr mrs e n)) = true -> 2 ^ (n - 1) <= shr_m mrs mod 2 ^ n)).
Proof.
  intros Hm. split.
  - destruct n; try reflexivity. lia.
  - destruct n as [|p|p]; try lia. intros _. cbn [shr fst snd].
    rewrite iter_pos_nat.
    destruct (shr_iter_spec (Pos.to_nat p) mrs Hm) as [H1 H2].
    rewrite positive_nat_Z in *.
    repeat split; auto. apply H2. lia.
Qed.

Lemma Zdigits2_bounds (m : Z) :
  0 <= m ->
  0 <= Zdigits2 m /\ m < 2 ^ Zdigits2 m /\ (0 < m -> 2 ^ (Zdigits2 m - 1) <= m).
Proof.
  intros Hm. destruct m as [|p|p]; [cbn; lia| |lia].
  cbn [Zdigits2]. pose proof (digits2_bounds p). lia.
Qed.

Lemma loc_of_record_of_loc (m : Z) (l : location) :
  loc_of_shr_record (shr_record_of_loc m l) = l /\
  shr_m (shr_record_of_loc m l) = m /\
  shr_r (shr_record_of_loc m l) = half_up l.
Proof. destruct l as [|[]]; repeat split. Qed.

Lemma round_nearest_even_cases (mrs : shr_record) :
  round_nearest_even (shr_m mrs) (loc_of_shr_record mrs) = shr_m mrs \/
  (round_nearest_even (shr_m mrs) (loc_of_shr_record mrs) = shr_m mrs + 1 /\
   shr_r mrs = true).
Proof.
  destruct mrs as [m [|] [|]]; cbn [shr_m shr_r loc_of_shr_record round_nearest_even];
    auto.
  destruct (Z.even m); auto.
Qed.

(** *** The bits a shift leaves behind *)

Lemma shr_1_sticky (mrs : shr_record) :
  shr_s (shr_1 mrs) = shr_r mrs || shr_s mrs.
Proof.
  destruct mrs as [m r s]. destruct m as [|p|p]; [reflexivity| |];
    destruct p; reflexivity.
Qed.

(** The round bit and the sticky bit after [k] shifts. *)
Lemma shr_iter_low (k : nat) (mrs : shr_record) :
  0 <= shr_m mrs -> (0 < k)%nat ->
  (shr_r (Nat.iter k shr_1 mrs) = false ->
   shr_m mrs mod 2 ^ Z.of_nat k < 2 ^ (Z.of_nat k - 1)) /\
  (shr_s (Nat.iter k shr_1 mrs) = false ->
   shr_m mrs mod 2 ^ (Z.of_nat k - 1) = 0 /\ shr_r mrs = false /\ shr_s mrs = false).
Proof.
  intros Hm Hk. induction k as [|k IH]; [lia|].
  change (Nat.iter (S k) shr_1 mrs) with (shr_1 (Nat.iter k shr_1 mrs)).
  destruct (shr_iter_spec k mrs Hm) as [Hq _].
  assert (Hk0 : 0 <= shr_m (Nat.iter k shr_1 mrs)).
  { rewrite Hq. apply Z.div_pos; [lia|]. apply Z.pow_pos_nonneg; lia. }
  destruct (shr_1_spec _ Hk0) as [_ Hr]. rewrite Hr, shr_1_sticky, Hq.
  assert (Hp : 0 < 2 ^ Z.of_nat k) by (apply Z.pow_pos_nonneg; lia).
  rewrite Nat2Z.inj_succ.
  replace (Z.succ (Z.of_nat k) - 1) with (Z.of_nat k) by lia.
  rewrite Z.pow_succ_r by lia.
  replace (2 * 2 ^ Z.of_nat k) with (2 ^ Z.of_nat k * 2) by lia.
  rewrite Z.rem_mul_r by lia. rewrite Zmod_odd.
  pose proof (Z.mod_pos_bound (shr_m mrs) (2 ^ Z.of_nat k) Hp) as Hb.
  split.
  - intros Hodd. rewrite Hodd. lia.
  - intros Hs. apply orb_false_iff in Hs. destruct Hs as [Hrk Hsk].
    destruct k as [|k].
    + cbn in Hrk, Hsk |- *. rewrite Z.mod_1_r. auto.
    + destruct (IH ltac:(lia)) as [IHr IHs].
      specialize (IHr Hrk). destruct (IHs Hsk) as (Hlow & Hr0 & Hs0).
      split; [|auto].
      set (j := Z.of_nat (S k)) in *.
      assert (Hj : 1 <= j) by (unfold j; lia).
      assert (Hpj : 2 ^ j = 2 ^ (j - 1) * 2).
      { replace j with (Z.succ (j - 1)) at 1 by lia. rewrite Z.pow_succ_r by lia. lia. }
      assert (Hpp : 0 < 2 ^ (j - 1)) by (apply Z.pow_pos_nonneg; lia).
      rewrite Hpj, Z.rem_mul_r in IHr |- * by lia.
      rewrite Hlow in *.
      pose proof (Z.mod_pos_bound (shr_m mrs / 2 ^ (j - 1)) 2 ltac:(lia)) as Hbit.
      revert IHr Hbit Hpp.
      generalize ((shr_m mrs / 2 ^ (j - 1)) mod 2). generalize (2 ^ (j - 1)).
      clear. intros P b H1 H2 H3.
      assert (Hb : b = 0 \/ b = 1) by lia. destruct Hb as [-> | ->]; lia.
Qed.

Lemma shr_low (mrs : shr_record) (e n : Z) :
  0 <= shr_m mrs -> 0 < n ->
  (shr_r (fst (shr mrs e n)) = false -> shr_m mrs mod 2 ^ n < 2 ^ (n - 1)) /\
  (shr_s (fst (shr mrs e n)) = false ->
   shr_m mrs mod 2 ^ (n - 1) = 0 /\ shr_r mrs = false /\ shr_s mrs = false).
Proof.
  intros Hm Hn. destruct n as [|p|p]; try lia. cbn [shr fst].
  rewrite iter_pos_nat.
  pose proof (shr_iter_low (Pos.to_nat p) mrs Hm ltac:(lia)) as H.
  now rewrite positive_nat_Z in H.
Qed.

Lemma record_of_loc_bits (m : Z) (l : location) :
  shr_r (shr_record_of_loc m l) = false ->
  shr_s (shr_record_of_loc m l) = false -> l = loc_Exact.
Proof. destruct l as [|[]]; cbn; congruence. Qed.

Lemma record_of_loc_down (m : Z) (l : location) :
  shr_r (shr_record_of_loc m l) = false \/ shr_s (shr_record_of_loc m l) = false ->
  half_down l = true.
Proof. destruct l as [|[]]; cbn; intros [H|H]; congruence. Qed.

(** Rounding to nearest goes up by one, or stays: then the round bit
    or the sticky bit is clear. *)
Lemma round_nearest_even_down (mrs : shr_record) :
  round_nearest_even (shr_m mrs) (loc_of_shr_record mrs) = shr_m mrs + 1 \/
  (round_nearest_even (shr_m mrs) (loc_of_shr_record mrs) = shr_m mrs /\
   (shr_r mrs = false \/ shr_s mrs = false)).
Proof.
  destruct mrs as [m [|] [|]]; cbn [shr_m shr_r shr_s loc_of_shr_record round_nearest_even];
    auto.
  destruct (Z.even m); auto.
Qed.

(** *** The rounded value against the exact one *)

Section Rounding.

Local Open Scope Q_scope.

Lemma p2_pos (e : Z) : 0 < 2 ^ e.
Proof. apply Qpower_0_lt. reflexivity. Qed.

Lemma p2_add (a b : Z) : 2 ^ (a + b) == 2 ^ a * 2 ^ b.
Proof. apply Qpower_plus. discriminate. Qed.

Lemma p2_Z (k : Z) : (0 <= k)%Z -> inject_Z (2 ^ k) == 2 ^ k.
Proof. intros H. now rewrite Zpower_Qpower. Qed.

Lemma p2_le (a b : Z) : (a <= b)%Z -> 2 ^ a <= 2 ^ b.
Proof. intros H. apply Qpower_le_compat_l; [exact H|discriminate]. Qed.

Lemma p2_half (e : Z) : 2 ^ e == 2 * 2 ^ (e - 1).
Proof.
  replace e with (1 + (e - 1))%Z at 1 by lia. rewrite p2_add. reflexivity.
Qed.

Lemma to_Q_finite (s : bool) (m : positive) (e : Z) :
  F64.to_Q (S754_finite s m e) == inject_Z (F64.signed s m) * 2 ^ e.
Proof.
  unfold F64.to_Q. destruct (Z.leb_spec 0 e) as [He|He].
  - now rewrite inject_Z_mult, p2_Z.
  - rewrite Qmake_Qdiv, Zpos_to_pos_pow2 by lia.
    rewrite p2_Z by lia. rewrite Qpower_opp.
    unfold Qdiv. now rewrite Qinv_involutive.
Qed.

(** Shifting right never increases the value. *)
Lemma shr_exact_le (m e : Z) :
  (0 <= m)%Z ->
  let '(mrs, e') := shr_fexp F64.prec F64.emax m e loc_Exact in
  (0 <= shr_m mrs)%Z /\
  inject_Z (shr_m mrs) * 2 ^ e' <= inject_Z m * 2 ^ e.
Proof.
  intros Hm. unfold shr_fexp.
  set (k := (fexp F64.prec F64.emax (Zdigits2 m + e) - e)%Z).
  assert (Hrec : (0 <= shr_m (shr_record_of_loc m loc_Exact))%Z) by exact Hm.
  destruct (shr_spec (shr_record_of_loc m loc_Exact) e k Hrec) as [H0 H1].
  destruct (Z.leb_spec k 0) as [Hk|Hk].
  - rewrite (H0 Hk). split; [exact Hm|]. apply Qle_refl.
  - destruct (H1 Hk) as (Hq & He & _).
    destruct (shr _ e k) as [mrs e']. cbn [fst snd] in *. subst e'.
    cbn [shr_record_of_loc shr_m] in Hq. rewrite Hq.
    assert (Hp : (0 < 2 ^ k)%Z) by (apply Z.pow_pos_nonneg; lia).
    split; [apply Z.div_pos; lia|].
    rewrite (Z.add_comm e k), p2_add, <- p2_Z by lia.
    rewrite Qmult_assoc, <- inject_Z_mult.
    apply Qmult_le_compat_r; [|apply Qlt_le_weak, p2_pos].
    rewrite <- Zle_Qle.
    pose proof (Z.mul_div_le m (2 ^ k) Hp). lia.
Qed.

Lemma fexp_cases (d : Z) :
  (fexp F64.prec F64.emax d = d - 53 /\ -1074 <= d - 53)%Z \/
  (fexp F64.prec F64.emax d = -1074 /\ d - 53 <= -1074)%Z.
Proof.
  unfold fexp, emin, F64.prec, F64.emax. lia.
Qed.

Lemma half_ulp_normal (mx ex k : Z) (V : Q) :
  (0 <= k)%Z ->
  (2 ^ (52 + k) <= mx)%Z ->
  inject_Z mx * 2 ^ ex <= V ->
  2 ^ (ex + k - 1) <= V * F64.u.
Proof.
  intros Hk Hmx HV. unfold F64.u.
  replace (ex + k - 1)%Z with ((52 + k) + (ex + -53))%Z by lia.
  rewrite (p2_add (52 + k) (ex + -53)), (p2_add ex (-53)), <- (p2_Z (52 + k)) by lia.
  pose proof (p2_pos ex) as Hex. pose proof (p2_pos (-53)) as Hu.
  rewrite Zle_Qle in Hmx.
  set (a := inject_Z (2 ^ (52 + k))) in *. set (b := inject_Z mx) in *.
  set (P := 2 ^ ex) in *. set (U := 2 ^ (-53)) in *.
  assert (a * P <= b * P) by (apply Qmult_le_compat_r; lra).
  assert (a * P * U <= V * U) by (apply Qmult_le_compat_r; lra).
  lra.
Qed.

(** The first shift and the rounding to nearest: the rounded
    significand is above [V] by half a unit at most. *)
Lemma first_stage (mx ex : Z) (lx : location) (V : Q) :
  (0 <= mx)%Z ->
  inject_Z mx * 2 ^ ex <= V ->
  (half_up lx = true -> inject_Z (2 * mx + 1) * 2 ^ (ex - 1) <= V) ->
  (lx = loc_Exact \/ (ex <= fexp F64.prec F64.emax (Zdigits2 mx + ex))%Z) ->
  let '(mrs, e') := shr_fexp F64.prec F64.emax mx ex lx in
  let m'' := round_nearest_even (shr_m mrs) (loc_of_shr_record mrs) in
  (0 <= m'')%Z /\ rounded_up_to V m'' e'.
Proof.
  intros Hmx HV Hhalf Hdig. unfold shr_fexp.
  set (D := (Zdigits2 mx + ex)%Z) in *.
  set (k := (fexp F64.prec F64.emax D - ex)%Z).
  destruct (loc_of_record_of_loc mx lx) as (Hloc & Hm & Hr).
  assert (Hrec : (0 <= shr_m (shr_record_of_loc mx lx))%Z) by (rewrite Hm; exact Hmx).
  destruct (shr_spec (shr_record_of_loc mx lx) ex k Hrec) as [H0 H1].
  destruct (Zdigits2_bounds mx Hmx) as (Hd0 & Hdu & Hdl).
  pose proof (p2_pos ex) as Hex.
  assert (HV0 : 0 <= V).
  { apply Qle_trans with (inject_Z mx * 2 ^ ex); [|exact HV].
    apply Qmult_le_0_compat; [|lra]. now rewrite <- (Zle_Qle 0). }
  assert (Hu : 0 < F64.u) by apply p2_pos.
  destruct (Z.leb_spec k 0) as [Hk|Hk].
  - (* no shift *)
    rewrite (H0 Hk). cbv zeta.
    destruct (round_nearest_even_cases (shr_record_of_loc mx lx)) as [E|[E Eup]];
      rewrite E, Hm.
    + split; [exact Hmx|]. left. nra.
    + split; [lia|]. rewrite Hr in Eup. specialize (Hhalf Eup).
      assert (Hk0 : k = 0%Z).
      { destruct Hdig as [->|Hdig]; [discriminate Eup|]. unfold k. lia. }
      assert (Hval : inject_Z (mx + 1) * 2 ^ ex <= V + 2 ^ (ex - 1)).
      { rewrite (p2_half ex) in *. revert Hhalf.
        rewrite !inject_Z_plus, inject_Z_mult.
        set (b := inject_Z mx). set (h := 2 ^ (ex - 1)).
        change (inject_Z 2) with 2. change (inject_Z 1) with 1. intros. lra. }
      destruct (fexp_cases D) as [[Hf Hn]|[Hf Hs]].
      * left. assert (Hm52 : (2 ^ (52 + 0) <= mx)%Z).
        { assert (Zdigits2 mx = 53%Z) by (unfold k, D in *; lia).
          assert (0 < mx)%Z by (destruct mx; cbn in *; lia).
          specialize (Hdl ltac:(assumption)).
          replace (Zdigits2 mx - 1)%Z with 52%Z in Hdl by lia. exact Hdl. }
        pose proof (half_ulp_normal mx ex 0 V ltac:(lia) Hm52 HV) as Hh.
        replace (ex + 0 - 1)%Z with (ex - 1)%Z in Hh by lia. lra.
      * right. assert (Hex' : ex = (-1074)%Z) by (unfold k in *; lia).
        split.
        -- subst ex. exact Hval.
        -- assert (Hmx53 : (mx + 1 <= 2 ^ 53)%Z).
           { assert (Zdigits2 mx <= 53)%Z by (unfold D in *; lia).
             assert (2 ^ Zdigits2 mx <= 2 ^ 53)%Z by (apply Z.pow_le_mono_r; lia).
             lia. }
           rewrite Zle_Qle in Hmx53. rewrite p2_Z in Hmx53 by lia.
           subst ex. change (2 ^ (-1021)) with (2 ^ (53 + -1074)).
           rewrite p2_add.
           apply Qmult_le_compat_r; [exact Hmx53|lra].
  - (* a shift by [k] bits *)
    destruct (H1 Hk) as (Hq & He & Hbit).
    destruct (shr _ ex k) as [mrs e']. cbn [fst snd] in *. subst e'. cbv zeta.
    rewrite Hm in Hq, Hbit.
    assert (Hp : (0 < 2 ^ k)%Z) by (apply Z.pow_pos_nonneg; lia).
    assert (Hm' : (0 <= shr_m mrs)%Z) by (rewrite Hq; apply Z.div_pos; lia).
    pose proof (Z.div_mod mx (2 ^ k) ltac:(lia)) as Hdm.
    pose proof (Z.mod_pos_bound mx (2 ^ k) Hp) as Hmod.
    rewrite <- Hq in Hdm.
    assert (Hshift : forall a : Z, inject_Z a * 2 ^ (ex + k) == inject_Z (a * 2 ^ k) * 2 ^ ex).
    { intros a. rewrite (Z.add_comm ex k), p2_add, inject_Z_mult, p2_Z by lia. ring. }
    destruct (round_nearest_even_cases mrs) as [E|[E Eup]]; rewrite E.
    + split; [exact Hm'|]. left. rewrite Hshift.
      assert (inject_Z (shr_m mrs * 2 ^ k) <= inject_Z mx) by (rewrite <- Zle_Qle; lia).
      assert (inject_Z (shr_m mrs * 2 ^ k) * 2 ^ ex <= inject_Z mx * 2 ^ ex)
        by (apply Qmult_le_compat_r; lra).
      nra.
    + split; [lia|]. specialize (Hbit Eup).
      assert (Hpk : (2 ^ k = 2 * 2 ^ (k - 1))%Z).
      { replace k with (Z.succ (k - 1)) at 1 by lia. apply Z.pow_succ_r. lia. }
      assert (Hz : ((shr_m mrs + 1) * 2 ^ k <= mx + 2 ^ (k - 1))%Z) by lia.
      assert (Hval : inject_Z (shr_m mrs + 1) * 2 ^ (ex + k) <= V + 2 ^ (ex + k - 1)).
      { rewrite Hshift. rewrite Zle_Qle in Hz.
        rewrite inject_Z_plus, p2_Z in Hz by lia.
        replace (ex + k - 1)%Z with ((k - 1) + ex)%Z by lia. rewrite p2_add.
        assert (inject_Z ((shr_m mrs + 1) * 2 ^ k) * 2 ^ ex
                <= (inject_Z mx + 2 ^ (k - 1)) * 2 ^ ex)
          by (apply Qmult_le_compat_r; lra).
        lra. }
      destruct (fexp_cases D) as [[Hf Hn]|[Hf Hs]].
      * left. assert (Hm52 : (2 ^ (52 + k) <= mx)%Z).
        { assert (Zdigits2 mx = 53 + k)%Z by (unfold k, D in *; lia).
          assert (0 < mx)%Z by (destruct mx; cbn in *; lia).
          specialize (Hdl ltac:(assumption)).
          replace (Zdigits2 mx - 1)%Z with (52 + k)%Z in Hdl by lia. exact Hdl. }
        pose proof (half_ulp_normal mx ex k V ltac:(lia) Hm52 HV) as Hh. lra.
      * right. assert (Hex' : (ex + k)%Z = (-1074)%Z) by (unfold k in *; lia).
        rewrite Hex' in *. split; [exact Hval|].
        assert (Hmx53 : (shr_m mrs + 1 <= 2 ^ 53)%Z).
        { assert (Zdigits2 mx <= 53 + k)%Z by (unfold D in *; lia).
          assert (2 ^ Zdigits2 mx <= 2 ^ (53 + k))%Z by (apply Z.pow_le_mono_r; lia).
          rewrite Z.pow_add_r in * by lia. nia. }
        rewrite Zle_Qle in Hmx53. rewrite p2_Z in Hmx53 by lia.
        change (2 ^ (-1021)) with (2 ^ (53 + -1074)).
        rewrite p2_add.
        apply Qmult_le_compat_r; [exact Hmx53|apply Qlt_le_weak, p2_pos].
Qed.

Lemma upper_rounded_zero (V : Q) (s : bool) : 0 <= V -> upper_rounded V (S754_zero s).
Proof.
  intros HV. left. cbn [F64.to_Q]. assert (0 < F64.u) by apply p2_pos. nra.
Qed.

(** [binary_round_aux] on a value [V] located by [mx], [ex] and [lx]. *)
Lemma round_aux_upper (mx ex : Z) (lx : location) (V : Q) :
  (0 <= mx)%Z ->
  inject_Z mx * 2 ^ ex <= V ->
  (half_up lx = true -> inject_Z (2 * mx + 1) * 2 ^ (ex - 1) <= V) ->
  (lx = loc_Exact \/ (ex <= fexp F64.prec F64.emax (Zdigits2 mx + ex))%Z) ->
  let r := binary_round_aux F64.prec F64.emax false mx ex lx in
  (F64.nonneg r = true \/ r = S754_infinity false) /\
  (F64.nonneg r = true -> upper_rounded V r).
Proof.
  intros Hmx HV Hhalf Hdig. unfold binary_round_aux.
  pose proof (first_stage mx ex lx V Hmx HV Hhalf Hdig) as H1.
  destruct (shr_fexp F64.prec F64.emax mx ex lx) as [mrs' e'].
  cbv zeta in H1. destruct H1 as [Hm'' Hup].
  set (m'' := round_nearest_even (shr_m mrs') (loc_of_shr_record mrs')) in *.
  pose proof (shr_exact_le m'' e' Hm'') as H2.
  destruct (shr_fexp F64.prec F64.emax m'' e' loc_Exact) as [mrs'' e''].
  destruct H2 as [Hm3 Hle]. cbv zeta.
  assert (HV0 : 0 <= V).
  { apply Qle_trans with (inject_Z mx * 2 ^ ex); [|exact HV].
    apply Qmult_le_0_compat; [now rewrite <- (Zle_Qle 0)|apply Qlt_le_weak, p2_pos]. }
  destruct (shr_m mrs'') as [|m|m] eqn:Em; [| |lia].
  - split; [now left|]. intros _. now apply upper_rounded_zero.
  - destruct (e'' <=? F64.emax - F64.prec)%Z; [|split; [now right|discriminate]].
    split; [now left|]. intros _. unfold upper_rounded.
    rewrite to_Q_finite. change (F64.signed false m) with (Z.pos m).
    destruct Hup as [Hup|[Hup1 Hup2]]; [left|right; split]; lra.
Qed.

(** The product of two non-negative floats. *)
Lemma mul_upper (x y : float) :
  F64.nonneg x = true -> F64.nonneg y = true ->
  (F64.nonneg (F64.mul x y) = true \/ F64.mul x y = S754_infinity false) /\
  (F64.nonneg (F64.mul x y) = true -> upper_rounded (F64.to_Q x * F64.to_Q y) (F64.mul x y)).
Proof.
  destruct x as [sx|sx| |[|] mx ex]; try discriminate;
    destruct y as [sy|sy| |[|] my ey]; try discriminate; intros _ _;
    cbn [F64.mul SFmul xorb];
    try (split; [now left|]; intros _; apply upper_rounded_zero;
         cbn [F64.to_Q]; lra).
  - unfold F64.mul, SFmul. cbn [xorb].
    apply round_aux_upper; [lia| |discriminate|now left].
    rewrite !to_Q_finite. change (F64.signed false ?m) with (Z.pos m).
    rewrite Pos2Z.inj_mul, inject_Z_mult, p2_add.
    apply Qle_lteq. right. ring.
Qed.

Lemma shl_align_value (mx : positive) (ex ex' : Z) :
  inject_Z (Z.pos (fst (shl_align mx ex ex'))) * 2 ^ snd (shl_align mx ex ex')
  == inject_Z (Z.pos mx) * 2 ^ ex.
Proof.
  unfold shl_align. destruct (ex' - ex)%Z as [|d|d] eqn:E; cbn [fst snd];
    try reflexivity.
  change (Pos.iter xO mx d) with (shift_pos d mx).
  rewrite shift_pos_correct. change (Z.pow_pos 2 d) with (2 ^ Z.pos d)%Z.
  rewrite inject_Z_mult, p2_Z by lia.
  assert (Hex : ex = (Z.pos d + ex')%Z) by lia.
  rewrite Hex, p2_add. ring.
Qed.

(** The conversion of a non-negative [int]. *)
Lemma of_int_upper (n : Z) (f : float) :
  (0 <= n)%Z ->
  F64.of_int n = Ok f ->
  F64.nonneg f = true /\ upper_rounded (inject_Z n) f.
Proof.
  intros Hn. unfold F64.of_int, binary_normalize.
  destruct n as [|m|m]; [| |lia].
  - intros [= <-]. split; [reflexivity|]. apply upper_rounded_zero. apply Qle_refl.
  - unfold binary_round.
    pose proof (shl_align_value m 0 (fexp F64.prec F64.emax (Z.pos (digits2_pos m) + 0))) as Hal.
    destruct (shl_align m 0 _) as [mz ez]. cbn [fst snd] in Hal.
    assert (HV : inject_Z (Z.pos mz) * 2 ^ ez <= inject_Z (Z.pos m)).
    { rewrite Hal. change (2 ^ 0) with 1. apply Qle_lteq. right. ring. }
    destruct (round_aux_upper (Z.pos mz) ez loc_Exact (inject_Z (Z.pos m))
                ltac:(lia) HV ltac:(discriminate) ltac:(now left)) as [Hs Hup].
    destruct Hs as [Hs| ->]; [|discriminate].
    destruct (binary_round_aux _ _ _ _ _ _); try discriminate;
      intros [= <-]; auto.
Qed.

Lemma new_location_half_up (m2 r : Z) :
  half_up (new_location m2 r) = true -> (m2 <= 2 * r)%Z.
Proof.
  unfold new_location, new_location_even, new_location_odd.
  destruct (Z.even m2); destruct (Z.eqb_spec r 0); try discriminate.
  - destruct (Z.compare_spec (2 * r) m2); try discriminate; lia.
  - destruct (Z.compare_spec (2 * r + 1) m2); try discriminate; lia.
Qed.

Lemma fexp_ge_emin (d : Z) : (-1074 <= fexp F64.prec F64.emax d)%Z.
Proof. destruct (fexp_cases d); lia. Qed.

Lemma fexp_mono (a b : Z) :
  (a <= b)%Z -> (fexp F64.prec F64.emax a <= fexp F64.prec F64.emax b)%Z.
Proof. destruct (fexp_cases a), (fexp_cases b); lia. Qed.

Lemma new_location_exact (m2 r : Z) : new_location m2 r = loc_Exact -> r = 0%Z.
Proof.
  unfold new_location, new_location_even, new_location_odd.
  destruct (Z.even m2); destruct (Z.eqb_spec r 0); try discriminate; auto.
Qed.

Lemma new_location_half_down (m2 r : Z) :
  (0 <= m2)%Z -> half_down (new_location m2 r) = true -> (2 * r <= m2)%Z.
Proof.
  intros Hm. unfold new_location, new_location_even, new_location_odd.
  destruct (Z.even m2); destruct (Z.eqb_spec r 0); try (intros _; lia).
  - destruct (Z.compare_spec (2 * r) m2); try discriminate; intros _; lia.
  - destruct (Z.compare_spec (2 * r + 1) m2); try discriminate; intros _; lia.
Qed.

(** The quotient of two positive significands is the rounding of a
    located value: the significand [q] at the exponent [e'], below the
    exact quotient [V] and less than one unit away from it. *)
Lemma div_located (m1 : positive) (e1 : Z) (m2 : positive) (e2 : Z) :
  let V := (inject_Z (Z.pos m1) * 2 ^ e1) / (inject_Z (Z.pos m2) * 2 ^ e2) in
  exists (q e' : Z) (lx : location),
    SFdiv F64.prec F64.emax (S754_finite false m1 e1) (S754_finite false m2 e2)
    = binary_round_aux F64.prec F64.emax false q e' lx /\
    (0 <= q)%Z /\
    inject_Z q * 2 ^ e' <= V /\
    (half_up lx = true -> inject_Z (2 * q + 1) * 2 ^ (e' - 1) <= V) /\
    (lx = loc_Exact \/ (e' <= fexp F64.prec F64.emax (Zdigits2 q + e'))%Z) /\
    V <= inject_Z (q + 1) * 2 ^ e' /\
    (lx = loc_Exact -> V <= inject_Z q * 2 ^ e') /\
    (half_down lx = true -> V <= inject_Z (2 * q + 1) * 2 ^ (e' - 1)).
Proof.
  cbv zeta. unfold SFdiv, SFdiv_core_binary. cbn [xorb].
  set (d1 := Zdigits2 (Z.pos m1)). set (d2 := Zdigits2 (Z.pos m2)).
  set (E := (d1 + e1 - (d2 + e2))%Z).
  set (e' := Z.min (fexp F64.prec F64.emax E) (e1 - e2)).
  set (s := (e1 - e2 - e')%Z).
  assert (Hs : (0 <= s)%Z) by (unfold s, e'; lia).
  set (m' := match s with
             | Z.pos _ => Z.shiftl (Z.pos m1) s
             | 0%Z => Z.pos m1
             | Z.neg _ => 0%Z
             end).
  assert (Hm' : m' = (Z.pos m1 * 2 ^ s)%Z).
  { unfold m'. destruct s as [|p|p] eqn:Es; [cbn; lia| |lia].
    now rewrite Z.shiftl_mul_pow2. }
  pose proof (Z_div_mod m' (Z.pos m2) ltac:(lia)) as Hdiv.
  destruct (Z.div_eucl m' (Z.pos m2)) as [q r]. destruct Hdiv as [Hqr Hr].
  assert (Hps : (0 < 2 ^ s)%Z) by (apply Z.pow_pos_nonneg; lia).
  assert (Hq : (0 <= q)%Z) by nia.
  pose proof (p2_pos e') as He'. pose proof (p2_pos e2) as He2.
  pose proof (p2_pos e1) as He1.
  assert (Hm2 : 0 < inject_Z (Z.pos m2)) by (rewrite <- (Zlt_Qlt 0); lia).
  set (V := inject_Z (Z.pos m1) * 2 ^ e1 / (inject_Z (Z.pos m2) * 2 ^ e2)).
  assert (HV : V * inject_Z (Z.pos m2) == inject_Z (q * Z.pos m2 + r) * 2 ^ e').
  { replace (q * Z.pos m2 + r)%Z with m' by lia. rewrite Hm'.
    rewrite inject_Z_mult, p2_Z by lia. unfold V.
    replace e1 with (s + e' + e2)%Z at 1 by (unfold s; lia).
    rewrite !p2_add. field. split; lra. }
  rewrite inject_Z_plus, inject_Z_mult in HV.
  assert (Hr0 : 0 <= inject_Z r) by (rewrite <- (Zle_Qle 0); lia).
  exists q, e', (new_location (Z.pos m2) r).
  assert (Hrm : inject_Z r <= inject_Z (Z.pos m2)) by (rewrite <- Zle_Qle; lia).
  split; [reflexivity|]. split; [exact Hq|]. split; [|split; [|split; [|split; [|split]]]].
  - apply Qmult_le_r with (inject_Z (Z.pos m2)); [exact Hm2|].
    rewrite HV. nra.
  - intros Hup. apply new_location_half_up in Hup.
    rewrite Zle_Qle, inject_Z_mult in Hup. change (inject_Z 2) with 2 in Hup.
    apply Qmult_le_r with (inject_Z (Z.pos m2)); [exact Hm2|].
    rewrite HV, (p2_half e'), inject_Z_plus, inject_Z_mult.
    change (inject_Z 2) with 2. change (inject_Z 1) with 1.
    pose proof (p2_pos (e' - 1)). nra.
  - right.
    destruct (Z.leb_spec e' (-1074)) as [Hlow|Hhigh].
    { pose proof (fexp_ge_emin (Zdigits2 q + e')). lia. }
    assert (HfE : (fexp F64.prec F64.emax E = E - 53)%Z).
    { destruct (fexp_cases E) as [[? ?]|[? ?]]; [assumption|unfold e' in Hhigh; lia]. }
    assert (He'E : (e' <= E - 53)%Z) by (unfold e'; lia).
    set (t := (d1 - d2 + s - 1)%Z).
    assert (Ht : (52 <= t)%Z) by (unfold t, s, E in *; lia).
    destruct (Zdigits2_bounds (Z.pos m1) ltac:(lia)) as (_ & _ & Hl1).
    destruct (Zdigits2_bounds (Z.pos m2) ltac:(lia)) as (Hd2 & Hu2 & _).
    destruct (Zdigits2_bounds q Hq) as (_ & Huq & _).
    specialize (Hl1 ltac:(lia)). fold d1 in Hl1. fold d2 in Hu2, Hd2.
    assert (Hd1 : (1 <= d1)%Z) by (unfold d1; cbn [Zdigits2]; lia).
    assert (Hqt : (2 ^ t <= q)%Z).
    { assert (Hpow : (2 ^ (d1 - 1) * 2 ^ s = 2 ^ t * 2 ^ d2)%Z).
      { rewrite <- !Z.pow_add_r by (unfold t in *; lia). f_equal. unfold t. lia. }
      assert (Htp : (0 < 2 ^ t)%Z) by (apply Z.pow_pos_nonneg; lia).
      assert (Hlow' : (2 ^ t * Z.pos m2 <= m')%Z).
      { rewrite Hm'.
        assert (2 ^ t * Z.pos m2 <= 2 ^ t * 2 ^ d2)%Z
          by (apply Z.mul_le_mono_nonneg_l; lia).
        assert (2 ^ (d1 - 1) * 2 ^ s <= Z.pos m1 * 2 ^ s)%Z
          by (apply Z.mul_le_mono_nonneg_r; lia).
        lia. }
      assert (Hge : (2 ^ t <= m' / Z.pos m2)%Z)
        by (apply Z.div_le_lower_bound; lia).
      assert (m' / Z.pos m2 = q)%Z
        by (symmetry; apply Z.div_unique with r; lia).
      lia. }
    assert (Hdq : (t < Zdigits2 q)%Z).
    { apply (Z.pow_lt_mono_r_iff 2); [lia| |lia].
      destruct (Zdigits2_bounds q Hq); lia. }
    pose proof (fexp_mono E (Zdigits2 q + e') ltac:(unfold t, s, E in *; lia)).
    lia.
  - apply Qmult_le_r with (inject_Z (Z.pos m2)); [exact Hm2|].
    rewrite HV, inject_Z_plus. change (inject_Z 1) with 1. nra.
  - intros Hx. apply new_location_exact in Hx. subst r.
    apply Qmult_le_r with (inject_Z (Z.pos m2)); [exact Hm2|].
    rewrite HV. change (inject_Z 0) with 0. nra.
  - intros Hdn. apply new_location_half_down in Hdn; [|lia].
    rewrite Zle_Qle, inject_Z_mult in Hdn. change (inject_Z 2) with 2 in Hdn.
    apply Qmult_le_r with (inject_Z (Z.pos m2)); [exact Hm2|].
    rewrite HV, (p2_half e'), inject_Z_plus, inject_Z_mult.
    change (inject_Z 2) with 2. change (inject_Z 1) with 1.
    pose proof (p2_pos (e' - 1)). nra.
Qed.



(** The quotient of two positive significands, as [SFdiv] rounds it. *)
Lemma div_upper (m1 : positive) (e1 : Z) (m2 : positive) (e2 : Z) :
  let r := SFdiv F64.prec F64.emax (S754_finite false m1 e1) (S754_finite false m2 e2) in
  let V := (inject_Z (Z.pos m1) * 2 ^ e1) / (inject_Z (Z.pos m2) * 2 ^ e2) in
  (F64.nonneg r = true \/ r = S754_infinity false) /\
  (F64.nonneg r = true -> upper_rounded V r).
Proof.
  cbv zeta.
  destruct (div_located m1 e1 m2 e2) as (q & e' & lx & -> & Hq & HV & Hh & Hd & _).
  now apply round_aux_upper.
Qed.

Lemma u_pos : 0 < F64.u.
Proof. apply p2_pos. Qed.

Lemma eta_pos : 0 < F64.eta.
Proof. apply p2_pos. Qed.

Lemma eta_le_u : F64.eta <= F64.u.
Proof. apply p2_le. lia. Qed.

Lemma nonneg_to_Q (x : float) : F64.nonneg x = true -> 0 <= F64.to_Q x.
Proof.
  destruct x as [s|s| |[|] m e]; try discriminate; intros _.
  rewrite to_Q_finite. apply Qmult_le_0_compat;
    [now rewrite <- (Zle_Qle 0)|apply Qlt_le_weak, p2_pos].
Qed.

(** Both cases of [upper_rounded] at once. *)
Lemma upper_rounded_sum (V : Q) (r : float) :
  0 <= V -> upper_rounded V r -> F64.to_Q r <= V * (1 + F64.u) + F64.eta.
Proof.
  intros HV [H|[H _]]; pose proof u_pos; pose proof eta_pos; nra.
Qed.

(** A value that is at least one is rounded with a relative error. *)
Lemma upper_rounded_ge_1 (V : Q) (r : float) :
  1 <= V -> upper_rounded V r -> F64.to_Q r <= V * (1 + F64.u).
Proof.
  intros HV [H|[H _]]; [exact H|].
  pose proof eta_le_u. pose proof u_pos. nra.
Qed.

Lemma upper_rounded_le (V V' : Q) (r : float) :
  V <= V' -> upper_rounded V r -> upper_rounded V' r.
Proof.
  intros HV [H|[H H']]; [left|right; split]; pose proof u_pos; try nra.
Qed.

Lemma floor_nonneg (x : float) (n : Z) :
  F64.nonneg x = true -> F64.floor x = Ok n -> (0 <= n)%Z.
Proof.
  intros Hx Hn. destruct (floor_spec x n Hn) as [_ Hlt].
  pose proof (nonneg_to_Q x Hx) as H0.
  assert (H : 0 < inject_Z (n + 1)) by lra.
  rewrite <- (Zlt_Qlt 0) in H. lia.
Qed.

Lemma floor_tiny (x : float) (n : Z) :
  F64.nonneg x = true -> F64.to_Q x <= 2 ^ (-1021) -> F64.floor x = Ok n -> n = 0%Z.
Proof.
  intros Hx Hs Hn. pose proof (floor_nonneg x n Hx Hn).
  destruct (floor_spec x n Hn) as [Hle _].
  assert (Hlt : 2 ^ (-1021) < 1) by reflexivity.
  assert (H1 : inject_Z n < inject_Z 1) by (change (inject_Z 1) with 1; lra).
  rewrite <- Zlt_Qlt in H1. lia.
Qed.

(** The quotient of two [int]s. *)
Lemma int_truediv_upper (n b : Z) (r : float) :
  (0 <= n)%Z -> (0 < b)%Z ->
  F64.int_truediv n b = Ok r ->
  F64.nonneg r = true /\ upper_rounded (inject_Z n / inject_Z b) r.
Proof.
  intros Hn Hb. unfold F64.int_truediv.
  destruct b as [|pb|pb]; try lia.
  destruct n as [|pn|pn]; try lia; unfold Z.abs; cbv iota.
  - intros [= <-]. split; [reflexivity|]. apply upper_rounded_zero.
    unfold Qdiv. rewrite Qmult_0_l. apply Qle_refl.
  - change (Z.pos pn <? 0)%Z with false. change (Z.pos pb <? 0)%Z with false.
    pose proof (div_upper pn 0 pb 0) as [Hs Hup]. cbv zeta in *.
    assert (HV : inject_Z (Z.pos pn) * 2 ^ 0 / (inject_Z (Z.pos pb) * 2 ^ 0)
                 <= inject_Z (Z.pos pn) / inject_Z (Z.pos pb)).
    { change (2 ^ 0) with 1. rewrite !Qmult_1_r. apply Qle_refl. }
    destruct Hs as [Hs|Hs]; [|rewrite Hs; discriminate].
    specialize (Hup Hs). apply (upper_rounded_le _ _ _ HV) in Hup.
    destruct (SFdiv _ _ _ _); try discriminate; intros [= <-]; auto.
Qed.

Lemma pow10_ge_1 (d : nat) : (1 <= 10 ^ Z.of_nat d)%Z.
Proof.
  assert (0 < 10 ^ Z.of_nat d)%Z by (apply Z.pow_pos_nonneg; lia). lia.
Qed.

(** [truncate] on a non-negative number: the result exceeds the
    argument by three roundings at most. *)
Lemma truncate_upper (x : float) (d : nat) (r : float) :
  F64.nonneg x = true ->
  truncate x d = Ok r ->
  F64.nonneg r = true /\
  F64.to_Q r <= F64.to_Q x * (1 + F64.u) * (1 + F64.u) * (1 + F64.u) + F64.eta.
Proof.
  intros Hx H. unfold truncate in H.
  destruct (F64.of_int (10 ^ Z.of_nat d)) as [f|] eqn:Hf; [|discriminate].
  cbn [rbind] in H.
  change (match F64.floor (F64.mul x f) with
          | Ok n => F64.int_truediv n (10 ^ Z.of_nat d)
          | Raise e => Raise e
          end = Ok r) in H.
  destruct (F64.floor (F64.mul x f)) as [n|] eqn:Hn; [|discriminate].
  pose proof (pow10_ge_1 d) as Hten.
  assert (Hten0 : (0 <= 10 ^ Z.of_nat d)%Z) by (apply Z.lt_le_incl, Z.pow_pos_nonneg; lia).
  destruct (of_int_upper _ f Hten0 Hf) as [Hfn Hfu].
  apply upper_rounded_ge_1 in Hfu; [|rewrite <- (Zle_Qle 1); exact Hten].
  destruct (mul_upper x f Hx Hfn) as [Hps Hpu].
  destruct Hps as [Hps|Hps]; [|rewrite Hps in Hn; discriminate].
  specialize (Hpu Hps).
  pose proof (floor_nonneg _ _ Hps Hn) as Hn0.
  assert (Hten1 : (0 < 10 ^ Z.of_nat d)%Z) by (apply Z.pow_pos_nonneg; lia).
  destruct (int_truediv_upper n _ r Hn0 Hten1 H) as [Hr Hru].
  split; [exact Hr|].
  pose proof (nonneg_to_Q x Hx) as HX. pose proof (nonneg_to_Q f Hfn) as HF.
  pose proof u_pos as Hu. pose proof eta_pos as He.
  destruct (floor_spec _ _ Hn) as [Hle _].
  set (T := inject_Z (10 ^ Z.of_nat d)) in *.
  assert (HT : 1 <= T) by (unfold T; rewrite <- (Zle_Qle 1); exact Hten).
  assert (HV : inject_Z n / T <= F64.to_Q x * (1 + F64.u) * (1 + F64.u)).
  { destruct Hpu as [Hpu|[_ Hpu]].
    - apply Qle_shift_div_r; [lra|].
      assert (H1 : F64.to_Q f * F64.to_Q x <= T * (1 + F64.u) * F64.to_Q x)
        by (apply Qmult_le_compat_r; lra).
      assert (H2 : F64.to_Q f * F64.to_Q x * (1 + F64.u)
                   <= T * (1 + F64.u) * F64.to_Q x * (1 + F64.u))
        by (apply Qmult_le_compat_r; lra).
      lra.
    - rewrite (floor_tiny _ _ Hps Hpu Hn). unfold Qdiv. rewrite Qmult_0_l. nra. }
  assert (HV0 : 0 <= inject_Z n / T).
  { apply Qle_shift_div_l; [lra|]. rewrite Qmult_0_l, <- (Zle_Qle 0). exact Hn0. }
  pose proof (upper_rounded_sum _ _ HV0 Hru). nra.
Qed.

Lemma positive_to_Q (x : float) : F64.positive_finite x = true -> 0 < F64.to_Q x.
Proof.
  destruct x as [s|s| |[|] m e]; try discriminate; intros _.
  rewrite to_Q_finite.
  apply Qmult_lt_0_compat; [now rewrite <- (Zlt_Qlt 0)|apply p2_pos].
Qed.

(** The quotient of a non-negative float by a positive one. *)
Lemma truediv_upper (q s t : float) :
  F64.nonneg q = true -> F64.positive_finite s = true ->
  F64.truediv q s = Ok t ->
  (F64.nonneg t = true \/ t = S754_infinity false) /\
  (F64.nonneg t = true -> upper_rounded (F64.to_Q q / F64.to_Q s) t).
Proof.
  intros Hq Hs. pose proof (positive_to_Q s Hs) as HS.
  destruct s as [ss|ss| |[|] ms es]; try discriminate.
  unfold F64.truediv. cbn [F64.is_zero]. intros [= <-].
  destruct q as [sq|sq| |[|] mq eq]; try discriminate.
  - cbn [SFdiv]. split; [now left|]. intros _. apply upper_rounded_zero.
    cbn [F64.to_Q]. unfold Qdiv. rewrite Qmult_0_l. apply Qle_refl.
  - pose proof (div_upper mq eq ms es) as [H1 H2]. cbv zeta in *.
    split; [exact H1|]. intros Hn. specialize (H2 Hn).
    revert H2. apply upper_rounded_le.
    rewrite !to_Q_finite. apply Qle_refl.
Qed.

(** The product that [round_step_size] rounds last lies within two
    roundings of the quantity. *)
Lemma step_product_bound (q s t f : float) (n : Z) :
  F64.nonneg q = true -> F64.positive_finite s = true ->
  F64.truediv q s = Ok t -> F64.nonneg t = true ->
  F64.floor t = Ok n -> F64.of_int n = Ok f ->
  F64.nonneg f = true /\
  F64.to_Q f * F64.to_Q s <= F64.to_Q q * (1 + F64.u) * (1 + F64.u).
Proof.
  intros Hq Hs Ht Hts Hn Hf.
  destruct (truediv_upper q s t Hq Hs Ht) as [_ Htu]. specialize (Htu Hts).
  pose proof (floor_nonneg _ _ Hts Hn) as Hn0.
  destruct (of_int_upper n f Hn0 Hf) as [Hfn Hfu].
  split; [exact Hfn|].
  pose proof (nonneg_to_Q q Hq) as HQ. pose proof (positive_to_Q s Hs) as HS.
  pose proof (nonneg_to_Q f Hfn) as HF.
  pose proof u_pos as Hu. pose proof eta_pos as He.
  destruct (floor_spec _ _ Hn) as [Hle _].
  destruct (Z.eq_dec n 0%Z) as [->|Hnz].
  - injection Hf as <-. cbn [F64.to_Q]. nra.
  - assert (Hn1 : 1 <= inject_Z n) by (rewrite <- (Zle_Qle 1); lia).
    apply upper_rounded_ge_1 in Hfu; [|exact Hn1].
    destruct Htu as [Htu|[_ Htu]].
    + assert (H1 : inject_Z n * F64.to_Q s <= F64.to_Q q * (1 + F64.u)).
      { apply Qle_trans with (F64.to_Q q / F64.to_Q s * (1 + F64.u) * F64.to_Q s).
        - apply Qmult_le_compat_r; lra.
        - apply Qle_lteq. right. field. lra. }
      assert (H2 : F64.to_Q f * F64.to_Q s <= inject_Z n * (1 + F64.u) * F64.to_Q s)
        by (apply Qmult_le_compat_r; lra).
      assert (H3 : inject_Z n * F64.to_Q s * (1 + F64.u)
                   <= F64.to_Q q * (1 + F64.u) * (1 + F64.u))
        by (apply Qmult_le_compat_r; lra).
      lra.
    + exfalso. apply Hnz. exact (floor_tiny _ _ Hts Htu Hn).
Qed.

(** [round_step_size] on a non-negative quantity and a positive step:
    the result, when finite, exceeds the quantity by three roundings at
    most. *)
Lemma round_step_size_upper (q s r : float) :
  F64.nonneg q = true -> F64.positive_finite s = true ->
  round_step_size q s = Ok r ->
  r = S754_infinity false \/
  (F64.nonneg r = true /\
   F64.to_Q r <= F64.to_Q q * (1 + F64.u) * (1 + F64.u) * (1 + F64.u) + F64.eta).
Proof.
  intros Hq Hs H. unfold round_step_size in H.
  destruct (F64.truediv q s) as [t|] eqn:Ht; [|discriminate].
  change (match F64.floor t with
          | Ok n => match F64.of_int n with
                    | Ok f => Ok (F64.mul f s)
                    | Raise e => Raise e
                    end
          | Raise e => Raise e
          end = Ok r) in H.
  destruct (F64.floor t) as [n|] eqn:Hn; [|discriminate].
  destruct (F64.of_int n) as [f|] eqn:Hf; [|discriminate].
  injection H as <-.
  destruct (truediv_upper q s t Hq Hs Ht) as [Hts _].
  destruct Hts as [Hts|Hts]; [|rewrite Hts in Hn; discriminate].
  destruct (step_product_bound q s t f n Hq Hs Ht Hts Hn Hf) as [Hfn HFS].
  assert (Hsn : F64.nonneg s = true) by (destruct s as [| | |[|]]; auto).
  destruct (mul_upper f s Hfn Hsn) as [Hrs Hru].
  destruct Hrs as [Hrs|Hrs]; [right|now left].
  split; [exact Hrs|]. specialize (Hru Hrs).
  pose proof (nonneg_to_Q q Hq) as HQ. pose proof (positive_to_Q s Hs) as HS.
  pose proof (nonneg_to_Q f Hfn) as HF.
  pose proof u_pos as Hu. pose proof eta_pos as He.
  assert (HFS0 : 0 <= F64.to_Q f * F64.to_Q s) by (apply Qmult_le_0_compat; lra).
  pose proof (upper_rounded_sum _ _ HFS0 Hru) as Hsum.
  assert (H4 : F64.to_Q f * F64.to_Q s * (1 + F64.u)
               <= F64.to_Q q * (1 + F64.u) * (1 + F64.u) * (1 + F64.u))
    by (apply Qmult_le_compat_r; lra).
  lra.
Qed.

(** The cleanup rounding of a positive quantity: the result exceeds the
    quantity by half a unit of the last kept digit and one rounding at
    most. *)
Lemma round_upper (m : positive) (e : Z) (d : nat) (r : float) :
  F64.round (S754_finite false m e) d = Ok r ->
  F64.nonneg r = true /\
  F64.to_Q r
  <= (F64.to_Q (S754_finite false m e) + (1 # 2) / inject_Z (10 ^ Z.of_nat d))
     * (1 + F64.u) + F64.eta.
Proof.
  cbn [F64.round]. unfold F64.of_decimal.
  pose proof (scaled_digits_spec m e d) as Hspec.
  apply Qabs_Qle_condition in Hspec. destruct Hspec as [_ Hspec].
  unfold scaled in Hspec.
  set (X := F64.to_Q (S754_finite false m e)) in *.
  assert (HX : 0 <= X) by (apply (nonneg_to_Q (S754_finite false m e)); reflexivity).
  assert (Hten : (0 < 10 ^ Z.of_nat d)%Z) by (apply Z.pow_pos_nonneg; lia).
  set (T := inject_Z (10 ^ Z.of_nat d)) in *.
  assert (HT : 0 < T) by (unfold T; now rewrite <- (Zlt_Qlt 0)).
  pose proof u_pos as Hu. pose proof eta_pos as He.
  assert (Hhalf : 0 <= (1 # 2) / T) by (apply Qle_shift_div_l; lra).
  assert (Hzero : forall s, F64.nonneg (S754_zero s) = true /\
            F64.to_Q (S754_zero s) <= (X + (1 # 2) / T) * (1 + F64.u) + F64.eta).
  { intros s. split; [reflexivity|]. cbn [F64.to_Q]. nra. }
  destruct (F64.scaled_digits m e d) as [|n|n] eqn:EN;
    try (intros [= <-]; apply Hzero).
  pose proof (div_upper n 0 (Z.to_pos (10 ^ Z.of_nat d)) 0) as [H1 H2].
  cbv zeta in *. rewrite Z2Pos.id in H2 by exact Hten. fold T in H2.
  destruct H1 as [H1|H1]; [|rewrite H1; discriminate].
  specialize (H2 H1).
  destruct (SFdiv _ _ _ _) as [s0|s0| |s0 m0 e0] eqn:ES; try discriminate;
    intros [= <-]; (split; [exact H1|]).
  all: assert (HV : inject_Z (Z.pos n) * 2 ^ 0 / (T * 2 ^ 0) <= X + (1 # 2) / T);
    [ change (2 ^ 0) with 1; rewrite !Qmult_1_r;
      apply Qle_shift_div_r; [exact HT|];
      assert (Heq : (X + (1 # 2) / T) * T == X * T + (1 # 2)) by (field; lra);
      rewrite Heq; lra
    | ].
  all: assert (HV0 : 0 <= inject_Z (Z.pos n) * 2 ^ 0 / (T * 2 ^ 0));
    [ change (2 ^ 0) with 1; rewrite !Qmult_1_r;
      apply Qle_shift_div_l; [exact HT|]; rewrite Qmult_0_l;
      now rewrite <- (Zle_Qle 0)
    | ].
  all: pose proof (upper_rounded_sum _ _ HV0 H2) as Hsum.
  all: assert (H5 : inject_Z (Z.pos n) * 2 ^ 0 / (T * 2 ^ 0) * (1 + F64.u)
                    <= (X + (1 # 2) / T) * (1 + F64.u))
         by (apply Qmult_le_compat_r; lra).
  all: lra.
Qed.

(** *** Values that stay finite *)

Lemma p2_lt_inv (a b : Z) : 2 ^ a <= 2 ^ b -> (a <= b)%Z.
Proof.
  intros H. destruct (Z.le_gt_cases a b) as [|Hgt]; [assumption|exfalso].
  assert (Hle : 2 ^ (b + 1) <= 2 ^ a) by (apply p2_le; lia).
  rewrite p2_add in Hle. change (2 ^ 1) with 2 in Hle.
  pose proof (p2_pos b). lra.
Qed.

(** A value up to [2^970] is rounded to a finite float. *)
Lemma round_aux_finite (mx ex : Z) (lx : location) (V : Q) :
  (0 <= mx)%Z ->
  inject_Z mx * 2 ^ ex <= V ->
  (half_up lx = true -> inject_Z (2 * mx + 1) * 2 ^ (ex - 1) <= V) ->
  (lx = loc_Exact \/ (ex <= fexp F64.prec F64.emax (Zdigits2 mx + ex))%Z) ->
  V <= 2 ^ 970 ->
  F64.nonneg (binary_round_aux F64.prec F64.emax false mx ex lx) = true.
Proof.
  intros Hmx HV Hhalf Hdig Hbig. unfold binary_round_aux.
  pose proof (first_stage mx ex lx V Hmx HV Hhalf Hdig) as H1.
  destruct (shr_fexp F64.prec F64.emax mx ex lx) as [mrs' e'].
  cbv zeta in H1. destruct H1 as [Hm'' Hup].
  set (m'' := round_nearest_even (shr_m mrs') (loc_of_shr_record mrs')) in *.
  pose proof (shr_exact_le m'' e' Hm'') as H2.
  destruct (shr_fexp F64.prec F64.emax m'' e' loc_Exact) as [mrs'' e''].
  destruct H2 as [Hm3 Hle].
  destruct (shr_m mrs'') as [|m|m] eqn:Em; [reflexivity| |lia].
  assert (Hval : inject_Z (Z.pos m) * 2 ^ e'' <= 2 ^ 971).
  { assert (H970 : 2 ^ 971 == 2 * 2 ^ 970) by reflexivity.
    assert (Hu : F64.u <= 1) by (unfold F64.u; apply (p2_le (-53) 0); lia).
    assert (He : F64.eta <= 2 ^ 970) by (unfold F64.eta; apply p2_le; lia).
    pose proof u_pos. pose proof eta_pos.
    assert (HV0 : 0 <= V).
    { apply Qle_trans with (inject_Z mx * 2 ^ ex); [|exact HV].
      apply Qmult_le_0_compat; [now rewrite <- (Zle_Qle 0)|apply Qlt_le_weak, p2_pos]. }
    unfold rounded_up_to in Hup. rewrite H970.
    destruct Hup as [Hup|[Hup _]]; nra. }
  assert (He : (e'' <= 971)%Z).
  { apply p2_lt_inv. apply Qle_trans with (inject_Z (Z.pos m) * 2 ^ e''); [|exact Hval].
    pose proof (p2_pos e'').
    assert (1 <= inject_Z (Z.pos m)) by (rewrite <- (Zle_Qle 1); lia). nra. }
  destruct (Z.leb_spec e'' (F64.emax - F64.prec)) as [_|Hgt]; [reflexivity|].
  unfold F64.emax, F64.prec in Hgt. lia.
Qed.

Lemma mul_finite (x y : float) :
  F64.nonneg x = true -> F64.nonneg y = true ->
  F64.to_Q x * F64.to_Q y <= 2 ^ 970 ->
  F64.nonneg (F64.mul x y) = true.
Proof.
  destruct x as [sx|sx| |[|] mx ex]; try discriminate;
    destruct y as [sy|sy| |[|] my ey]; try discriminate; intros _ _;
    try reflexivity.
  intros Hbig. unfold F64.mul, SFmul. cbn [xorb].
  apply (round_aux_finite _ _ _ (F64.to_Q (S754_finite false mx ex)
                                 * F64.to_Q (S754_finite false my ey)));
    [lia| |discriminate|now left|exact Hbig].
  rewrite !to_Q_finite. change (F64.signed false ?m) with (Z.pos m).
  rewrite Pos2Z.inj_mul, inject_Z_mult, p2_add.
  apply Qle_lteq. right. ring.
Qed.

Lemma of_int_finite (n : Z) :
  (0 <= n)%Z -> inject_Z n <= 2 ^ 970 ->
  exists f, F64.of_int n = Ok f.
Proof.
  intros Hn Hbig. unfold F64.of_int, binary_normalize.
  destruct n as [|m|m]; [eauto| |lia].
  unfold binary_round.
  pose proof (shl_align_value m 0 (fexp F64.prec F64.emax (Z.pos (digits2_pos m) + 0))) as Hal.
  destruct (shl_align m 0 _) as [mz ez]. cbn [fst snd] in Hal.
  assert (HV : inject_Z (Z.pos mz) * 2 ^ ez <= inject_Z (Z.pos m)).
  { rewrite Hal. change (2 ^ 0) with 1. apply Qle_lteq. right. ring. }
  pose proof (round_aux_finite (Z.pos mz) ez loc_Exact (inject_Z (Z.pos m))
                ltac:(lia) HV ltac:(discriminate) ltac:(now left) Hbig) as Hf.
  destruct (binary_round_aux _ _ _ _ _ _); try discriminate; eauto.
Qed.

Lemma div_finite (m1 : positive) (e1 : Z) (m2 : positive) (e2 : Z) :
  (inject_Z (Z.pos m1) * 2 ^ e1) / (inject_Z (Z.pos m2) * 2 ^ e2) <= 2 ^ 970 ->
  F64.nonneg (SFdiv F64.prec F64.emax (S754_finite false m1 e1) (S754_finite false m2 e2))
  = true.
Proof.
  intros Hbig.
  destruct (div_located m1 e1 m2 e2) as (q & e' & lx & -> & Hq & HV & Hh & Hd & _).
  now apply (round_aux_finite q e' lx _ Hq HV Hh Hd).
Qed.

Lemma int_truediv_finite (n b : Z) :
  (0 <= n)%Z -> (0 < b)%Z -> inject_Z n / inject_Z b <= 2 ^ 970 ->
  exists r, F64.int_truediv n b = Ok r.
Proof.
  intros Hn Hb Hbig. unfold F64.int_truediv.
  destruct b as [|pb|pb]; try lia.
  destruct n as [|pn|pn]; try lia; unfold Z.abs; cbv iota; [eauto|].
  change (Z.pos pn <? 0)%Z with false. change (Z.pos pb <? 0)%Z with false.
  assert (Hf : F64.nonneg (SFdiv F64.prec F64.emax (S754_finite false pn 0)
                             (S754_finite false pb 0)) = true).
  { apply div_finite. change (2 ^ 0) with 1. now rewrite !Qmult_1_r. }
  destruct (SFdiv _ _ _ _); try discriminate; eauto.
Qed.

Lemma floor_returns (x : float) :
  F64.nonneg x = true -> exists n, F64.floor x = Ok n.
Proof.
  destruct x as [s|s| |s m e]; try discriminate; intros _; cbn [F64.floor]; eauto.
  destruct (0 <=? e)%Z; eauto.
Qed.

Lemma pow10_le (d : nat) : (d <= 291)%nat -> inject_Z (10 ^ Z.of_nat d) <= 2 ^ 969.
Proof.
  intros Hd.
  assert (H : (10 ^ Z.of_nat d <= 10 ^ 291)%Z) by (apply Z.pow_le_mono_r; lia).
  rewrite Zle_Qle in H. apply (Qle_trans _ _ _ H).
  rewrite <- (p2_Z 969) by lia. rewrite <- Zle_Qle.
  apply Z.leb_le. vm_compute. reflexivity.
Qed.

(** The steps of [truncate], when it returns. *)
Lemma truncate_steps (x : float) (d : nat) (r : float) :
  truncate x d = Ok r ->
  exists f n,
    F64.of_int (10 ^ Z.of_nat d) = Ok f /\
    F64.floor (F64.mul x f) = Ok n /\
    F64.int_truediv n (10 ^ Z.of_nat d) = Ok r.
Proof.
  unfold truncate. cbv zeta. unfold mbind, result_bind, rbind.
  destruct (F64.of_int (10 ^ Z.of_nat d)) as [f|]; [|discriminate].
  destruct (F64.floor (F64.mul x f)) as [n|] eqn:Hn; [|discriminate].
  intros H. exists f, n. auto.
Qed.

(** [truncate] returns on a non-negative number that is not huge. *)
Lemma truncate_returns (x : float) (d : nat) :
  F64.nonneg x = true -> (d <= 291)%nat ->
  F64.to_Q x * inject_Z (10 ^ Z.of_nat d) <= 2 ^ 960 ->
  exists r, truncate x d = Ok r.
Proof.
  intros Hx Hd Hbig.
  pose proof (pow10_ge_1 d) as Hten.
  assert (Hten0 : (0 <= 10 ^ Z.of_nat d)%Z) by lia.
  assert (H969 : 2 ^ 969 <= 2 ^ 970) by (apply p2_le; lia).
  destruct (of_int_finite (10 ^ Z.of_nat d) Hten0) as [f Hf].
  { pose proof (pow10_le d Hd). lra. }
  destruct (of_int_upper _ f Hten0 Hf) as [Hfn Hfu].
  apply upper_rounded_ge_1 in Hfu; [|rewrite <- (Zle_Qle 1); exact Hten].
  set (T := inject_Z (10 ^ Z.of_nat d)) in *.
  pose proof (nonneg_to_Q x Hx) as HX. pose proof (nonneg_to_Q f Hfn) as HF.
  pose proof u_pos as Hu. pose proof eta_pos as He.
  assert (Hu1 : F64.u <= 1) by (unfold F64.u; apply (p2_le (-53) 0); lia).
  assert (He1 : F64.eta <= 1) by (unfold F64.eta; apply (p2_le (-1075) 0); lia).
  assert (H961 : 2 ^ 961 == 2 * 2 ^ 960) by reflexivity.
  assert (H962 : 2 ^ 962 == 2 * 2 ^ 961) by reflexivity.
  assert (H963 : 2 ^ 963 == 2 * 2 ^ 962) by reflexivity.
  assert (H1960 : 1 <= 2 ^ 960) by (apply (p2_le 0 960); lia).
  assert (H963' : 2 ^ 963 <= 2 ^ 970) by (apply p2_le; lia).
  assert (HT : 1 <= T) by (unfold T; rewrite <- (Zle_Qle 1); exact Hten).
  assert (Hxf : F64.to_Q x * F64.to_Q f <= 2 ^ 961).
  { assert (F64.to_Q f * F64.to_Q x <= T * (1 + F64.u) * F64.to_Q x)
      by (apply Qmult_le_compat_r; lra).
    assert (HP : 0 <= F64.to_Q x * T) by (apply Qmult_le_0_compat; lra).
    assert (F64.to_Q x * T * F64.u <= F64.to_Q x * T).
    { revert HP. generalize (F64.to_Q x * T). intros P HP. nra. }
    lra. }
  assert (Hm : F64.nonneg (F64.mul x f) = true) by (apply mul_finite; auto; lra).
  destruct (floor_returns _ Hm) as [n Hn].
  pose proof (floor_nonneg _ _ Hm Hn) as Hn0.
  destruct (floor_spec _ _ Hn) as [Hle _].
  destruct (mul_upper x f Hx Hfn) as [_ Hpu]. specialize (Hpu Hm).
  assert (Hxf0 : 0 <= F64.to_Q x * F64.to_Q f) by (apply Qmult_le_0_compat; lra).
  pose proof (upper_rounded_sum _ _ Hxf0 Hpu) as Hsum.
  assert (Hnb : inject_Z n <= 2 ^ 963) by nra.
  assert (Hn0' : 0 <= inject_Z n) by (now rewrite <- (Zle_Qle 0)).
  destruct (int_truediv_finite n (10 ^ Z.of_nat d) Hn0 ltac:(lia)) as [r Hr].
  { fold T. apply Qle_shift_div_r; [lra|]. nra. }
  exists r. unfold truncate. cbv zeta. unfold mbind, result_bind, rbind.
  now rewrite Hf, Hn.
Qed.

Lemma Qmult_le_both (y Y a A : Q) :
  0 <= y -> y <= Y -> 0 <= a -> a <= A -> y * a <= Y * A.
Proof. intros. nra. Qed.

Lemma c0_98_bounds : 0 <= F64.to_Q F64.c0_98 /\ F64.to_Q F64.c0_98 <= 98 # 100.
Proof. split; apply Qle_bool_imp_le; vm_compute; reflexivity. Qed.

Lemma u_small : F64.u <= 1 # 1000.
Proof. apply Qle_bool_imp_le. vm_compute. reflexivity. Qed.

Lemma eta_small : 300 * F64.eta <= 2 ^ (-1000).
Proof. apply Qle_bool_imp_le. vm_compute. reflexivity. Qed.

(** A float below one floors to zero. *)
Lemma floor_below_1 (x : float) (n : Z) :
  F64.nonneg x = true -> F64.to_Q x < 1 -> F64.floor x = Ok n -> n = 0%Z.
Proof.
  intros Hx Hs Hn. pose proof (floor_nonneg x n Hx Hn).
  destruct (floor_spec x n Hn) as [Hle _].
  assert (H1 : inject_Z n < inject_Z 1) by (change (inject_Z 1) with 1; lra).
  rewrite <- Zlt_Qlt in H1. lia.
Qed.

(** The balance less the two percent kept back, as the product rounds
    it. *)
Lemma kept_back (B : float) :
  F64.nonneg B = true -> F64.to_Q B < 2 ^ 950 ->
  F64.nonneg (F64.mul B F64.c0_98) = true /\
  F64.to_Q (F64.mul B F64.c0_98) <= F64.to_Q B * (98098 # 100000) + F64.eta.
Proof.
  intros HB Hbig.
  pose proof (nonneg_to_Q B HB) as HB0.
  destruct c0_98_bounds as [Hc0 Hc1].
  pose proof u_pos as Hu. pose proof u_small as Hu1.
  assert (H970 : 2 ^ 950 <= 2 ^ 970) by (apply p2_le; lia).
  assert (Hn98 : F64.nonneg F64.c0_98 = true) by reflexivity.
  set (c := F64.to_Q F64.c0_98) in *.
  assert (HBc : F64.to_Q B * c <= F64.to_Q B) by nra.
  assert (HBc0 : 0 <= F64.to_Q B * c) by (apply Qmult_le_0_compat; lra).
  assert (HX : F64.nonneg (F64.mul B F64.c0_98) = true)
    by (apply mul_finite; auto; fold c; lra).
  split; [exact HX|].
  destruct (mul_upper B F64.c0_98 HB Hn98) as [_ HXu]. specialize (HXu HX).
  fold c in HXu. apply (upper_rounded_sum _ _ HBc0) in HXu.
  assert (Ha : (1 + F64.u) <= 1001 # 1000) by lra.
  pose proof (Qmult_le_both (F64.to_Q B * c) (F64.to_Q B * (98 # 100))
                (1 + F64.u) (1001 # 1000) HBc0 ltac:(nra) ltac:(lra) Ha).
  lra.
Qed.

(** The spend of a buy order is computed for every balance that is
    not huge. *)
Lemma spend_returns (B : float) :
  F64.nonneg B = true -> F64.to_Q B < 2 ^ 950 ->
  exists spend,
    truncate (F64.mul B F64.c0_98) 2 = Ok spend /\ F64.nonneg spend = true.
Proof.
  intros HB Hbig.
  destruct (kept_back B HB Hbig) as [HX HX1].
  pose proof (nonneg_to_Q B HB) as HB0. pose proof eta_pos as He.
  assert (He1 : F64.eta <= 1) by (unfold F64.eta; apply (p2_le (-1075) 0); lia).
  assert (H1 : 1 <= 2 ^ 950) by (apply (p2_le 0 950); lia).
  assert (H960 : 1024 * 2 ^ 950 == 2 ^ 960) by reflexivity.
  destruct (truncate_returns (F64.mul B F64.c0_98) 2) as [spend Hs]; [exact HX|lia| |].
  { change (inject_Z (10 ^ Z.of_nat 2)) with 100. lra. }
  exists spend. split; [exact Hs|].
  now destruct (truncate_upper _ 2 spend HX Hs).
Qed.

Lemma truediv_finite (q s : float) :
  F64.nonneg q = true -> F64.positive_finite s = true ->
  F64.to_Q q / F64.to_Q s <= 2 ^ 970 ->
  exists t, F64.truediv q s = Ok t /\ F64.nonneg t = true.
Proof.
  intros Hq Hs Hbig.
  destruct s as [ss|ss| |[|] ms es]; try discriminate.
  unfold F64.truediv. cbn [F64.is_zero]. eexists. split; [reflexivity|].
  destruct q as [sq|sq| |[|] mq eq]; try discriminate; [reflexivity|].
  apply div_finite. rewrite !to_Q_finite in Hbig. exact Hbig.
Qed.

(** [round_step_size] returns a finite quantity when neither the
    balance nor its quotient by the step is huge. *)
Lemma round_step_size_returns (q s : float) :
  F64.nonneg q = true -> F64.positive_finite s = true ->
  F64.to_Q q <= 2 ^ 950 -> F64.to_Q q / F64.to_Q s <= 2 ^ 950 ->
  exists r, round_step_size q s = Ok r /\ F64.nonneg r = true /\
            F64.to_Q r <= 2 ^ 954.
Proof.
  intros Hq Hs Hbq Hbig.
  pose proof (nonneg_to_Q q Hq) as HQ. pose proof (positive_to_Q s Hs) as HS.
  pose proof u_pos as Hu. pose proof eta_pos as He. pose proof u_small as Hu1.
  assert (He1 : F64.eta <= 1) by (unfold F64.eta; apply (p2_le (-1075) 0); lia).
  assert (H950 : 2 ^ 950 <= 2 ^ 970) by (apply p2_le; lia).
  assert (H1 : 1 <= 2 ^ 950) by (apply (p2_le 0 950); lia).
  assert (H952 : 4 * 2 ^ 950 == 2 ^ 952) by reflexivity.
  assert (H953 : 2 * 2 ^ 952 == 2 ^ 953) by reflexivity.
  assert (H954 : 2 * 2 ^ 953 == 2 ^ 954) by reflexivity.
  assert (H952' : 2 ^ 952 <= 2 ^ 970) by (apply p2_le; lia).
  destruct (truediv_finite q s Hq Hs ltac:(lra)) as (t & Ht & Htn).
  destruct (truediv_upper q s t Hq Hs Ht) as [_ Htu]. specialize (Htu Htn).
  assert (HV0 : 0 <= F64.to_Q q / F64.to_Q s) by (apply Qle_shift_div_l; lra).
  apply (upper_rounded_sum _ _ HV0) in Htu.
  destruct (floor_returns t Htn) as [n Hn].
  pose proof (floor_nonneg _ _ Htn Hn) as Hn0.
  destruct (floor_spec _ _ Hn) as [Hle _].
  assert (Ha : 1 + F64.u <= 2) by lra.
  assert (Ha0 : 0 <= 1 + F64.u) by lra.
  pose proof (Qmult_le_both _ _ _ _ HV0 Hbig Ha0 Ha) as Hp.
  destruct (of_int_finite n Hn0 ltac:(lra)) as [f Hf].
  destruct (step_product_bound q s t f n Hq Hs Ht Htn Hn Hf) as [Hfn Hfs].
  assert (Hsn : F64.nonneg s = true) by (destruct s as [| | |[|]]; auto).
  pose proof (Qmult_le_both _ _ _ _ HQ Hbq Ha0 Ha) as Hq1.
  assert (Hq10 : 0 <= F64.to_Q q * (1 + F64.u)) by (apply Qmult_le_0_compat; lra).
  pose proof (Qmult_le_both _ _ _ _ Hq10 Hq1 Ha0 Ha) as Hq2.
  assert (Hm : F64.nonneg (F64.mul f s) = true) by (apply mul_finite; auto; lra).
  exists (F64.mul f s). split; [|split; [exact Hm|]].
  - unfold round_step_size. unfold mbind, result_bind, rbind.
    now rewrite Ht, Hn, Hf.
  - destruct (mul_upper f s Hfn Hsn) as [_ Hmu]. specialize (Hmu Hm).
    pose proof (nonneg_to_Q f Hfn) as HF.
    assert (Hfs0 : 0 <= F64.to_Q f * F64.to_Q s) by (apply Qmult_le_0_compat; lra).
    apply (upper_rounded_sum _ _ Hfs0) in Hmu.
    assert (Hfs1 : F64.to_Q f * F64.to_Q s <= 2 ^ 952) by lra.
    pose proof (Qmult_le_both _ _ _ _ Hfs0 Hfs1 Ha0 Ha). lra.
Qed.

(** The cleanup rounding returns on a quantity that is not huge. *)
Lemma round_returns (r : float) (d : nat) :
  F64.nonneg r = true -> F64.to_Q r <= 2 ^ 960 ->
  exists qty, F64.round r d = Ok qty /\ F64.nonneg qty = true.
Proof.
  intros Hr Hbig.
  destruct r as [s|s| |[|] m e]; try discriminate.
  { exists (S754_zero s). auto. }
  cbn [F64.round]. unfold F64.of_decimal.
  pose proof (scaled_digits_spec m e d) as Hspec.
  apply Qabs_Qle_condition in Hspec. destruct Hspec as [_ Hspec].
  unfold scaled in Hspec.
  set (X := F64.to_Q (S754_finite false m e)) in *.
  assert (Hten : (0 < 10 ^ Z.of_nat d)%Z) by (apply Z.pow_pos_nonneg; lia).
  pose proof (pow10_ge_1 d) as Hten1.
  set (T := inject_Z (10 ^ Z.of_nat d)) in *.
  assert (HT : 1 <= T) by (unfold T; now rewrite <- (Zle_Qle 1)).
  destruct (F64.scaled_digits m e d) as [|n|n] eqn:EN; eauto.
  assert (Hf : F64.nonneg (SFdiv F64.prec F64.emax (S754_finite false n 0)
                (S754_finite false (Z.to_pos (10 ^ Z.of_nat d)) 0)) = true).
  { apply div_finite. rewrite Z2Pos.id by exact Hten. fold T.
    change (2 ^ 0) with 1. rewrite !Qmult_1_r.
    apply Qle_shift_div_r; [lra|].
    assert (H960 : 2 ^ 960 <= 2 ^ 969) by (apply p2_le; lia).
    assert (H970 : 2 * 2 ^ 969 == 2 ^ 970) by reflexivity.
    assert (H1 : 1 <= 2 ^ 969) by (apply (p2_le 0 969); lia).
    assert (HXT : X * T <= 2 ^ 960 * T) by (apply Qmult_le_compat_r; lra).
    assert (H969T : 2 ^ 969 <= 2 ^ 969 * T).
    { pose proof (p2_pos 969). nra. }
    assert (H960T : 2 ^ 960 * T <= 2 ^ 969 * T) by (apply Qmult_le_compat_r; lra).
    rewrite <- H970. lra. }
  destruct (SFdiv _ _ _ _) as [s0|s0| |s0 m0 e0]; try discriminate; eauto.
Qed.


(** *** Rounding to nearest never goes far below the value *)

(** The first shift and the rounding to nearest: the rounded
    significand is below [V] by half a unit at most. *)
Lemma first_stage_lower (mx ex : Z) (lx : location) (V : Q) :
  (0 <= mx)%Z ->
  inject_Z mx * 2 ^ ex <= V ->
  V <= inject_Z (mx + 1) * 2 ^ ex ->
  (lx = loc_Exact -> V <= inject_Z mx * 2 ^ ex) ->
  (half_down lx = true -> V <= inject_Z (2 * mx + 1) * 2 ^ (ex - 1)) ->
  (lx = loc_Exact \/ (ex <= fexp F64.prec F64.emax (Zdigits2 mx + ex))%Z) ->
  let '(mrs, e') := shr_fexp F64.prec F64.emax mx ex lx in
  let m'' := round_nearest_even (shr_m mrs) (loc_of_shr_record mrs) in
  (0 <= m'')%Z /\ rounded_down_to V m'' e' /\
  ((m'' = mx /\ e' = ex /\ (fexp F64.prec F64.emax (Zdigits2 mx + ex) <= ex)%Z) \/
   (m'' <= 2 ^ 53 /\ -1074 <= e')%Z).
Proof.
  intros Hmx HV Hup Hex Hdown Hdig. unfold shr_fexp.
  set (D := (Zdigits2 mx + ex)%Z) in *.
  set (k := (fexp F64.prec F64.emax D - ex)%Z).
  destruct (loc_of_record_of_loc mx lx) as (Hloc & Hm & Hr).
  assert (Hrec : (0 <= shr_m (shr_record_of_loc mx lx))%Z) by (rewrite Hm; exact Hmx).
  destruct (shr_spec (shr_record_of_loc mx lx) ex k Hrec) as [H0 H1].
  destruct (Zdigits2_bounds mx Hmx) as (Hd0 & Hdu & Hdl).
  pose proof (p2_pos ex) as Hpex.
  assert (HV0 : 0 <= V).
  { apply Qle_trans with (inject_Z mx * 2 ^ ex); [|exact HV].
    apply Qmult_le_0_compat; [|lra]. now rewrite <- (Zle_Qle 0). }
  pose proof u_pos as Hu. pose proof eta_pos as Heta.
  pose proof (fexp_ge_emin D) as Hemin.
  (* the significand that is kept has 53 bits at most *)
  assert (Hkeep : (0 <= k -> mx < 2 ^ (53 + k))%Z).
  { intros Hk. apply Z.lt_le_trans with (2 ^ Zdigits2 mx)%Z; [exact Hdu|].
    apply Z.pow_le_mono_r; [lia|].
    destruct (fexp_cases D) as [[Hf _]|[Hf Hs]]; unfold k, D in *; lia. }
  destruct (Z.leb_spec k 0%Z) as [Hk|Hk].
  - (* no shift *)
    rewrite (H0 Hk). cbv zeta.
    destruct (round_nearest_even_down (shr_record_of_loc mx lx)) as [E|[E Ebits]];
      rewrite E, Hm.
    + split; [lia|]. split.
      * left. assert (V * (1 - F64.u) <= V) by nra. lra.
      * right. destruct Hdig as [->|Hdig]; [discriminate Hr || idtac|].
        -- cbn in E. lia.
        -- assert (Hk0 : k = 0%Z) by (unfold k in *; lia).
           specialize (Hkeep ltac:(lia)). rewrite Hk0 in Hkeep.
           unfold k in Hk0. split; lia.
    + split; [exact Hmx|].
      apply record_of_loc_down in Ebits. specialize (Hdown Ebits).
      destruct (Z.eq_dec k 0%Z) as [Hk0|Hk0].
      * (* the value is located at the exponent it is rounded at *)
        assert (Hval : V - 2 ^ (ex - 1) <= inject_Z mx * 2 ^ ex).
        { rewrite (p2_half ex) in *. revert Hdown.
          rewrite inject_Z_plus, inject_Z_mult.
          set (b := inject_Z mx). set (h := 2 ^ (ex - 1)).
          change (inject_Z 2) with 2. change (inject_Z 1) with 1. intros. lra. }
        split.
        -- destruct (Qlt_le_dec (inject_Z mx * 2 ^ ex) V) as [Hlt|Hge];
             [|left; assert (V * (1 - F64.u) <= V) by nra; lra].
           destruct (fexp_cases D) as [[Hf Hn]|[Hf Hs]].
           ++ left. assert (Hm52 : (2 ^ (52 + 0) <= mx)%Z).
              { assert (Zdigits2 mx = 53%Z) by (unfold k, D in *; lia).
                assert (0 < mx)%Z by (destruct mx; cbn in *; lia).
                specialize (Hdl ltac:(assumption)).
                replace (Zdigits2 mx - 1)%Z with 52%Z in Hdl by lia. exact Hdl. }
              pose proof (half_ulp_normal mx ex 0%Z V ltac:(lia) Hm52 HV) as Hh.
              replace (ex + 0 - 1)%Z with (ex - 1)%Z in Hh by lia. lra.
           ++ right. assert (Hex' : ex = (-1074)%Z) by (unfold k in *; lia).
              subst ex. exact Hval.
        -- right. specialize (Hkeep ltac:(lia)). rewrite Hk0 in Hkeep.
           unfold k in Hk0. split; lia.
      * (* the value is the significand itself *)
        assert (Hlx : lx = loc_Exact).
        { destruct Hdig as [H|H]; [exact H|unfold k in *; lia]. }
        specialize (Hex Hlx). split.
        -- left. assert (V * (1 - F64.u) <= V) by nra. lra.
        -- left. unfold k in *. repeat split; lia.
  - (* a shift by [k] bits *)
    destruct (H1 Hk) as (Hq & He & _).
    destruct (shr_low (shr_record_of_loc mx lx) ex k Hrec Hk) as [Hlr Hls].
    destruct (shr _ ex k) as [mrs e']. cbn [fst snd] in *. subst e'. cbv zeta.
    rewrite Hm in Hq, Hlr, Hls.
    assert (Hp : (0 < 2 ^ k)%Z) by (apply Z.pow_pos_nonneg; lia).
    assert (Hm' : (0 <= shr_m mrs)%Z) by (rewrite Hq; apply Z.div_pos; lia).
    pose proof (Z.div_mod mx (2 ^ k)%Z ltac:(lia)) as Hdm.
    pose proof (Z.mod_pos_bound mx (2 ^ k)%Z Hp) as Hmod.
    rewrite <- Hq in Hdm.
    assert (Hpk : (2 ^ k = 2 * 2 ^ (k - 1))%Z).
    { replace k with (Z.succ (k - 1)) at 1 by lia. apply Z.pow_succ_r. lia. }
    assert (Hpk1 : (0 < 2 ^ (k - 1))%Z) by (apply Z.pow_pos_nonneg; lia).
    assert (Hshift : forall a : Z, inject_Z a * 2 ^ (ex + k) == inject_Z (a * 2 ^ k) * 2 ^ ex).
    { intros a. rewrite (Z.add_comm ex k), p2_add, inject_Z_mult, p2_Z by lia. ring. }
    assert (Hsmall : (shr_m mrs < 2 ^ 53)%Z).
    { specialize (Hkeep ltac:(lia)).
      rewrite Z.pow_add_r in Hkeep by lia. nia. }
    assert (Hlast : (-1074 <= ex + k)%Z) by (unfold k; lia).
    destruct (round_nearest_even_down mrs) as [E|[E Ebits]]; rewrite E.
    + split; [lia|]. split; [|right; split; lia].
      left. rewrite Hshift.
      assert (Hz : (mx + 1 <= (shr_m mrs + 1) * 2 ^ k)%Z) by nia.
      rewrite Zle_Qle in Hz.
      assert (inject_Z (mx + 1) * 2 ^ ex <= inject_Z ((shr_m mrs + 1) * 2 ^ k) * 2 ^ ex)
        by (apply Qmult_le_compat_r; lra).
      assert (V * (1 - F64.u) <= V) by nra. lra.
    + split; [exact Hm'|]. split; [|right; split; lia].
      assert (Hz : V <= inject_Z (2 * shr_m mrs + 1) * 2 ^ (ex + k - 1)).
      { assert (Hcase : (mx + 1 <= shr_m mrs * 2 ^ k + 2 ^ (k - 1))%Z \/
                        (lx = loc_Exact /\ mx <= shr_m mrs * 2 ^ k + 2 ^ (k - 1))%Z).
        { destruct Ebits as [Hr0|Hs0].
          - left. specialize (Hlr Hr0). lia.
          - right. destruct (Hls Hs0) as (Hlow & Hr0 & Hs0').
            split; [now apply (record_of_loc_bits mx)|].
            rewrite Hpk in Hmod, Hdm.
            replace (2 * 2 ^ (k - 1))%Z with (2 ^ (k - 1) * 2)%Z in Hmod, Hdm by lia.
            pose proof (Z.rem_mul_r mx (2 ^ (k - 1))%Z 2%Z ltac:(lia) ltac:(lia)) as Hrem.
            rewrite Hlow in Hrem.
            pose proof (Z.mod_pos_bound (mx / 2 ^ (k - 1))%Z 2%Z ltac:(lia)) as Hbit.
            rewrite Hpk, Hdm, Hrem. revert Hbit Hpk1.
            generalize ((mx / 2 ^ (k - 1)) mod 2)%Z. generalize (2 ^ (k - 1))%Z.
            generalize (shr_m mrs). clear. intros m P b Hb HP.
            assert (Hc : (b = 0 \/ b = 1)%Z) by lia. destruct Hc as [-> | ->]; lia. }
        assert (Heq : inject_Z (2 * shr_m mrs + 1) * 2 ^ (ex + k - 1)
                      == inject_Z (shr_m mrs * 2 ^ k + 2 ^ (k - 1)) * 2 ^ ex).
        { replace (ex + k - 1)%Z with ((k - 1) + ex)%Z by lia.
          rewrite p2_add, <- (p2_Z (k - 1)) by lia.
          rewrite Qmult_assoc, <- inject_Z_mult.
          apply Qmult_comp; [|reflexivity]. apply inject_Z_injective. lia. }
        rewrite Heq.
        destruct Hcase as [Hc|[Hlx Hc]]; rewrite Zle_Qle in Hc.
        - apply (Qle_trans _ _ _ Hup). apply Qmult_le_compat_r; lra.
        - apply (Qle_trans _ _ _ (Hex Hlx)). apply Qmult_le_compat_r; lra. }
      assert (Hval : V - 2 ^ (ex + k - 1) <= inject_Z (shr_m mrs) * 2 ^ (ex + k)).
      { rewrite (p2_half (ex + k)). revert Hz.
        rewrite inject_Z_plus, inject_Z_mult.
        set (b := inject_Z (shr_m mrs)). set (h := 2 ^ (ex + k - 1)).
        change (inject_Z 2) with 2. change (inject_Z 1) with 1. intros. lra. }
      destruct (fexp_cases D) as [[Hf Hn]|[Hf Hs]].
      * left. assert (Hm52 : (2 ^ (52 + k) <= mx)%Z).
        { assert (Zdigits2 mx = 53 + k)%Z by (unfold k, D in *; lia).
          assert (0 < mx)%Z by (destruct mx; cbn in *; lia).
          specialize (Hdl ltac:(assumption)).
          replace (Zdigits2 mx - 1)%Z with (52 + k)%Z in Hdl by lia. exact Hdl. }
        pose proof (half_ulp_normal mx ex k V ltac:(lia) Hm52 HV) as Hh. lra.
      * right. assert (Hex' : (ex + k)%Z = (-1074)%Z) by (unfold k in *; lia).
        rewrite Hex' in *. exact Hval.
Qed.

(** The second shift, on the rounded significand, loses nothing. *)
Lemma second_stage_exact (m e : Z) :
  (0 <= m)%Z ->
  ((fexp F64.prec F64.emax (Zdigits2 m + e) <= e)%Z \/ (m <= 2 ^ 53 /\ -1074 <= e)%Z) ->
  let '(mrs, e') := shr_fexp F64.prec F64.emax m e loc_Exact in
  inject_Z (shr_m mrs) * 2 ^ e' == inject_Z m * 2 ^ e.
Proof.
  intros Hm Hcase. unfold shr_fexp.
  set (k := (fexp F64.prec F64.emax (Zdigits2 m + e) - e)%Z).
  assert (Hrec : (0 <= shr_m (shr_record_of_loc m loc_Exact))%Z) by exact Hm.
  destruct (shr_spec (shr_record_of_loc m loc_Exact) e k Hrec) as [H0 H1].
  destruct (Z.leb_spec k 0%Z) as [Hk|Hk].
  - rewrite (H0 Hk). reflexivity.
  - destruct Hcase as [Hc|[Hc1 Hc2]]; [unfold k in Hk; lia|].
    destruct (Zdigits2_bounds m Hm) as (Hd0 & Hdu & Hdl).
    assert (Hpos : (0 < m)%Z).
    { destruct (Z.eq_dec m 0%Z) as [->|]; [|lia]. exfalso.
      cbn [Zdigits2] in k. pose proof (fexp_cases (0 + e)).
      unfold k in Hk. lia. }
    specialize (Hdl Hpos).
    assert (Hd54 : (Zdigits2 m <= 54)%Z).
    { destruct (Z.leb_spec (Zdigits2 m) 54) as [|Hgt]; [assumption|exfalso].
      assert (2 ^ 54 <= 2 ^ (Zdigits2 m - 1))%Z by (apply Z.pow_le_mono_r; lia).
      assert (2 ^ 53 < 2 ^ 54)%Z by reflexivity. lia. }
    assert (Hk1 : k = 1%Z).
    { destruct (fexp_cases (Zdigits2 m + e)) as [[Hf _]|[Hf _]]; unfold k in *; lia. }
    assert (Hm53 : m = (2 ^ 53)%Z).
    { assert (Zdigits2 m = 54%Z).
      { destruct (fexp_cases (Zdigits2 m + e)) as [[Hf _]|[Hf _]]; unfold k in *; lia. }
      replace (Zdigits2 m - 1)%Z with 53%Z in Hdl by lia. lia. }
    destruct (H1 Hk) as (Hq & He & _).
    destruct (shr _ e k) as [mrs e']. cbn [fst snd] in *. subst e'.
    cbn [shr_record_of_loc shr_m] in Hq. rewrite Hq, Hk1, Hm53.
    change (2 ^ 53 / 2 ^ 1)%Z with (2 ^ 52)%Z.
    rewrite (Z.add_comm e 1), p2_add.
    change (inject_Z (2 ^ 52) * (2 ^ 1 * 2 ^ e) == inject_Z (2 ^ 53) * 2 ^ e).
    change (inject_Z (2 ^ 53)) with (inject_Z (2 ^ 52) * 2). change (2 ^ 1) with 2.
    ring.
Qed.

Lemma lower_rounded_zero (s : bool) : lower_rounded 0 (S754_zero s).
Proof. left. cbn [F64.to_Q]. lra. Qed.

(** [binary_round_aux] on a value [V] located by [mx], [ex] and [lx]:
    the result is below [V] by one rounding at most. *)
Lemma round_aux_lower (mx ex : Z) (lx : location) (V : Q) :
  (0 <= mx)%Z ->
  inject_Z mx * 2 ^ ex <= V ->
  V <= inject_Z (mx + 1) * 2 ^ ex ->
  (lx = loc_Exact -> V <= inject_Z mx * 2 ^ ex) ->
  (half_down lx = true -> V <= inject_Z (2 * mx + 1) * 2 ^ (ex - 1)) ->
  (lx = loc_Exact \/ (ex <= fexp F64.prec F64.emax (Zdigits2 mx + ex))%Z) ->
  let r := binary_round_aux F64.prec F64.emax false mx ex lx in
  F64.nonneg r = true -> lower_rounded V r.
Proof.
  intros Hmx HV Hup Hex Hdown Hdig. unfold binary_round_aux.
  pose proof (first_stage_lower mx ex lx V Hmx HV Hup Hex Hdown Hdig) as H1.
  destruct (shr_fexp F64.prec F64.emax mx ex lx) as [mrs' e'].
  cbv zeta in H1. destruct H1 as (Hm'' & Hlow & Hcase).
  set (m'' := round_nearest_even (shr_m mrs') (loc_of_shr_record mrs')) in *.
  assert (Hc2 : (fexp F64.prec F64.emax (Zdigits2 m'' + e') <= e')%Z \/
                (m'' <= 2 ^ 53 /\ -1074 <= e')%Z).
  { destruct Hcase as [(-> & -> & H)|H]; [left; exact H|right; exact H]. }
  pose proof (second_stage_exact m'' e' Hm'' Hc2) as H2.
  destruct (shr_fexp F64.prec F64.emax m'' e' loc_Exact) as [mrs'' e''].
  cbv zeta. unfold rounded_down_to in Hlow. rewrite <- H2 in Hlow.
  destruct (shr_m mrs'') as [|m|m] eqn:Em.
  - intros _. unfold lower_rounded. cbn [F64.to_Q].
    rewrite Qmult_0_l in Hlow. exact Hlow.
  - destruct (e'' <=? F64.emax - F64.prec)%Z; [|discriminate].
    intros _. unfold lower_rounded.
    rewrite to_Q_finite. change (F64.signed false m) with (Z.pos m). exact Hlow.
  - discriminate.
Qed.


Lemma lower_rounded_sum (V : Q) (r : float) :
  0 <= V -> lower_rounded V r -> V * (1 - F64.u) - F64.eta <= F64.to_Q r.
Proof.
  intros HV [H|H]; pose proof u_pos; pose proof eta_pos; nra.
Qed.

Lemma lower_rounded_ge_1 (V : Q) (r : float) :
  1 <= V -> lower_rounded V r -> V * (1 - F64.u) <= F64.to_Q r.
Proof.
  intros HV [H|H]; [exact H|]. pose proof eta_le_u. pose proof u_pos. nra.
Qed.

Lemma lower_rounded_le (V V' : Q) (r : float) :
  V' <= V -> lower_rounded V r -> lower_rounded V' r.
Proof.
  intros HV [H|H]; [left|right]; [|lra].
  assert (Hu : F64.u <= 1 # 1000) by apply u_small. nra.
Qed.

(** The product of two non-negative floats. *)
Lemma mul_lower (x y : float) :
  F64.nonneg x = true -> F64.nonneg y = true ->
  F64.nonneg (F64.mul x y) = true ->
  lower_rounded (F64.to_Q x * F64.to_Q y) (F64.mul x y).
Proof.
  destruct x as [sx|sx| |[|] mx ex]; try discriminate;
    destruct y as [sy|sy| |[|] my ey]; try discriminate; intros _ _;
    cbn [F64.mul SFmul xorb];
    try (intros _; left; cbn [F64.to_Q]; lra).
  unfold F64.mul, SFmul. cbn [xorb].
  assert (HV : F64.to_Q (S754_finite false mx ex) * F64.to_Q (S754_finite false my ey)
               == inject_Z (Z.pos (mx * my)) * 2 ^ (ex + ey)).
  { rewrite !to_Q_finite. change (F64.signed false ?m) with (Z.pos m).
    rewrite Pos2Z.inj_mul, inject_Z_mult, p2_add. ring. }
  pose proof (p2_pos (ex + ey)) as Hp. pose proof (p2_pos (ex + ey - 1)) as Hp1.
  intros Hn.
  apply lower_rounded_le with (inject_Z (Z.pos (mx * my)) * 2 ^ (ex + ey));
    [rewrite HV; apply Qle_refl|].
  revert Hn. apply round_aux_lower; try lia.
  - apply Qle_refl.
  - rewrite inject_Z_plus. change (inject_Z 1) with 1. lra.
  - intros _. apply Qle_refl.
  - intros _. rewrite (p2_half (ex + ey)), inject_Z_plus, inject_Z_mult.
    change (inject_Z 2) with 2. change (inject_Z 1) with 1. lra.
  - now left.
Qed.

(** The conversion of a non-negative [int]. *)
Lemma of_int_lower (n : Z) (f : float) :
  (0 <= n)%Z ->
  F64.of_int n = Ok f ->
  lower_rounded (inject_Z n) f.
Proof.
  intros Hn. unfold F64.of_int, binary_normalize.
  destruct n as [|m|m]; [| |lia].
  - intros [= <-]. apply lower_rounded_zero.
  - unfold binary_round.
    pose proof (shl_align_value m 0 (fexp F64.prec F64.emax (Z.pos (digits2_pos m) + 0))) as Hal.
    destruct (shl_align m 0 _) as [mz ez]. cbn [fst snd] in Hal.
    assert (HV : inject_Z (Z.pos m) == inject_Z (Z.pos mz) * 2 ^ ez).
    { rewrite Hal. change (2 ^ 0) with 1. ring. }
    pose proof (p2_pos ez) as Hp. pose proof (p2_pos (ez - 1)) as Hp1.
    assert (Hlow : let r := binary_round_aux F64.prec F64.emax false (Z.pos mz) ez loc_Exact in
                   F64.nonneg r = true -> lower_rounded (inject_Z (Z.pos m)) r).
    { cbv zeta. intros Hnn.
      apply lower_rounded_le with (inject_Z (Z.pos mz) * 2 ^ ez);
        [rewrite HV; apply Qle_refl|].
      revert Hnn. apply round_aux_lower; try lia.
      - apply Qle_refl.
      - rewrite inject_Z_plus. change (inject_Z 1) with 1. lra.
      - intros _. apply Qle_refl.
      - intros _. rewrite (p2_half ez), inject_Z_plus, inject_Z_mult.
        change (inject_Z 2) with 2. change (inject_Z 1) with 1. lra.
      - now left. }
    cbv zeta in Hlow.
    destruct (round_aux_upper (Z.pos mz) ez loc_Exact (inject_Z (Z.pos m))
                ltac:(lia) ltac:(rewrite HV; apply Qle_refl) ltac:(discriminate)
                ltac:(now left)) as [Hs _].
    destruct Hs as [Hs|Hs]; [|rewrite Hs; discriminate].
    specialize (Hlow Hs).
    destruct (binary_round_aux _ _ _ _ _ _); try discriminate;
      intros [= <-]; exact Hlow.
Qed.

(** The quotient of two positive significands, as [SFdiv] rounds it. *)
Lemma div_lower (m1 : positive) (e1 : Z) (m2 : positive) (e2 : Z) :
  let r := SFdiv F64.prec F64.emax (S754_finite false m1 e1) (S754_finite false m2 e2) in
  let V := (inject_Z (Z.pos m1) * 2 ^ e1) / (inject_Z (Z.pos m2) * 2 ^ e2) in
  F64.nonneg r = true -> lower_rounded V r.
Proof.
  cbv zeta.
  destruct (div_located m1 e1 m2 e2)
    as (q & e' & lx & -> & Hq & HV & Hh & Hd & Hup & Hex & Hdn).
  now apply round_aux_lower.
Qed.

(** The quotient of two [int]s. *)
Lemma int_truediv_lower (n b : Z) (r : float) :
  (0 <= n)%Z -> (0 < b)%Z ->
  F64.int_truediv n b = Ok r ->
  lower_rounded (inject_Z n / inject_Z b) r.
Proof.
  intros Hn Hb. unfold F64.int_truediv.
  destruct b as [|pb|pb]; try lia.
  destruct n as [|pn|pn]; try lia; unfold Z.abs; cbv iota.
  - intros [= <-]. left. cbn [F64.to_Q]. unfold Qdiv. rewrite Qmult_0_l. lra.
  - change (Z.pos pn <? 0)%Z with false. change (Z.pos pb <? 0)%Z with false.
    pose proof (div_upper pn 0 pb 0) as [Hs _].
    pose proof (div_lower pn 0 pb 0) as Hlow. cbv zeta in *.
    assert (HV : inject_Z (Z.pos pn) / inject_Z (Z.pos pb)
                 <= inject_Z (Z.pos pn) * 2 ^ 0 / (inject_Z (Z.pos pb) * 2 ^ 0)).
    { change (2 ^ 0) with 1. rewrite !Qmult_1_r. apply Qle_refl. }
    destruct Hs as [Hs|Hs]; [|rewrite Hs; discriminate].
    specialize (Hlow Hs). apply (lower_rounded_le _ _ _ HV) in Hlow.
    destruct (SFdiv _ _ _ _); try discriminate; intros [= <-]; auto.
Qed.

(** The quotient of a non-negative float by a positive one. *)
Lemma truediv_lower (q s t : float) :
  F64.nonneg q = true -> F64.positive_finite s = true ->
  F64.truediv q s = Ok t ->
  F64.nonneg t = true -> lower_rounded (F64.to_Q q / F64.to_Q s) t.
Proof.
  intros Hq Hs. pose proof (positive_to_Q s Hs) as HS.
  destruct s as [ss|ss| |[|] ms es]; try discriminate.
  unfold F64.truediv. cbn [F64.is_zero]. intros [= <-].
  destruct q as [sq|sq| |[|] mq eq]; try discriminate.
  - cbn [SFdiv]. intros _. left. cbn [F64.to_Q]. unfold Qdiv.
    rewrite Qmult_0_l. lra.
  - pose proof (div_lower mq eq ms es) as H2. cbv zeta in *.
    intros Hn. specialize (H2 Hn). revert H2. apply lower_rounded_le.
    rewrite !to_Q_finite. apply Qle_refl.
Qed.

(** [truncate] on a non-negative number: the result is below the
    argument by one unit of the last kept place and three roundings at
    most. *)
Lemma truncate_lower (x : float) (d : nat) (r : float) :
  F64.nonneg x = true ->
  truncate x d = Ok r ->
  F64.to_Q x * (1 - F64.u) * (1 - F64.u) * (1 - F64.u)
  - 1 / inject_Z (10 ^ Z.of_nat d) - F64.eta <= F64.to_Q r.
Proof.
  intros Hx H.
  destruct (truncate_steps x d r H) as (f & n & Hf & Hn & Hr).
  pose proof (pow10_ge_1 d) as Hten.
  assert (Hten0 : (0 <= 10 ^ Z.of_nat d)%Z) by lia.
  assert (Hten1 : (0 < 10 ^ Z.of_nat d)%Z) by lia.
  destruct (of_int_upper _ f Hten0 Hf) as [Hfn _].
  pose proof (of_int_lower _ f Hten0 Hf) as Hfl.
  apply lower_rounded_ge_1 in Hfl; [|rewrite <- (Zle_Qle 1); exact Hten].
  destruct (mul_upper x f Hx Hfn) as [[Hps|Hps] _]; [|rewrite Hps in Hn; discriminate].
  pose proof (mul_lower x f Hx Hfn Hps) as Hpl.
  pose proof (nonneg_to_Q x Hx) as HX. pose proof (nonneg_to_Q f Hfn) as HF.
  apply lower_rounded_sum in Hpl; [|apply Qmult_le_0_compat; assumption].
  pose proof (floor_nonneg _ _ Hps Hn) as Hn0.
  destruct (floor_spec _ _ Hn) as [_ Hlt].
  pose proof (int_truediv_lower n _ r Hn0 Hten1 Hr) as Hrl.
  set (T := inject_Z (10 ^ Z.of_nat d)) in *.
  assert (HT : 1 <= T) by (unfold T; rewrite <- (Zle_Qle 1); exact Hten).
  assert (HN0 : 0 <= inject_Z n) by (rewrite <- (Zle_Qle 0); exact Hn0).
  assert (HY0 : 0 <= inject_Z n / T).
  { apply Qle_shift_div_l; [lra|]. rewrite Qmult_0_l. exact HN0. }
  apply lower_rounded_sum in Hrl; [|exact HY0].
  rewrite inject_Z_plus in Hlt. change (inject_Z 1) with 1 in Hlt.
  pose proof u_pos as Hu. pose proof eta_pos as He. pose proof eta_le_u as Heu.
  pose proof u_small as Hu1.
  set (a := 1 - F64.u) in *.
  assert (Ha0 : 0 < a) by (unfold a; lra).
  assert (Ha1 : a <= 1) by (unfold a; lra).
  set (X := F64.to_Q x) in *. set (F := F64.to_Q f) in *.
  set (P := F64.to_Q (F64.mul x f)) in *. set (N := inject_Z n) in *.
  set (R := F64.to_Q r) in *.
  assert (E1 : X * (T * a) <= X * F) by nra.
  assert (E2 : X * (T * a) * a <= X * F * a) by nra.
  assert (E3 : X * T * a * a - F64.eta - 1 <= N) by lra.
  assert (E4 : (X * T * a * a - F64.eta - 1) * a <= N * a) by nra.
  assert (E5 : (F64.eta + 1) * a <= 1) by (unfold a; nra).
  assert (E6 : X * T * a * a * a - 1 <= N * a) by lra.
  assert (HW : 0 < / T) by (apply Qinv_lt_0_compat; lra).
  assert (E7 : (X * T * a * a * a - 1) * / T <= N * a * / T)
    by (apply Qmult_le_compat_r; lra).
  assert (E8 : (X * T * a * a * a - 1) * / T == X * a * a * a - 1 / T)
    by (field; lra).
  assert (E9 : N * a * / T == N / T * a) by (field; lra).
  rewrite E8, E9 in E7. lra.
Qed.

(** The product that [round_step_size] rounds last is below the
    quantity by one step and two roundings at most. *)
Lemma step_product_lower (q s t f : float) (n : Z) :
  F64.nonneg q = true -> F64.positive_finite s = true ->
  F64.truediv q s = Ok t -> F64.nonneg t = true ->
  F64.floor t = Ok n -> F64.of_int n = Ok f ->
  F64.to_Q q * (1 - F64.u) * (1 - F64.u) - F64.to_Q s <= F64.to_Q f * F64.to_Q s.
Proof.
  intros Hq Hs Ht Hts Hn Hf.
  pose proof (truediv_lower q s t Hq Hs Ht Hts) as Htl.
  pose proof (floor_nonneg _ _ Hts Hn) as Hn0.
  destruct (of_int_upper n f Hn0 Hf) as [Hfn _].
  pose proof (of_int_lower n f Hn0 Hf) as Hfl.
  pose proof (nonneg_to_Q q Hq) as HQ. pose proof (positive_to_Q s Hs) as HS.
  pose proof (nonneg_to_Q f Hfn) as HF.
  pose proof u_pos as Hu. pose proof eta_pos as He. pose proof eta_le_u as Heu.
  pose proof u_small as Hu1.
  destruct (floor_spec _ _ Hn) as [_ Hlt].
  rewrite inject_Z_plus in Hlt. change (inject_Z 1) with 1 in Hlt.
  assert (HV0 : 0 <= F64.to_Q q / F64.to_Q s).
  { apply Qle_shift_div_l; [exact HS|]. lra. }
  apply lower_rounded_sum in Htl; [|exact HV0].
  set (a := 1 - F64.u) in *.
  assert (Ha0 : 0 < a) by (unfold a; lra).
  assert (Ha1 : a <= 1) by (unfold a; lra).
  assert (HN0 : 0 <= inject_Z n) by (rewrite <- (Zle_Qle 0); exact Hn0).
  assert (Hfa : inject_Z n * a <= F64.to_Q f).
  { destruct (Z.eq_dec n 0%Z) as [->|Hnz].
    - injection Hf as <-. cbn [F64.to_Q]. change (inject_Z 0) with 0. lra.
    - apply lower_rounded_ge_1; [|exact Hfl]. rewrite <- (Zle_Qle 1). lia. }
  set (Q0 := F64.to_Q q) in *. set (S0 := F64.to_Q s) in *.
  set (N := inject_Z n) in *. set (F := F64.to_Q f) in *.
  set (T := F64.to_Q t) in *.
  assert (E1 : Q0 / S0 * a - F64.eta - 1 <= N) by lra.
  assert (E2 : (Q0 / S0 * a - F64.eta - 1) * (a * S0) <= N * (a * S0)).
  { apply Qmult_le_compat_r; [exact E1|]. nra. }
  assert (E3 : (Q0 / S0 * a - F64.eta - 1) * (a * S0)
               == Q0 * a * a - (F64.eta + 1) * a * S0) by (field; lra).
  assert (E4 : (F64.eta + 1) * a <= 1) by (unfold a; nra).
  assert (E5 : (F64.eta + 1) * a * S0 <= 1 * S0)
    by (apply Qmult_le_compat_r; lra).
  assert (E6 : N * a * S0 <= F * S0) by (apply Qmult_le_compat_r; lra).
  rewrite E3 in E2. lra.
Qed.

(** [round_step_size] on a non-negative quantity and a positive step:
    the result, when finite, is below the quantity by one step and three
    roundings at most. *)
Lemma round_step_size_lower (q s r : float) :
  F64.nonneg q = true -> F64.positive_finite s = true ->
  round_step_size q s = Ok r ->
  r = S754_infinity false \/
  F64.to_Q q * (1 - F64.u) * (1 - F64.u) * (1 - F64.u) - F64.to_Q s - F64.eta
  <= F64.to_Q r.
Proof.
  intros Hq Hs H. unfold round_step_size in H.
  destruct (F64.truediv q s) as [t|] eqn:Ht; [|discriminate].
  change (match F64.floor t with
          | Ok n => match F64.of_int n with
                    | Ok f => Ok (F64.mul f s)
                    | Raise e => Raise e
                    end
          | Raise e => Raise e
          end = Ok r) in H.
  destruct (F64.floor t) as [n|] eqn:Hn; [|discriminate].
  destruct (F64.of_int n) as [f|] eqn:Hf; [|discriminate].
  injection H as <-.
  destruct (truediv_upper q s t Hq Hs Ht) as [Hts _].
  destruct Hts as [Hts|Hts]; [|rewrite Hts in Hn; discriminate].
  destruct (step_product_bound q s t f n Hq Hs Ht Hts Hn Hf) as [Hfn _].
  pose proof (step_product_lower q s t f n Hq Hs Ht Hts Hn Hf) as HFS.
  assert (Hsn : F64.nonneg s = true) by (destruct s as [| | |[|]]; auto).
  destruct (mul_upper f s Hfn Hsn) as [Hrs _].
  destruct Hrs as [Hrs|Hrs]; [right|now left].
  pose proof (mul_lower f s Hfn Hsn Hrs) as Hrl.
  pose proof (nonneg_to_Q q Hq) as HQ. pose proof (positive_to_Q s Hs) as HS.
  pose proof (nonneg_to_Q f Hfn) as HF.
  pose proof u_pos as Hu. pose proof eta_pos as He. pose proof u_small as Hu1.
  assert (HFS0 : 0 <= F64.to_Q f * F64.to_Q s) by (apply Qmult_le_0_compat; lra).
  apply lower_rounded_sum in Hrl; [|exact HFS0].
  set (a := 1 - F64.u) in *.
  assert (Ha0 : 0 < a) by (unfold a; lra).
  assert (Ha1 : a <= 1) by (unfold a; lra).
  assert (E1 : (F64.to_Q q * a * a - F64.to_Q s) * a <= F64.to_Q f * F64.to_Q s * a)
    by (apply Qmult_le_compat_r; lra).
  assert (E2 : F64.to_Q s * a <= F64.to_Q s) by nra.
  lra.
Qed.

(** The cleanup rounding of a positive quantity: the result is below
    the quantity by half a unit of the last kept digit and one rounding
    at most. *)
Lemma round_lower (m : positive) (e : Z) (d : nat) (r : float) :
  F64.round (S754_finite false m e) d = Ok r ->
  (F64.to_Q (S754_finite false m e) - (1 # 2) / inject_Z (10 ^ Z.of_nat d))
  * (1 - F64.u) - F64.eta <= F64.to_Q r.
Proof.
  cbn [F64.round]. unfold F64.of_decimal.
  pose proof (scaled_digits_spec m e d) as Hspec.
  apply Qabs_Qle_condition in Hspec. destruct Hspec as [Hspec _].
  unfold scaled in Hspec.
  set (X := F64.to_Q (S754_finite false m e)) in *.
  assert (HX : 0 <= X) by (apply (nonneg_to_Q (S754_finite false m e)); reflexivity).
  assert (Hten : (0 < 10 ^ Z.of_nat d)%Z) by (apply Z.pow_pos_nonneg; lia).
  set (T := inject_Z (10 ^ Z.of_nat d)) in *.
  assert (HT : 0 < T) by (unfold T; now rewrite <- (Zlt_Qlt 0)).
  pose proof u_pos as Hu. pose proof eta_pos as He. pose proof u_small as Hu1.
  assert (Hsplit : (X - (1 # 2) / T) * T == X * T - (1 # 2)) by (field; lra).
  assert (Hzero : forall s, inject_Z (F64.scaled_digits m e d) <= 0 ->
            (X - (1 # 2) / T) * (1 - F64.u) - F64.eta <= F64.to_Q (S754_zero s)).
  { intros s HN. cbn [F64.to_Q].
    assert (Hle : X - (1 # 2) / T <= 0).
    { apply Qmult_le_r with T; [exact HT|]. rewrite Hsplit. lra. }
    nra. }
  destruct (F64.scaled_digits m e d) as [|n|n] eqn:EN;
    try (intros [= <-]; apply Hzero; rewrite <- (Zle_Qle _ 0); lia).
  pose proof (div_upper n 0 (Z.to_pos (10 ^ Z.of_nat d)) 0) as [H1 _].
  pose proof (div_lower n 0 (Z.to_pos (10 ^ Z.of_nat d)) 0) as H2.
  cbv zeta in *. rewrite Z2Pos.id in H2 by exact Hten. fold T in H2.
  destruct H1 as [H1|H1]; [|rewrite H1; discriminate].
  specialize (H2 H1).
  assert (HV : X - (1 # 2) / T <= inject_Z (Z.pos n) * 2 ^ 0 / (T * 2 ^ 0)).
  { change (2 ^ 0) with 1. rewrite !Qmult_1_r.
    apply Qle_shift_div_l; [exact HT|]. rewrite Hsplit. lra. }
  assert (HV0 : 0 <= inject_Z (Z.pos n) * 2 ^ 0 / (T * 2 ^ 0)).
  { change (2 ^ 0) with 1. rewrite !Qmult_1_r.
    apply Qle_shift_div_l; [exact HT|]. rewrite Qmult_0_l.
    now rewrite <- (Zle_Qle 0). }
  pose proof (lower_rounded_sum _ _ HV0 H2) as Hsum.
  assert (H5 : (X - (1 # 2) / T) * (1 - F64.u)
               <= inject_Z (Z.pos n) * 2 ^ 0 / (T * 2 ^ 0) * (1 - F64.u))
    by (apply Qmult_le_compat_r; lra).
  destruct (SFdiv _ _ _ _) as [s0|s0| |s0 m0 e0] eqn:ES; try discriminate;
    intros [= <-]; lra.
Qed.

End Rounding.

(** ** The arithmetic at well-known values *)

(** [0.1 * 3] is [0.30000000000000004]. *)
Example mul_0_1_by_3 :
  F64.mul Dbl.d0_1 (Dbl.pos 6755399441055744 (-51)) = Dbl.pos 5404319552844596 (-54).
Proof. vm_compute. reflexivity. Qed.

(** [1 / 3] on two [int]s is [0.3333333333333333]. *)
Example int_truediv_1_3 :
  F64.int_truediv 1 3 = Ok (Dbl.pos 6004799503160661 (-54)).
Proof. vm_compute. reflexivity. Qed.

(** [round(2.675, 2)] is [2.67]: the double 2.675 lies below the tie. *)
Example round_2_675 :
  F64.round (Dbl.pos 6023564501608038 (-51)) 2 = Ok (Dbl.pos 6012305502539612 (-51)).
Proof. vm_compute. reflexivity. Qed.

(** Ties go to even: [round(0.5, 0)] is [0.0], [round(1.5, 0)] is [2.0]. *)
Example round_ties_to_even :
  F64.round (Dbl.pos 4503599627370496 (-53)) 0 = Ok (S754_zero false) /\
  F64.round Dbl.d1_5 0 = Ok (Dbl.pos 4503599627370496 (-51)).
Proof. split; vm_compute; reflexivity. Qed.

(** [truncate(0.29, 2)] is [0.28]: [0.29 * 100] is [28.999999999999996]. *)
Example truncate_0_29 :
  truncate (Dbl.pos 5224175567749775 (-54)) 2 = Ok (Dbl.pos 5044031582654956 (-54)).
Proof. vm_compute. reflexivity. Qed.

(** [math.floor] of [-1.5] is [-2]. *)
Example floor_minus_1_5 :
  F64.floor (S754_finite true 6755399441055744 (-52)) = Ok (-2).
Proof. vm_compute. reflexivity. Qed.

Example format_10f_values :
  format_10f Dbl.d1_23456 = "1.2345600000" /\
  format_10f Dbl.d0_01 = "0.0100000000" /\
  format_10f Dbl.d100 = "100.0000000000" /\
  format_10f (S754_infinity false) = "inf".
Proof. repeat split; vm_compute; reflexivity. Qed.

(** ** Quantization utilities *)

(** C6, as the code has it.  When [truncate(x, d)] returns, it returns
    the [int / int] quotient of [n] by [10^d] as a double, where [n] is
    the floor (toward negative infinity, never to nearest) of the
    binary64 product of [x] and [10^d]: [n <= fl(x * 10^d) < n + 1].  The
    floor is taken of the rounded product, so the result can exceed [x];
    for [x >= 0] it is non-negative and exceeds [x] by three roundings at
    most: [truncate(x, d) <= x * (1 + 2^-53)^3 + 2^-1075]. *)
Theorem truncate_floor_within_rounding (x : float) (d : nat) (r : float) :
  truncate x d = Ok r ->
  (exists (f : float) (n : Z),
     F64.of_int (10 ^ Z.of_nat d) = Ok f /\
     F64.floor (F64.mul x f) = Ok n /\
     (inject_Z n <= F64.to_Q (F64.mul x f))%Q /\
     (F64.to_Q (F64.mul x f) < inject_Z (n + 1))%Q /\
     F64.int_truediv n (10 ^ Z.of_nat d) = Ok r) /\
  (F64.nonneg x = true ->
   F64.nonneg r = true /\
   (F64.to_Q r
    <= F64.to_Q x * (1 + F64.u) * (1 + F64.u) * (1 + F64.u) + F64.eta)%Q).
Proof.
  intros H. split.
  - unfold truncate in H.
    destruct (F64.of_int (10 ^ Z.of_nat d)) as [f|] eqn:Hf; [|discriminate].
    cbn [mbind result_bind rbind] in H.
    destruct (F64.floor (F64.mul x f)) as [n|] eqn:Hn; [|discriminate].
    cbn [mbind result_bind rbind] in H.
    exists f, n. destruct (floor_spec _ _ Hn). auto.
  - intros Hx. now apply (truncate_upper x d r).
Qed.

(** At the argument of the counterexample below: 0.9 exceeds
    0.8999999999999999, within the bound. *)
Lemma truncate_floor_within_rounding_witness :
  truncate Dbl.d0_9_pred 1 = Ok Dbl.d0_9 /\
  F64.nonneg Dbl.d0_9 = true /\
  (F64.to_Q Dbl.d0_9
   <= F64.to_Q Dbl.d0_9_pred * (1 + F64.u) * (1 + F64.u) * (1 + F64.u)
      + F64.eta)%Q.
Proof.
  split; [vm_compute; reflexivity|].
  apply (truncate_floor_within_rounding Dbl.d0_9_pred 1 Dbl.d0_9).
  - vm_compute. reflexivity.
  - reflexivity.
Defined.

(** C6 fails as stated: [truncate(0.8999999999999999, 1)] is [0.9], which
    exceeds its argument.  The product with 10 rounds up to [9.0]. *)
Lemma truncate_exceeds_argument :
  F64.valid Dbl.d0_9_pred = true /\
  truncate Dbl.d0_9_pred 1 = Ok Dbl.d0_9 /\
  F64.ltb Dbl.d0_9_pred Dbl.d0_9 = true /\
  (F64.to_Q Dbl.d0_9_pred < F64.to_Q Dbl.d0_9)%Q.
Proof.
  repeat split; vm_compute; reflexivity.
Qed.

(** C7, as the code has it.  When [round_step_size(q, s)] returns, [s] is
    not zero and the result is the binary64 product of [n] and [s], where
    [n] is the floor of the binary64 quotient of [q] by [s]:
    [n <= fl(q / s) < n + 1].  The floor is taken of the rounded quotient,
    so the result can exceed [q]; for [q >= 0] and a finite [s > 0] it is
    infinite or exceeds [q] by three roundings at most:
    [round_step_size(q, s) <= q * (1 + 2^-53)^3 + 2^-1075]. *)
Theorem round_step_size_floor_within_rounding (q s r : float) :
  round_step_size q s = Ok r ->
  (F64.is_zero s = false /\
   exists (n : Z) (f : float),
     F64.floor (SFdiv F64.prec F64.emax q s) = Ok n /\
     (inject_Z n <= F64.to_Q (SFdiv F64.prec F64.emax q s))%Q /\
     (F64.to_Q (SFdiv F64.prec F64.emax q s) < inject_Z (n + 1))%Q /\
     F64.of_int n = Ok f /\
     r = F64.mul f s) /\
  (F64.nonneg q = true -> F64.positive_finite s = true ->
   r = S754_infinity false \/
   (F64.nonneg r = true /\
    (F64.to_Q r
     <= F64.to_Q q * (1 + F64.u) * (1 + F64.u) * (1 + F64.u) + F64.eta)%Q)).
Proof.
  intros H. split.
  - unfold round_step_size, F64.truediv in H.
    destruct (F64.is_zero s) eqn:Hs; [discriminate|].
    cbn [mbind result_bind rbind] in H.
    destruct (F64.floor _) as [n|] eqn:Hn; [|discriminate].
    cbn [mbind result_bind rbind] in H.
    destruct (F64.of_int n) as [f|] eqn:Hf; [|discriminate].
    cbn [mbind result_bind rbind] in H. injection H as <-.
    split; [reflexivity|]. exists n, f.
    destruct (floor_spec _ _ Hn). auto.
  - intros Hq Hs. now apply (round_step_size_upper q s r).
Qed.

(** At the arguments of the counterexample below: 1.7000000000000002
    exceeds 1.7, within the bound. *)
Lemma round_step_size_floor_within_rounding_witness :
  round_step_size Dbl.d1_7 Dbl.d0_1 = Ok Dbl.d1_7_succ /\
  (Dbl.d1_7_succ = S754_infinity false \/
   (F64.nonneg Dbl.d1_7_succ = true /\
    (F64.to_Q Dbl.d1_7_succ
     <= F64.to_Q Dbl.d1_7 * (1 + F64.u) * (1 + F64.u) * (1 + F64.u)
        + F64.eta)%Q)).
Proof.
  split; [vm_compute; reflexivity|].
  apply (round_step_size_floor_within_rounding Dbl.d1_7 Dbl.d0_1 Dbl.d1_7_succ).
  - vm_compute. reflexivity.
  - reflexivity.
  - reflexivity.
Defined.

(** C7 fails as stated: [round_step_size(1.7, 0.1)] is
    [1.7000000000000002], which exceeds the quantity.  The quotient rounds
    up to [17.0]. *)
Lemma round_step_size_exceeds_quantity :
  F64.valid Dbl.d1_7 = true /\ F64.valid Dbl.d0_1 = true /\
  round_step_size Dbl.d1_7 Dbl.d0_1 = Ok Dbl.d1_7_succ /\
  F64.ltb Dbl.d1_7 Dbl.d1_7_succ = true /\
  (F64.to_Q Dbl.d1_7 < F64.to_Q Dbl.d1_7_succ)%Q.
Proof.
  repeat split; vm_compute; reflexivity.
Qed.

(** ** The decimal count derived from the step *)

Section StepString.

Local Open Scope nat_scope.

Implicit Types (s a b : string) (c : ascii) (p : ascii -> bool).

Lemma rstrip_by_cons p c s :
  Str.rstrip_by p (String c s)
  = match Str.rstrip_by p s with
    | EmptyString => if p c then EmptyString else String c EmptyString
    | r => String c r
    end.
Proof. reflexivity. Qed.

Lemma rstrip_by_keep p c s :
  p c = false -> Str.rstrip_by p (String c s) = String c (Str.rstrip_by p s).
Proof.
  intros H. simpl. rewrite H. now destruct (Str.rstrip_by p s).
Qed.

Lemma rstrip_by_app_keep p a c s :
  p c = false ->
  Str.rstrip_by p (a ++ String c s) = (a ++ String c (Str.rstrip_by p s))%string.
Proof.
  intros H. induction a as [|x a IH].
  - now apply rstrip_by_keep.
  - change (String x a ++ String c s)%string
      with (String x (a ++ String c s)).
    rewrite rstrip_by_cons, IH. now destruct a.
Qed.

Lemma rstrip_by_length p s : String.length (Str.rstrip_by p s) <= String.length s.
Proof.
  induction s as [|x s IH]; simpl; [lia|].
  destruct (Str.rstrip_by p s); [destruct (p x)|]; simpl in *; lia.
Qed.

Lemma contains_app c a b :
  Str.contains c (a ++ b) = Str.contains c a || Str.contains c b.
Proof.
  induction a as [|x a IH]; simpl; [reflexivity|].
  now rewrite IH, orb_assoc.
Qed.

Lemma contains_rstrip_by p c s :
  Str.contains c s = false -> Str.contains c (Str.rstrip_by p s) = false.
Proof.
  induction s as [|x s IH]; simpl; [reflexivity|].
  intros [Hx Hs]%orb_false_elim. specialize (IH Hs).
  destruct (Str.rstrip_by p s); [destruct (p x)|]; simpl in *;
    rewrite ?Hx, ?IH; reflexivity.
Qed.

Lemma split_absent c s : Str.contains c s = false -> Str.split c s = [s].
Proof.
  induction s as [|x s IH]; simpl; [reflexivity|].
  intros [Hx Hs]%orb_false_elim. now rewrite Hx, (IH Hs).
Qed.

Lemma split_once c a s :
  Str.contains c a = false -> Str.contains c s = false ->
  Str.split c (a ++ String c s) = [a; s].
Proof.
  intros Ha Hs. induction a as [|x a IH]; simpl.
  - now rewrite Ascii.eqb_refl, split_absent.
  - simpl in Ha. apply orb_false_elim in Ha as [Hx Ha].
    now rewrite Hx, (IH Ha).
Qed.

Lemma length_app a b :
  String.length (a ++ b) = String.length a + String.length b.
Proof.
  induction a as [|x a IH]; simpl; [reflexivity|]. now rewrite IH.
Qed.

Lemma append_assoc a b s : ((a ++ b) ++ s = a ++ (b ++ s))%string.
Proof.
  induction a as [|x a IH]; [reflexivity|].
  exact (f_equal (String x) IH).
Qed.

Lemma digits_length k n : String.length (Str.digits k n) = k.
Proof.
  revert n. induction k as [|k IH]; intros n; [reflexivity|].
  cbn [Str.digits]. rewrite length_app, IH. cbn [String.length]. lia.
Qed.

Lemma digit_not_dot d : (0 <= d < 10)%Z -> Ascii.eqb "." (Str.digit d) = false.
Proof.
  intros H.
  assert (Hd : (d = 0 \/ d = 1 \/ d = 2 \/ d = 3 \/ d = 4 \/ d = 5 \/ d = 6
                \/ d = 7 \/ d = 8 \/ d = 9)%Z) by lia.
  repeat (destruct Hd as [->|Hd]; [reflexivity|]). now subst.
Qed.

Lemma digits_no_dot k n : Str.contains "." (Str.digits k n) = false.
Proof.
  revert n. induction k as [|k IH]; intros n; [reflexivity|].
  cbn [Str.digits]. rewrite contains_app, IH. cbn [Str.contains orb].
  rewrite digit_not_dot; [reflexivity|].
  apply Z.mod_pos_bound. lia.
Qed.

Lemma uint_no_dot u : Str.contains "." (NilEmpty.string_of_uint u) = false.
Proof.
  induction u; simpl; auto.
Qed.

Lemma of_int_no_dot n : Str.contains "." (Str.of_int n) = false.
Proof.
  unfold Str.of_int, NilZero.string_of_int, NilZero.string_of_uint.
  destruct (Z.to_int n) as [u|u]; destruct u; simpl; auto using uint_no_dot.
Qed.

Lemma step_decimals_finite (sg : bool) (m : positive) (e : Z) :
  step_decimals (S754_finite sg m e)
  = Ok (String.length (kept_digits (F64.scaled_digits m e 10))).
Proof.
  unfold step_decimals, format_10f, kept_digits, Str.rstrip.
  set (n := F64.scaled_digits m e 10).
  set (pre := ((if sg then "-" else "") ++ Str.of_int (n / 10 ^ 10))%string).
  assert (Hpre : Str.contains "." pre = false).
  { unfold pre. rewrite contains_app, of_int_no_dot. now destruct sg. }
  replace ((if sg then "-" else "") ++ Str.of_int (n / 10 ^ 10) ++ "."
           ++ Str.digits 10 (n mod 10 ^ 10))%string
    with (pre ++ String "." (Str.digits 10 (n mod 10 ^ 10)))%string.
  2:{ unfold pre. now rewrite append_assoc. }
  rewrite rstrip_by_app_keep by reflexivity.
  rewrite contains_app. cbn [Str.contains].
  rewrite Ascii.eqb_refl, orb_true_r.
  rewrite split_once; auto using contains_rstrip_by, digits_no_dot.
Qed.

Lemma kept_digits_length n : String.length (kept_digits n) <= 10.
Proof.
  unfold kept_digits, Str.rstrip.
  etransitivity; [apply rstrip_by_length|]. now rewrite digits_length.
Qed.

End StepString.

(** The derivation of the decimals returns for every step. *)
Lemma step_decimals_returns (step_size : float) :
  exists d : nat, step_decimals step_size = Ok d /\ (d <= 10)%nat.
Proof.
  destruct step_size as [s|s| |s m e].
  - exists 0%nat. destruct s; split; auto; lia.
  - exists 0%nat. destruct s; split; auto; lia.
  - exists 0%nat. split; auto; lia.
  - eexists. split; [apply step_decimals_finite|apply kept_digits_length].
Qed.

Lemma scaled_digits_small (m : positive) (e : Z) :
  (F64.to_Q (S754_finite false m e) < 5 # 100000000000)%Q ->
  F64.scaled_digits m e 10 = 0.
Proof.
  unfold F64.to_Q, F64.scaled_digits.
  change (F64.signed false m) with (Z.pos m).
  destruct (Z.leb_spec 0 e) as [He|He].
  - unfold Qlt, inject_Z; cbn [Qnum Qden].
    assert (0 < 2 ^ e) by (apply Z.pow_pos_nonneg; lia). nia.
  - assert (Hd : 0 < 2 ^ (- e)) by (apply Z.pow_pos_nonneg; lia).
    unfold Qlt; cbn [Qnum Qden]. rewrite Zpos_to_pos_pow2 by lia.
    set (d := 2 ^ (- e)) in *. intros H.
    unfold F64.nearest_even.
    change (10 ^ Z.of_nat 10) with 10000000000.
    assert (Hn : 0 <= Z.pos m * 10000000000 < d) by lia.
    rewrite (Z.div_small _ _ Hn), (Z.mod_small _ _ Hn).
    destruct (Z.compare_spec (2 * (Z.pos m * 10000000000)) d); [reflexivity| |]; lia.
Qed.

(** C10, as the code has it.  For every [step_size] the derivation
    returns a count between 0 and 10.  A positive step below [5e-11],
    half of [1e-10], renders as [0.0000000000] and yields 0 decimals. *)
Theorem step_decimals_range (step_size : float) :
  exists d : nat,
    step_decimals step_size = Ok d /\
    (d <= 10)%nat /\
    ((0 < F64.to_Q step_size)%Q ->
     (F64.to_Q step_size < 5 # 100000000000)%Q -> d = 0%nat).
Proof.
  destruct step_size as [s|s| |s m e].
  - exists 0%nat. destruct s; repeat split; auto; lia.
  - exists 0%nat. destruct s; repeat split; auto; lia.
  - exists 0%nat. repeat split; auto; lia.
  - eexists. split; [apply step_decimals_finite|].
    split; [apply kept_digits_length|].
    intros Hpos Hsmall. destruct s.
    + exfalso. revert Hpos. unfold F64.to_Q, F64.signed, cond_Zopp.
      destruct (0 <=? e); unfold Qlt; simpl; lia.
    + now rewrite scaled_digits_small.
Qed.

Lemma step_decimals_range_witness :
  step_decimals Dbl.d1e_11 = Ok 0%nat /\
  exists d : nat,
    step_decimals Dbl.d1e_11 = Ok d /\ (d <= 10)%nat /\ d = 0%nat.
Proof.
  split; [vm_compute; reflexivity|].
  destruct (step_decimals_range Dbl.d1e_11) as (d & Hd & Hle & Hz).
  exists d. repeat split; [exact Hd | exact Hle |].
  apply Hz; vm_compute; reflexivity.
Defined.

(** C10 fails as stated: the step [9e-11] is smaller than [1e-10], it
    renders as [0.0000000001] and yields 10 decimals, not 0. *)
Lemma step_below_1e_10_keeps_10_decimals :
  F64.valid Dbl.d9e_11 = true /\
  (0 < F64.to_Q Dbl.d9e_11)%Q /\
  (F64.to_Q Dbl.d9e_11 < 1 # 10000000000)%Q /\
  format_10f Dbl.d9e_11 = "0.0000000001" /\
  step_decimals Dbl.d9e_11 = Ok 10%nat.
Proof.
  repeat split; vm_compute; reflexivity.
Qed.

(** ** The cleanup rounding of the sell quantity *)

(** C5 fails as stated: with the step [1e-11] the balance [0.7] is
    stepped to [0.7], the step renders as [0.0000000000] and yields 0
    decimals, and the cleanup turns [0.7] into [1.0]. *)
Lemma cleanup_increases_quantity :
  F64.valid Dbl.d0_7 = true /\ F64.valid Dbl.d1e_11 = true /\
  round_step_size Dbl.d0_7 Dbl.d1e_11 = Ok Dbl.d0_7 /\
  step_decimals Dbl.d1e_11 = Ok 0%nat /\
  F64.round Dbl.d0_7 0 = Ok Dbl.d1 /\
  F64.ltb Dbl.d0_7 Dbl.d1 = true /\
  (F64.to_Q Dbl.d0_7 + (1 # 4) < F64.to_Q Dbl.d1)%Q.
Proof.
  repeat split; vm_compute; reflexivity.
Qed.

(** ** The sizing arithmetic returns *)

Section Amounts.

Local Open Scope Q_scope.

(** X12.  [truncate(x, d)] returns, and returns a finite non-negative
    float, for every non-negative [x] and every [d <= 291] with
    [x * 10^d] below [2^960]: none of its three steps overflows. *)
Theorem truncate_returns_unless_huge (x : float) (d : nat) :
  F64.nonneg x = true -> (d <= 291)%nat ->
  F64.to_Q x * inject_Z (10 ^ Z.of_nat d) < 2 ^ 960 ->
  exists r, truncate x d = Ok r /\ F64.nonneg r = true.
Proof.
  intros Hx Hd Hbig.
  destruct (truncate_returns x d Hx Hd (Qlt_le_weak _ _ Hbig)) as [r Hr].
  exists r. split; [exact Hr|].
  now destruct (truncate_upper x d r Hx Hr).
Qed.

(** X13.  The spend of a buy order never exceeds the balance: for every
    non-negative balance [B] below [2^950], [truncate(B * 0.98, 2)]
    returns a non-negative float that is at most [B].  The three
    roundings on the way stay within the two percent kept back; a
    balance so small that they would not is spent to zero. *)
Theorem buy_spend_within_balance (B : float) :
  F64.nonneg B = true -> F64.to_Q B < 2 ^ 950 ->
  exists spend,
    truncate (F64.mul B F64.c0_98) 2 = Ok spend /\
    F64.nonneg spend = true /\
    F64.to_Q spend <= F64.to_Q B.
Proof.
  intros HB Hbig.
  destruct (kept_back B HB Hbig) as [HX HX1].
  destruct (spend_returns B HB Hbig) as (spend & Hs & Hsn).
  exists spend. split; [exact Hs|]. split; [exact Hsn|].
  pose proof (nonneg_to_Q B HB) as HB0.
  pose proof u_pos as Hu. pose proof eta_pos as He. pose proof u_small as Hu1.
  pose proof eta_small as He1.
  set (X := F64.mul B F64.c0_98) in *.
  pose proof (nonneg_to_Q X HX) as HX0.
  assert (Ha : (1 + F64.u) <= 1001 # 1000) by lra.
  assert (Ha0 : 0 <= 1 + F64.u) by lra.
  destruct (truncate_upper X 2 spend HX Hs) as [_ Hsu].
  destruct (Qlt_le_dec (F64.to_Q B) (2 ^ (-1000))) as [Hsmall|Hlarge].
  - (* the product floors to zero *)
    destruct (truncate_steps X 2 spend Hs) as (f & n & Hf & Hn & Hr).
    change (10 ^ Z.of_nat 2)%Z with 100%Z in *.
    destruct (of_int_upper 100 f ltac:(lia) Hf) as [Hfn Hfu].
    apply upper_rounded_ge_1 in Hfu; [|discriminate].
    change (inject_Z 100) with 100 in Hfu.
    pose proof (nonneg_to_Q f Hfn) as HF0.
    destruct (mul_upper X f HX Hfn) as [[Hm|Hm] Hmu]; [|rewrite Hm in Hn; discriminate].
    specialize (Hmu Hm).
    assert (HXf0 : 0 <= F64.to_Q X * F64.to_Q f) by (apply Qmult_le_0_compat; lra).
    apply (upper_rounded_sum _ _ HXf0) in Hmu.
    assert (Htiny : 2 ^ (-1000) <= 1 # 1000)
      by (apply Qle_bool_imp_le; vm_compute; reflexivity).
    assert (HXs : F64.to_Q X <= 2 # 1000) by lra.
    assert (Hfs : F64.to_Q f <= 101) by lra.
    pose proof (Qmult_le_both _ _ _ _ HX0 HXs HF0 Hfs) as Hp.
    pose proof (Qmult_le_both _ _ _ _ HXf0 Hp Ha0 Ha) as Hp'.
    assert (Hlt : F64.to_Q (F64.mul X f) < 1) by lra.
    rewrite (floor_below_1 _ _ Hm Hlt Hn) in Hr.
    injection Hr as <-. exact HB0.
  - (* three roundings stay below the two percent kept back *)
    set (a := 1 + F64.u) in *.
    pose proof (Qmult_le_both _ _ _ _ HX0 HX1 Ha0 Ha) as H2.
    assert (H20 : 0 <= F64.to_Q X * a) by (apply Qmult_le_0_compat; lra).
    pose proof (Qmult_le_both _ _ _ _ H20 H2 Ha0 Ha) as H3.
    assert (H30 : 0 <= F64.to_Q X * a * a) by (apply Qmult_le_0_compat; lra).
    pose proof (Qmult_le_both _ _ _ _ H30 H3 Ha0 Ha) as H4.
    lra.
Qed.

(** X14.  The quantity of a sell order is computed for every
    non-negative balance [Q] and every finite positive step [s] with
    [Q] and [Q / s] below [2^950]: [round_step_size], the derivation of
    the decimals and the cleanup rounding all return, the decimals are
    at most 10, and the stepped and the final quantity are finite and
    non-negative. *)
Theorem sell_quantity_returns (Q s : float) :
  F64.nonneg Q = true -> F64.positive_finite s = true ->
  F64.to_Q Q < 2 ^ 950 -> F64.to_Q Q / F64.to_Q s < 2 ^ 950 ->
  exists (stepped : float) (d : nat) (qty : float),
    round_step_size Q s = Ok stepped /\
    step_decimals s = Ok d /\ (d <= 10)%nat /\
    F64.round stepped d = Ok qty /\
    F64.nonneg stepped = true /\ F64.nonneg qty = true.
Proof.
  intros HQ Hs Hbig Hquot.
  destruct (round_step_size_returns Q s HQ Hs) as (stepped & Hst & Hstn & Hstb);
    [now apply Qlt_le_weak..|].
  destruct (step_decimals_returns s) as (d & Hd & Hle).
  destruct (round_returns stepped d Hstn) as (qty & Hqty & Hqn).
  { apply (Qle_trans _ _ _ Hstb). apply p2_le. lia. }
  exists stepped, d, qty. auto 10.
Qed.

(** X20.  [truncate(x, d)] on a non-negative [x] drops less than one
    unit of the last kept decimal: when it returns [r], then
    [x * (1 - 2^-53)^3 - 10^-d - 2^-1075 <= r].  The three factors are
    the three roundings of the helper, the unit is what the floor may
    take. *)
Theorem truncate_drops_less_than_one_unit (x : float) (d : nat) (r : float) :
  F64.nonneg x = true ->
  truncate x d = Ok r ->
  F64.to_Q x * (1 - F64.u) * (1 - F64.u) * (1 - F64.u)
  - 1 / inject_Z (10 ^ Z.of_nat d) - F64.eta <= F64.to_Q r.
Proof.
  intros Hx H. now apply truncate_lower.
Qed.

(** X21.  A buy order spends 98 percent of the balance, less a cent at
    most: for every non-negative balance [B] below [2^950],
    [truncate(B * 0.98, 2)] returns a spend with
    [0.98 * B * (1 - 2^-50) - 0.01 <= spend]. *)
Theorem buy_spend_reaches_98_percent (B : float) :
  F64.nonneg B = true -> F64.to_Q B < 2 ^ 950 ->
  exists spend,
    truncate (F64.mul B F64.c0_98) 2 = Ok spend /\
    (98 # 100) * F64.to_Q B * (1 - 2 ^ (-50)) - (1 # 100) <= F64.to_Q spend.
Proof.
  intros HB Hbig.
  destruct (kept_back B HB Hbig) as [HX _].
  destruct (spend_returns B HB Hbig) as (spend & Hs & Hsn).
  exists spend. split; [exact Hs|].
  pose proof (nonneg_to_Q B HB) as HB0. pose proof (nonneg_to_Q spend Hsn) as Hs0.
  pose proof (truncate_lower _ 2 spend HX Hs) as Hlow.
  change (1 / inject_Z (10 ^ Z.of_nat 2)) with (1 # 100) in Hlow.
  assert (Hc : F64.nonneg F64.c0_98 = true) by reflexivity.
  pose proof (mul_lower B F64.c0_98 HB Hc HX) as Hm.
  pose proof c0_98_bounds as [Hc0 _].
  apply lower_rounded_sum in Hm; [|apply Qmult_le_0_compat; assumption].
  pose proof u_pos as Hu. pose proof eta_pos as He. pose proof u_small as Hu1.
  set (a := 1 - F64.u) in *.
  assert (Ha0 : 0 < a) by (unfold a; lra).
  assert (Ha1 : a <= 1) by (unfold a; lra).
  set (Y := F64.to_Q (F64.mul B F64.c0_98)) in *.
  set (b := F64.to_Q B) in *. set (c := F64.to_Q F64.c0_98) in *.
  destruct (Qlt_le_dec b (1 # 100)) as [Hsmall|Hlarge].
  - (* the bound is negative *)
    assert (H50 : 0 <= 1 - 2 ^ (-50) /\ 1 - 2 ^ (-50) <= 1)
      by (split; apply Qle_bool_imp_le; vm_compute; reflexivity).
    nra.
  - assert (E1 : (b * c * a - F64.eta) * a <= Y * a)
      by (apply Qmult_le_compat_r; lra).
    assert (E2 : (b * c * a - F64.eta) * a * a <= Y * a * a)
      by (apply Qmult_le_compat_r; lra).
    assert (E3 : (b * c * a - F64.eta) * a * a * a <= Y * a * a * a)
      by (apply Qmult_le_compat_r; lra).
    assert (E4 : F64.eta * a * a * a <= F64.eta).
    { assert (F64.eta * a <= F64.eta) by nra.
      assert (F64.eta * a * a <= F64.eta * a) by nra.
      assert (F64.eta * a * a * a <= F64.eta * a * a) by nra. lra. }
    assert (E5 : (98 # 100) * (1 - 2 ^ (-50)) + (1 # 100) * 2 ^ (-52)
                 <= c * a * a * a * a).
    { apply Qle_bool_imp_le. vm_compute. reflexivity. }
    assert (E6 : 2 * F64.eta <= (1 # 100) * ((1 # 100) * 2 ^ (-52))).
    { apply Qle_bool_imp_le. vm_compute. reflexivity. }
    assert (E7 : b * ((98 # 100) * (1 - 2 ^ (-50)) + (1 # 100) * 2 ^ (-52))
                 <= b * (c * a * a * a * a)).
    { rewrite !(Qmult_comm b). apply Qmult_le_compat_r; lra. }
    assert (E8 : (1 # 100) * ((1 # 100) * 2 ^ (-52)) <= b * ((1 # 100) * 2 ^ (-52))).
    { apply Qmult_le_compat_r; [exact Hlarge|].
      apply Qle_bool_imp_le. vm_compute. reflexivity. }
    lra.
Qed.

(** X22.  [round_step_size(q, s)] on a non-negative [q] and a finite
    positive [s] drops less than one step: the result is infinite or
    [q * (1 - 2^-53)^3 - s - 2^-1075 <= round_step_size(q, s)]. *)
Theorem round_step_size_drops_less_than_one_step (q s r : float) :
  F64.nonneg q = true -> F64.positive_finite s = true ->
  round_step_size q s = Ok r ->
  r = S754_infinity false \/
  F64.to_Q q * (1 - F64.u) * (1 - F64.u) * (1 - F64.u) - F64.to_Q s - F64.eta
  <= F64.to_Q r.
Proof.
  intros Hq Hs H. now apply round_step_size_lower.
Qed.

(** X23.  The quantity of a sell order against the balance: for every
    non-negative balance [Q] and every finite positive step [s] with
    [Q] and [Q / s] below [2^950], the stepping, the decimals [d] and
    the cleanup rounding return a quantity [qty] with
    [(Q * (1 - u)^3 - s - eta - 10^-d / 2) * (1 - u) - eta <= qty] and
    [qty <= (Q * (1 + u)^3 + eta + 10^-d / 2) * (1 + u) + eta], where
    [u = 2^-53] and [eta = 2^-1075]: one step and half a unit of the
    last kept decimal below the balance at most, and half a unit above
    it at most, up to four roundings. *)
Theorem sell_quantity_near_balance (Q s : float) :
  F64.nonneg Q = true -> F64.positive_finite s = true ->
  F64.to_Q Q < 2 ^ 950 -> F64.to_Q Q / F64.to_Q s < 2 ^ 950 ->
  exists (stepped : float) (d : nat) (qty : float),
    round_step_size Q s = Ok stepped /\
    step_decimals s = Ok d /\
    F64.round stepped d = Ok qty /\
    (F64.to_Q Q * (1 - F64.u) * (1 - F64.u) * (1 - F64.u) - F64.to_Q s - F64.eta
     - (1 # 2) / inject_Z (10 ^ Z.of_nat d)) * (1 - F64.u) - F64.eta
    <= F64.to_Q qty /\
    F64.to_Q qty
    <= (F64.to_Q Q * (1 + F64.u) * (1 + F64.u) * (1 + F64.u) + F64.eta
        + (1 # 2) / inject_Z (10 ^ Z.of_nat d)) * (1 + F64.u) + F64.eta.
Proof.
  intros HQ Hs Hbig Hquot.
  destruct (round_step_size_returns Q s HQ Hs) as (stepped & Hst & Hstn & Hstb);
    [now apply Qlt_le_weak..|].
  destruct (step_decimals_returns s) as (d & Hd & Hle).
  destruct (round_returns stepped d Hstn) as (qty & Hqty & Hqn).
  { apply (Qle_trans _ _ _ Hstb). apply p2_le. lia. }
  exists stepped, d, qty. split; [exact Hst|]. split; [exact Hd|].
  split; [exact Hqty|].
  destruct (round_step_size_lower Q s stepped HQ Hs Hst) as [Hinf|Hlo];
    [rewrite Hinf in Hstn; discriminate|].
  destruct (round_step_size_upper Q s stepped HQ Hs Hst) as [Hinf|[_ Hup]];
    [rewrite Hinf in Hstn; discriminate|].
  pose proof u_pos as Hu. pose proof eta_pos as He. pose proof u_small as Hu1.
  assert (Hten : (0 < 10 ^ Z.of_nat d)%Z) by (apply Z.pow_pos_nonneg; lia).
  set (T := inject_Z (10 ^ Z.of_nat d)) in *.
  assert (HT : 0 < T) by (unfold T; now rewrite <- (Zlt_Qlt 0)).
  assert (Hh : 0 <= (1 # 2) / T) by (apply Qle_shift_div_l; lra).
  set (h := (1 # 2) / T) in *.
  set (lo := F64.to_Q Q * (1 - F64.u) * (1 - F64.u) * (1 - F64.u)
             - F64.to_Q s - F64.eta) in *.
  set (hi := F64.to_Q Q * (1 + F64.u) * (1 + F64.u) * (1 + F64.u) + F64.eta) in *.
  pose proof (nonneg_to_Q stepped Hstn) as Hst0.
  destruct stepped as [sg|sg| |[|] m e]; try discriminate.
  - (* a stepped quantity of zero is returned as it is *)
    cbn [F64.round] in Hqty. injection Hqty as <-. cbn [F64.to_Q] in *.
    split; nra.
  - pose proof (round_lower m e d qty Hqty) as Hrl.
    destruct (round_upper m e d qty Hqty) as [_ Hru].
    fold T in Hrl, Hru. fold h in Hrl, Hru.
    set (X := F64.to_Q (S754_finite false m e)) in *.
    assert (E1 : (lo - h) * (1 - F64.u) <= (X - h) * (1 - F64.u))
      by (apply Qmult_le_compat_r; lra).
    assert (E2 : (X + h) * (1 + F64.u) <= (hi + h) * (1 + F64.u))
      by (apply Qmult_le_compat_r; lra).
    split; lra.
Qed.

End Amounts.

(** ** The exceptions of the helpers *)

Lemma of_int_raises (n : Z) (e : pyerr) : F64.of_int n = Raise e -> e = OverflowError.
Proof.
  unfold F64.of_int. destruct (binary_normalize _ _ _ _ _); congruence.
Qed.

Lemma floor_raises (x : float) (e : pyerr) :
  F64.floor x = Raise e -> e = OverflowError \/ e = ValueError.
Proof.
  destruct x as [s|s| |s m e']; cbn [F64.floor]; try (intros [= <-]; auto); try discriminate.
  destruct (0 <=? e'); discriminate.
Qed.

Lemma int_truediv_raises (a b : Z) (e : pyerr) :
  b <> 0 -> F64.int_truediv a b = Raise e -> e = OverflowError.
Proof.
  intros Hb. unfold F64.int_truediv.
  destruct b as [|pb|pb]; [congruence| |]; unfold Z.abs; cbv iota;
    destruct a as [|pa|pa]; try discriminate;
    destruct (SFdiv _ _ _ _); congruence.
Qed.

(** X16.  What the two helpers raise.  [truncate] raises nothing but
    [OverflowError] and [ValueError]: its divisor [10^d] is never zero.
    [round_step_size] raises [ZeroDivisionError] exactly when the step
    is a zero, whatever the quantity, and [OverflowError] or
    [ValueError] otherwise. *)
Theorem quantization_error_kinds :
  (forall x d e, truncate x d = Raise e -> e = OverflowError \/ e = ValueError) /\
  (forall q s e,
     round_step_size q s = Raise e ->
     if F64.is_zero s then e = ZeroDivisionError
     else e = OverflowError \/ e = ValueError) /\
  (forall q s, F64.is_zero s = true -> round_step_size q s = Raise ZeroDivisionError).
Proof.
  split; [|split].
  - intros x d e. unfold truncate. cbv zeta. unfold mbind, result_bind, rbind.
    destruct (F64.of_int (10 ^ Z.of_nat d)) as [f|e0] eqn:Hf.
    + destruct (F64.floor (F64.mul x f)) as [n|e1] eqn:Hn.
      * intros H. left. apply (int_truediv_raises n (10 ^ Z.of_nat d)); [|exact H].
        pose proof (pow10_ge_1 d). lia.
      * intros [= <-]. now apply floor_raises in Hn.
    + intros [= <-]. left. now apply of_int_raises in Hf.
  - intros q s e. unfold round_step_size, F64.truediv.
    unfold mbind, result_bind, rbind.
    destruct (F64.is_zero s); [now intros [= <-]|].
    destruct (F64.floor (SFdiv F64.prec F64.emax q s)) as [n|e1] eqn:Hn.
    + destruct (F64.of_int n) as [f|e2] eqn:Hf; [discriminate|].
      intros [= <-]. left. now apply of_int_raises in Hf.
    + intros [= <-]. now apply floor_raises in Hn.
  - intros q s Hs. unfold round_step_size, F64.truediv. now rewrite Hs.
Qed.

(** ** The signal dispatcher *)

Lemma orders_app (l1 l2 : list call) :
  orders (l1 ++ l2) = (orders l1 ++ orders l2)%list.
Proof.
  induction l1 as [|c l1 IH]; [reflexivity|].
  destruct c; simpl; now rewrite IH.
Qed.

(** Case analysis on the computation in hypothesis [H], one scrutinee at
    a time, until it is a pair. *)
Ltac io_unfold H :=
  unfold mbind, mret, io_bind, io_ret, result_bind, result_ret, rbind,
    try_except, client, pure, raise in H;
  cbv beta iota in H.

Ltac io_case H :=
  match type of H with
  | context [match ?x with _ => _ end] =>
      lazymatch x with
      | context [match _ with _ => _ end] => fail
      | _ => destruct x eqn:?
      end
  end;
  cbv beta iota in H.

Ltac io_done H := injection H as <- <-.

Ltac io_goal :=
  unfold mbind, mret, io_bind, io_ret, result_bind, result_ret, rbind,
    try_except, client, pure, raise;
  cbv beta iota.

Section Dispatcher.

Variables (cfg : Config) (ex : Exchange).

Lemma buy_sized (min_notional : option float) (log log' : list call) r :
  buy cfg ex min_notional log = (r, log') -> sized log log' r.
Proof.
  intros H. unfold buy, free in H. io_unfold H.
  repeat io_case H; io_done H; cbn [sized];
    rewrite ?orders_app, ?app_nil_r; cbn [orders]; rewrite ?app_nil_r; auto.
Qed.

Lemma sell_sized (step_size min_qty : option float) (log log' : list call) r :
  sell cfg ex step_size min_qty log = (r, log') -> sized log log' r.
Proof.
  intros H. unfold sell, free in H. io_unfold H.
  repeat io_case H; io_done H; cbn [sized];
    rewrite ?orders_app, ?app_nil_r; cbn [orders]; rewrite ?app_nil_r; auto.
Qed.

Lemma place_order_late text step_size min_qty min_notional log log' r :
  place_order cfg ex text step_size min_qty min_notional log = (r, log') ->
  late log log' r.
Proof.
  intros H. unfold place_order in H. io_unfold H.
  destruct (String.eqb text "buy");
    [ destruct (buy cfg ex min_notional log) as [r0 log0] eqn:Hs;
      apply buy_sized in Hs
    | destruct (sell cfg ex step_size min_qty log) as [r0 log0] eqn:Hs;
      apply sell_sized in Hs ];
    cbv beta iota in H; unfold on_exception in H; io_unfold H;
    (destruct r0 as [order|[[e|[m|m|m]]|st d]]; cbv beta iota in H;
     repeat io_case H; io_done H; cbn [late sized] in *; auto;
     try (repeat split; auto; discriminate));
    destruct Hs as (? & -> & ? & ?); repeat split; auto; lia.
Qed.

Lemma execute_late text log log' r :
  execute cfg ex text log = (r, log') -> late log log' r.
Proof.
  intros H. unfold execute, get_symbol_filters in H. io_unfold H.
  destruct (get_symbol_info ex (SYMBOL cfg)) as [[fs|]|e] eqn:Hinfo;
    cbv beta iota in H.
  - destruct (scan_filters fs (None, None, None)) as [[[ss mq] mn]|e] eqn:Hscan;
      cbv beta iota in H.
    + apply place_order_late in H. unfold late in *.
      rewrite orders_app in H. cbn [orders] in H. rewrite app_nil_r in H.
      exact H.
    + io_done H. cbn [late]. now rewrite orders_app, app_nil_r.
  - io_done H. cbn [late]. rewrite orders_app, app_nil_r.
    repeat split; auto; lia.
  - io_done H. cbn [late]. now rewrite orders_app, app_nil_r.
Qed.

Lemma webhook_late request st d log :
  serve cfg ex request = (Raise (HTTPException st d), log) ->
  (rejection d = true -> orders log = []) /\
  (early d = true -> log = []) /\
  (st = 401 \/ d = Ungueltiger_Token -> token_configured cfg <> None).
Proof.
  intros H. unfold serve, webhook, token_check in H. io_unfold H.
  repeat io_case H;
    first
      [ apply execute_late in H; destruct H as (He & Hst & Ho);
        split; [exact Ho|];
        split; [intros He'; congruence|];
        intros [?|?]; subst; [lia | discriminate]
      | inversion H; subst; repeat split; auto; try discriminate;
        intros [?|?]; (lia || discriminate) ].
Qed.

(** A request that dies of an exception the handler does not turn into
    an [HTTPException] has submitted no order either. *)
Lemma unhandled_exception_submits_no_order request f log :
  serve cfg ex request = (Raise (Fault f), log) -> orders log = [].
Proof.
  intros H. unfold serve, webhook, token_check in H. io_unfold H.
  repeat io_case H;
    first
      [ apply execute_late in H; exact H
      | inversion H; subst; reflexivity ].
Qed.

(** *** Order sizing *)

Ltac io_rw E := rewrite E; cbv beta iota.

(** The handler up to the sizing, for an authorized payload whose
    action text and filters are known. *)
Lemma serve_sizing (body : json) (text : string) (fs : list Filter)
    (step_size min_qty min_notional : option float) :
  authorized cfg body ->
  action_text body = Ok text ->
  is_action text = true ->
  get_symbol_info ex (SYMBOL cfg) = Ok (Some fs) ->
  scan_filters fs (None, None, None) = Ok (step_size, min_qty, min_notional) ->
  serve cfg ex (post body)
  = place_order cfg ex text step_size min_qty min_notional
      [GetSymbolInfo (SYMBOL cfg)].
Proof.
  intros Hauth Htext Hact Hinfo Hscan.
  unfold serve, webhook, post. io_goal. cbn [request_json].
  io_rw (Hauth []). io_rw Htext. io_rw Hact. cbn [negb].
  unfold execute, get_symbol_filters. io_goal.
  io_rw Hinfo. io_rw Hscan. reflexivity.
Qed.

(** C1.  A buy signal with quote balance [B] spends
    [truncate(B * 0.98, 2)]: it is rejected with the balance error when
    the spend is below a known [minNotional] or below 5, and otherwise
    submits one market buy order whose [quoteOrderQty] is the spend. *)
Theorem buy_signal_sizing (body : json) (fs : list Filter)
    (step_size min_qty min_notional : option float) (B spend : float) :
  authorized cfg body ->
  action_text body = Ok "buy" ->
  get_symbol_info ex (SYMBOL cfg) = Ok (Some fs) ->
  scan_filters fs (None, None, None) = Ok (step_size, min_qty, min_notional) ->
  get_asset_balance ex (QUOTE_ASSET cfg) = Ok (Some B) ->
  truncate (F64.mul B F64.c0_98) 2 = Ok spend ->
  let reads := [GetSymbolInfo (SYMBOL cfg); GetAssetBalance (QUOTE_ASSET cfg)] in
  let req := {| o_symbol := SYMBOL cfg; o_side := SIDE_BUY;
                o_size := quoteOrderQty spend |} in
  (forall mn, min_notional = Some mn -> F64.ltb spend mn = true ->
     serve cfg ex (post body)
     = (Raise (HTTPException 400 (Guthaben_zu_gering_minNotional spend mn)), reads)) /\
  (below spend min_notional = false -> F64.ltb spend F64.c5 = true ->
     serve cfg ex (post body)
     = (Raise (HTTPException 400 (Guthaben_zu_gering B)), reads)) /\
  (below spend min_notional = false -> F64.ltb spend F64.c5 = false ->
     (serve cfg ex (post body)).2 = (reads ++ [CreateOrder req])%list /\
     orders (serve cfg ex (post body)).2 = [req]).
Proof.
  intros Hauth Htext Hinfo Hscan Hbal Hspend reads req.
  rewrite (serve_sizing body "buy" fs step_size min_qty min_notional)
    by auto.
  unfold place_order, buy, free, on_exception. io_goal.
  change (String.eqb "buy" "buy") with true. cbv beta iota.
  io_rw Hbal. io_rw Hspend.
  split; [|split].
  - intros mn -> Hlt. io_rw Hlt. reflexivity.
  - intros Hmn Hlt. unfold below in Hmn.
    destruct min_notional as [mn|]; [io_rw Hmn|]; io_rw Hlt; reflexivity.
  - intros Hmn Hlt. unfold below in Hmn.
    destruct min_notional as [mn|]; [io_rw Hmn|]; io_rw Hlt;
      fold req; destruct (create_order ex req) as [o|[m|m|m]];
      cbv beta iota; try destruct (feedback cfg "buy" o); split; reflexivity.
Qed.

(** C2.  A sell signal without a step size or a minimum quantity is
    rejected before the balance is read.  Otherwise the base balance
    [Q] is stepped with [round_step_size], re-rounded to the decimals
    of the step, rejected when the quantity is below the minimum, and
    else submitted as one market sell order sized by that quantity.
    The balance 1.23456 with step 0.01 and minimum 0.01 gives 1.23,
    which is accepted. *)
Theorem sell_signal_sizing (body : json) (fs : list Filter)
    (step_size min_qty min_notional : option float) :
  authorized cfg body ->
  action_text body = Ok "sell" ->
  get_symbol_info ex (SYMBOL cfg) = Ok (Some fs) ->
  scan_filters fs (None, None, None) = Ok (step_size, min_qty, min_notional) ->
  let reads := [GetSymbolInfo (SYMBOL cfg); GetAssetBalance (BASE_ASSET cfg)] in
  (step_size = None \/ min_qty = None ->
     serve cfg ex (post body)
     = (Raise (HTTPException 400 LOT_SIZE_nicht_bestimmt),
        [GetSymbolInfo (SYMBOL cfg)])) /\
  (forall (s mq Q stepped qty : float) (d : nat),
     step_size = Some s -> min_qty = Some mq ->
     get_asset_balance ex (BASE_ASSET cfg) = Ok (Some Q) ->
     round_step_size Q s = Ok stepped ->
     step_decimals s = Ok d ->
     F64.round stepped d = Ok qty ->
     let req := {| o_symbol := SYMBOL cfg; o_side := SIDE_SELL;
                   o_size := quantity qty |} in
     (F64.ltb qty mq = true ->
        serve cfg ex (post body)
        = (Raise (HTTPException 400 (Zu_wenig (BASE_ASSET cfg) qty mq)), reads)) /\
     (F64.ltb qty mq = false ->
        (serve cfg ex (post body)).2 = (reads ++ [CreateOrder req])%list /\
        orders (serve cfg ex (post body)).2 = [req])) /\
  (round_step_size Dbl.d1_23456 Dbl.d0_01 = Ok Dbl.d1_23 /\
   step_decimals Dbl.d0_01 = Ok 2%nat /\
   F64.round Dbl.d1_23 2 = Ok Dbl.d1_23 /\
   F64.ltb Dbl.d1_23 Dbl.d0_01 = false).
Proof.
  intros Hauth Htext Hinfo Hscan reads.
  rewrite (serve_sizing body "sell" fs step_size min_qty min_notional)
    by auto.
  unfold place_order, sell, free, on_exception. io_goal.
  change (String.eqb "sell" "buy") with false. cbv beta iota.
  split; [|split].
  - intros [-> | ->]; [|destruct step_size]; reflexivity.
  - intros s mq Q stepped qty d -> -> Hbal Hstep Hd Hqty. cbv zeta.
    io_rw Hbal. io_rw Hstep. io_rw Hd. io_rw Hqty.
    split; intros Hlt; io_rw Hlt; [reflexivity|].
    destruct (create_order ex _) as [o|[m|m|m]];
      cbv beta iota; try destruct (feedback cfg "sell" o); split; reflexivity.
  - repeat split; vm_compute; reflexivity.
Qed.

(** C3, where the code departs from it.  With a known step of zero the
    sell branch reads the balance, then divides by the step:
    [round_step_size] raises [ZeroDivisionError], reported as the
    status 500. *)
Theorem zero_step_reaches_division (body : json) (fs : list Filter)
    (sg : bool) (min_qty : float) (min_notional : option float) (Q : float) :
  authorized cfg body ->
  action_text body = Ok "sell" ->
  get_symbol_info ex (SYMBOL cfg) = Ok (Some fs) ->
  scan_filters fs (None, None, None)
  = Ok (Some (S754_zero sg), Some min_qty, min_notional) ->
  get_asset_balance ex (BASE_ASSET cfg) = Ok (Some Q) ->
  round_step_size Q (S754_zero sg) = Raise ZeroDivisionError /\
  serve cfg ex (post body)
  = (Raise (HTTPException 500 (Server_error (Builtin ZeroDivisionError))),
     [GetSymbolInfo (SYMBOL cfg); GetAssetBalance (BASE_ASSET cfg)]).
Proof.
  intros Hauth Htext Hinfo Hscan Hbal.
  assert (Hdiv : round_step_size Q (S754_zero sg) = Raise ZeroDivisionError)
    by reflexivity.
  split; [exact Hdiv|].
  rewrite (serve_sizing body "sell" fs _ _ _ Hauth Htext eq_refl Hinfo Hscan).
  unfold place_order, sell, free, on_exception. io_goal.
  change (String.eqb "sell" "buy") with false. cbv beta iota.
  io_rw Hbal. io_rw Hdiv. reflexivity.
Qed.

(** *** Rejections and the exchange *)

(** C4.  A request that ends in a rejection has submitted no order;
    the rejections for a wrong token and for an unrecognized action
    (and for a malformed payload) come before any exchange call. *)
Theorem rejection_precedes_order_submission
    (request : Request) (st : Z) (d : Detail) (log : list call) :
  serve cfg ex request = (Raise (HTTPException st d), log) ->
  rejection d = true ->
  orders log = [] /\
  (d = Ungueltiger_Token \/ d = Erwarte_buy_oder_sell \/ d = Invalid_JSON ->
   log = []).
Proof.
  intros H Hrej. destruct (webhook_late _ _ _ _ H) as (Ho & He & _).
  split; [auto|]. intros [->| [->| ->]]; now apply He.
Qed.

(** *** The action text *)

Lemma is_action_spec (text : string) :
  is_action text = true <-> text = "buy" \/ text = "sell".
Proof.
  unfold is_action. rewrite orb_true_iff, !String.eqb_eq. reflexivity.
Qed.

Lemma action_text_first (d : gmap string json) :
  action_text (JDict d) = strip_lower (first_non_empty d ["message"; "action"]).
Proof.
  unfold action_text, dict_get. cbn [first_non_empty].
  unfold mbind, result_bind, rbind.
  destruct (d !! "message") as [m|]; cbn [default from_option id truthy];
    [destruct (truthy m); [reflexivity|]|];
    (destruct (d !! "action") as [a|]; cbn [default from_option id truthy];
     [destruct (truthy a)|]; reflexivity).
Qed.

(** The handler up to the check of the action text. *)
Lemma serve_action (body : json) (text : string) :
  authorized cfg body ->
  action_text body = Ok text ->
  serve cfg ex (post body)
  = if is_action text then execute cfg ex text []
    else (Raise (HTTPException 400 Erwarte_buy_oder_sell), []).
Proof.
  intros Hauth Htext. unfold serve, webhook, post. io_goal. cbn [request_json].
  io_rw (Hauth []). io_rw Htext. now destruct (is_action text).
Qed.

(** Every exchange session starts with the symbol lookup. *)
Lemma execute_starts (text : string) (r : result exn Response) (log : list call) :
  execute cfg ex text [] = (r, log) ->
  exists rest, log = GetSymbolInfo (SYMBOL cfg) :: rest.
Proof.
  intros H. unfold execute, get_symbol_filters in H. io_unfold H.
  destruct (get_symbol_info ex (SYMBOL cfg)) as [[fs|]|e];
    cbv beta iota in H; [|inversion H; eauto..].
  destruct (scan_filters fs (None, None, None)) as [[[ss mq] mn]|e];
    cbv beta iota in H; [|inversion H; eauto].
  unfold place_order, buy, sell, free, on_exception in H. io_unfold H.
  repeat io_case H; inversion H; eauto.
Qed.

Lemma token_check_insert (d : gmap string json) (key : string) (v : json) :
  key <> "token" ->
  token_check cfg (JDict (<[key := v]> d)) = token_check cfg (JDict d).
Proof.
  intros Hk. unfold token_check, dict_get. now rewrite lookup_insert_ne.
Qed.

Lemma action_text_message (d : gmap string json) (s : string) :
  s <> "" ->
  action_text (JDict (<["message" := JStr s]> d)) = Ok (Str.lower (Str.strip s)).
Proof.
  intros Hs. unfold action_text, dict_get. rewrite lookup_insert_eq.
  apply String.eqb_neq in Hs.
  unfold mbind, result_bind, rbind.
  cbn [default from_option id truthy]. rewrite Hs. reflexivity.
Qed.

(** C8.  The action text is the first non-empty of ["message"] and
    ["action"], stripped and lowercased.  The request goes on to the
    exchange exactly when that text is ["buy"] or ["sell"], and is
    rejected as unrecognized otherwise.  A message that normalizes to
    ["buy"] is handled as ["buy"] itself. *)
Theorem action_text_decides_dispatch (d : gmap string json) :
  action_text (JDict d) = strip_lower (first_non_empty d ["message"; "action"]) /\
  (forall text : string,
     authorized cfg (JDict d) ->
     action_text (JDict d) = Ok text ->
     (text = "buy" \/ text = "sell" ->
        serve cfg ex (post (JDict d)) = execute cfg ex text [] /\
        exists rest,
          (serve cfg ex (post (JDict d))).2 = GetSymbolInfo (SYMBOL cfg) :: rest) /\
     (~ (text = "buy" \/ text = "sell") ->
        serve cfg ex (post (JDict d))
        = (Raise (HTTPException 400 Erwarte_buy_oder_sell), []))) /\
  (forall s : string,
     Str.lower (Str.strip s) = "buy" ->
     serve cfg ex (post (JDict (<["message" := JStr s]> d)))
     = serve cfg ex (post (JDict (<["message" := JStr "buy"]> d)))).
Proof.
  split; [apply action_text_first|]. split.
  - intros text Hauth Htext. rewrite (serve_action _ _ Hauth Htext).
    split; intros Hact.
    + apply is_action_spec in Hact. rewrite Hact. split; [reflexivity|].
      destruct (execute cfg ex text []) as [r log] eqn:Hrun.
      apply execute_starts in Hrun. exact Hrun.
    + destruct (is_action text) eqn:Hb; [|reflexivity].
      apply is_action_spec in Hb. contradiction.
  - intros s Hs.
    assert (Hne : s <> "") by (intros ->; discriminate Hs).
    unfold serve, webhook, post. io_goal. cbn [request_json].
    rewrite !token_check_insert by discriminate.
    rewrite (action_text_message d s Hne), Hs.
    rewrite (action_text_message d "buy") by discriminate.
    reflexivity.
Qed.

(** *** The token field without a configured token *)

Lemma action_text_delete_token (d : gmap string json) :
  action_text (JDict (delete "token" d)) = action_text (JDict d).
Proof.
  unfold action_text, dict_get. now rewrite !lookup_delete_ne.
Qed.

(** C9.  Without a configured token two payloads that differ in the
    token field only are served alike, and no request is answered with
    the status 401 or the token error. *)
Theorem token_field_ignored_without_token (d1 d2 : gmap string json) :
  token_configured cfg = None ->
  delete "token" d1 = delete "token" d2 ->
  serve cfg ex (post (JDict d1)) = serve cfg ex (post (JDict d2)) /\
  (forall (request : Request) (st : Z) (dt : Detail) (log : list call),
     serve cfg ex request = (Raise (HTTPException st dt), log) ->
     st <> 401 /\ dt <> Ungueltiger_Token).
Proof.
  intros Hcfg Hd. split.
  - unfold serve, webhook, post, token_check. rewrite Hcfg.
    io_goal. cbn [request_json].
    rewrite <- (action_text_delete_token d1), <- (action_text_delete_token d2).
    now rewrite Hd.
  - intros request st dt log H.
    destruct (webhook_late _ _ _ _ H) as (_ & _ & Ht).
    split; intros ->; apply Ht; auto.
Qed.

End Dispatcher.

(** ** The filter lookup *)

Lemma scan_filter_cases (f : Filter) (st : filters_state) :
  match scan_filter f st with
  | Ok st' =>
      incomplete_lot_size f = false /\
      (st'.1.1, st'.1.2)
      = (if is_lot_size f then (stepSize f, minQty f) else (st.1.1, st.1.2)) /\
      st'.2 = (if carries_min_notional f then minNotional f else st.2)
  | Raise e => e = KeyError /\ incomplete_lot_size f = true
  end.
Proof.
  destruct st as [[s q] n].
  unfold scan_filter, incomplete_lot_size, carries_min_notional, is_lot_size.
  unfold mbind, result_bind, rbind, getitem.
  destruct (is_type f "LOT_SIZE"); cbn [andb].
  - destruct (stepSize f), (minQty f); cbn; auto.
    destruct (is_type f "MIN_NOTIONAL" || is_type f "NOTIONAL"), (minNotional f);
      cbn; auto.
  - cbn. destruct (is_type f "MIN_NOTIONAL" || is_type f "NOTIONAL"), (minNotional f);
      cbn; auto.
Qed.

(** The loop keeps what the last matching filters hold. *)
Lemma scan_filters_last_from (fs : list Filter) (st st' : filters_state) :
  scan_filters fs st = Ok st' ->
  (st'.1.1, st'.1.2)
  = match last_such is_lot_size fs with
    | Some f => (stepSize f, minQty f)
    | None => (st.1.1, st.1.2)
    end /\
  st'.2 = match last_such carries_min_notional fs with
          | Some f => minNotional f
          | None => st.2
          end.
Proof.
  revert st. induction fs as [|f fs IH]; intros st; cbn [scan_filters last_such].
  - intros [= <-]. auto.
  - unfold mbind, result_bind, rbind.
    pose proof (scan_filter_cases f st) as Hf.
    destruct (scan_filter f st) as [st1|e]; [|discriminate].
    destruct Hf as (_ & Hlot & Hnot). intros H. apply IH in H. destruct H as [H1 H2].
    split.
    + rewrite H1. destruct (last_such is_lot_size fs); [reflexivity|].
      rewrite Hlot. destruct (is_lot_size f); reflexivity.
    + rewrite H2. destruct (last_such carries_min_notional fs); [reflexivity|].
      rewrite Hnot. destruct (carries_min_notional f); reflexivity.
Qed.

Lemma last_such_Some (p : Filter -> bool) (fs : list Filter) (f : Filter) :
  last_such p fs = Some f -> In f fs /\ p f = true.
Proof.
  induction fs as [|g fs IH]; cbn [last_such]; [discriminate|].
  destruct (last_such p fs) as [h|].
  - intros [= ->]. destruct IH as [? ?]; auto. split; [now right|auto].
  - destruct (p g) eqn:E; [|discriminate]. intros [= ->]. split; [now left|auto].
Qed.

(** The loop raises on the first incomplete lot size filter, and on
    nothing else. *)
Lemma scan_filters_raise (fs : list Filter) (st : filters_state) :
  match scan_filters fs st with
  | Ok _ => existsb incomplete_lot_size fs = false
  | Raise e => e = KeyError /\ existsb incomplete_lot_size fs = true
  end.
Proof.
  revert st. induction fs as [|f fs IH]; intros st; cbn [scan_filters existsb].
  - reflexivity.
  - unfold mbind, result_bind, rbind.
    pose proof (scan_filter_cases f st) as Hf.
    destruct (scan_filter f st) as [st1|e].
    + destruct Hf as (-> & _). specialize (IH st1). cbn [orb].
      destruct (scan_filters fs st1) as [st2|e]; exact IH.
    + destruct Hf as (-> & ->). auto.
Qed.

Lemma scan_filters_complete (fs : list Filter) (st : filters_state) :
  existsb incomplete_lot_size fs = false ->
  exists st', scan_filters fs st = Ok st'.
Proof.
  intros Hc. pose proof (scan_filters_raise fs st) as H.
  destruct (scan_filters fs st) as [st'|e]; [eauto|].
  destruct H as (_ & H). congruence.
Qed.

(** X1.  When the exchange knows the symbol and every [LOT_SIZE] filter
    of its list carries both keys, [get_symbol_filters] makes the one
    call and returns the step and the minimum quantity of the last
    [LOT_SIZE] filter and the minimum of the last [MIN_NOTIONAL] or
    [NOTIONAL] filter that carries one, each [None] without such a
    filter; every other filter is skipped.  The step is unknown exactly
    when the minimum quantity is. *)
Theorem get_symbol_filters_reads_last_match
    (ex : Exchange) (symbol : string) (fs : list Filter) (log : list call) :
  get_symbol_info ex symbol = Ok (Some fs) ->
  existsb incomplete_lot_size fs = false ->
  get_symbol_filters ex symbol log
  = (Ok ((lot_of fs).1, (lot_of fs).2, min_notional_of fs),
     (log ++ [GetSymbolInfo symbol])%list) /\
  ((lot_of fs).1 = None <-> (lot_of fs).2 = None).
Proof.
  intros Hi Hc. split.
  - unfold get_symbol_filters. io_goal. rewrite Hi. cbv beta iota.
    destruct (scan_filters_complete fs (None, None, None) Hc) as [[[s q] n] Hs].
    rewrite Hs. cbv beta iota.
    destruct (scan_filters_last_from _ _ _ Hs) as [H1 H2]. cbn [fst snd] in H1, H2.
    unfold lot_of, min_notional_of. rewrite <- H1, <- H2. reflexivity.
  - unfold lot_of. destruct (last_such is_lot_size fs) as [f|] eqn:E; [|tauto].
    apply last_such_Some in E. destruct E as [Hin Hl].
    assert (Hf : incomplete_lot_size f = false).
    { destruct (incomplete_lot_size f) eqn:Ef; [|reflexivity].
      assert (existsb incomplete_lot_size fs = true)
        by (apply existsb_exists; eauto).
      congruence. }
    unfold incomplete_lot_size in Hf. rewrite Hl in Hf.
    cbn [andb fst snd] in *. destruct (stepSize f), (minQty f); try discriminate.
    split; discriminate.
Qed.

(** X2.  When [get_symbol_filters] raises it has made its one call, and
    the exception is one of three: the status 400 for a symbol the
    exchange does not know, the exception of the exchange itself, passed
    on as it is, or the [KeyError] of a [LOT_SIZE] filter that lacks
    its ["stepSize"] or its ["minQty"]. *)
Theorem get_symbol_filters_failures
    (ex : Exchange) (symbol : string) (log log' : list call) (e : exn) :
  get_symbol_filters ex symbol log = (Raise e, log') ->
  log' = (log ++ [GetSymbolInfo symbol])%list /\
  ((e = HTTPException 400 (Symbol_nicht_gefunden symbol) /\
    get_symbol_info ex symbol = Ok None) \/
   (exists b, e = Fault (Binance b) /\ get_symbol_info ex symbol = Raise b) \/
   (e = Fault (Builtin KeyError) /\
    exists fs, get_symbol_info ex symbol = Ok (Some fs) /\
               existsb incomplete_lot_size fs = true)).
Proof.
  unfold get_symbol_filters. io_goal.
  destruct (get_symbol_info ex symbol) as [[fs|]|b] eqn:Hi; cbv beta iota.
  - pose proof (scan_filters_raise fs (None, None, None)) as Hs.
    destruct (scan_filters fs (None, None, None)) as [st|k]; cbv beta iota;
      [discriminate|].
    intros [= <- <-]. split; [reflexivity|]. right. right.
    destruct Hs as (-> & Hinc). eauto.
  - intros [= <- <-]. auto.
  - intros [= <- <-]. split; [reflexivity|]. right. left. eauto.
Qed.

(** ** The calls of a request and its answer *)

Section Sessions.

Variables (cfg : Config) (ex : Exchange).

Lemma buy_trace (min_notional : option float) (log log' : list call) r :
  buy cfg ex min_notional log = (r, log') ->
  exists l, log' = (log ++ l)%list /\ sizing_trace cfg ex "buy" r l.
Proof.
  intros H. unfold buy, free in H. io_unfold H.
  repeat io_case H; io_done H; rewrite <- ?app_assoc; cbn [app];
    eexists; (split; [reflexivity|]); cbn [sizing_trace];
    unfold accepted_at, failed_at, stopped_at;
    change (asset_of cfg "buy") with (QUOTE_ASSET cfg);
    unfold raises, answers; eauto 12.
Qed.

Lemma sell_trace (step_size min_qty : option float) (log log' : list call) r :
  sell cfg ex step_size min_qty log = (r, log') ->
  exists l, log' = (log ++ l)%list /\ sizing_trace cfg ex "sell" r l.
Proof.
  intros H. unfold sell, free in H. io_unfold H.
  repeat io_case H; io_done H; rewrite <- ?app_assoc; cbn [app];
    try (exists []; rewrite app_nil_r; split; [reflexivity|];
         cbn [sizing_trace]; unfold stopped_at; now auto 10);
    eexists; (split; [reflexivity|]); cbn [sizing_trace];
    unfold accepted_at, failed_at, stopped_at;
    change (asset_of cfg "sell") with (BASE_ASSET cfg);
    unfold raises, answers; eauto 12.
Qed.

Lemma is_action_cases (text : string) :
  is_action text = true -> text = "buy" \/ text = "sell".
Proof. apply is_action_spec. Qed.

Lemma place_order_trace text step_size min_qty min_notional log log' r :
  is_action text = true ->
  place_order cfg ex text step_size min_qty min_notional log = (r, log') ->
  exists l, log' = (log ++ l)%list /\ placed_trace cfg ex text r l.
Proof.
  intros Hact H. unfold place_order in H. io_unfold H.
  assert (Hs : exists r0 log0,
             (if String.eqb text "buy" then buy cfg ex min_notional
              else sell cfg ex step_size min_qty) log = (r0, log0) /\
             exists l, log0 = (log ++ l)%list /\ sizing_trace cfg ex text r0 l).
  { destruct (is_action_cases text Hact) as [-> | ->].
    - destruct (buy cfg ex min_notional log) as [r0 log0] eqn:E.
      exists r0, log0. split; [exact E|]. now apply buy_trace in E.
    - destruct (sell cfg ex step_size min_qty log) as [r0 log0] eqn:E.
      exists r0, log0. split; [exact E|]. now apply sell_trace in E. }
  destruct Hs as (r0 & log0 & E & l & -> & Htr). rewrite E in H.
  cbv beta iota in H. unfold on_exception in H. io_unfold H.
  exists l.
  destruct r0 as [order|[[e|[m|m|m]]|st d]]; cbv beta iota in H.
  - destruct (feedback cfg text order) as [resp|e] eqn:Ef; cbv beta iota in H;
      io_done H; (split; [reflexivity|]); cbn [placed_trace sizing_trace] in *;
      eauto 10.
  - io_done H. split; [reflexivity|]. cbn [placed_trace sizing_trace] in *. auto.
  - io_done H. split; [reflexivity|]. cbn [placed_trace sizing_trace] in *. auto.
  - io_done H. split; [reflexivity|]. cbn [placed_trace sizing_trace] in *. auto.
  - io_done H. split; [reflexivity|]. cbn [placed_trace sizing_trace] in *. auto.
  - io_done H. split; [reflexivity|]. cbn [sizing_trace] in Htr.
    destruct Htr as (-> & Hrej & Hearly & Hl).
    destruct d; try discriminate; cbn [placed_trace]; auto.
Qed.

Lemma execute_cases text log log' r :
  execute cfg ex text log = (r, log') ->
  (log' = (log ++ [GetSymbolInfo (SYMBOL cfg)])%list /\ lookup_failure cfg ex r) \/
  (exists fs step_size min_qty min_notional,
     get_symbol_info ex (SYMBOL cfg) = Ok (Some fs) /\
     scan_filters fs (None, None, None) = Ok (step_size, min_qty, min_notional) /\
     place_order cfg ex text step_size min_qty min_notional
       (log ++ [GetSymbolInfo (SYMBOL cfg)])%list = (r, log')).
Proof.
  intros H. unfold execute, get_symbol_filters in H. io_unfold H.
  destruct (get_symbol_info ex (SYMBOL cfg)) as [[fs|]|e] eqn:Hinfo;
    cbv beta iota in H.
  - pose proof (scan_filters_raise fs (None, None, None)) as Hscan.
    destruct (scan_filters fs (None, None, None)) as [[[ss mq] mn]|e] eqn:Es;
      cbv beta iota in H.
    + right. exists fs, ss, mq, mn. auto.
    + left. io_done H. split; [reflexivity|]. unfold lookup_failure.
      destruct Hscan as (-> & Hi). right. right. eauto.
  - left. io_done H. split; [reflexivity|]. left. auto.
  - left. io_done H. split; [reflexivity|]. right. left. eauto.
Qed.

Lemma token_check_frame (body : json) (log l : list call) :
  token_check cfg body log = (Ok tt, l) -> authorized cfg body.
Proof.
  unfold authorized, token_check. destruct (token_configured cfg) as [t|]; [|reflexivity].
  io_goal. destruct (dict_get body "token") as [v|e]; cbv beta iota; [|discriminate].
  destruct (differs_from_str v t); [discriminate|reflexivity].
Qed.

Lemma action_text_raises (body : json) (e : pyerr) :
  action_text body = Raise e -> e = AttributeError.
Proof.
  unfold action_text, dict_get, strip_lower. unfold mbind, result_bind, rbind.
  destruct body; try (now intros [= <-]).
  repeat match goal with
         | |- context [match ?x with _ => _ end] =>
             lazymatch x with
             | context [match _ with _ => _ end] => fail
             | _ => destruct x
             end
         end; try discriminate; now intros [= <-].
Qed.

Lemma serve_cases request r log :
  serve cfg ex request = (r, log) ->
  (log = [] /\ turned_away cfg request r) \/
  (exists body text,
     request_json request = Some body /\ authorized cfg body /\
     action_text body = Ok text /\ is_action text = true /\
     execute cfg ex text [] = (r, log)).
Proof.
  intros H. unfold serve, webhook in H. unfold turned_away.
  destruct (request_json request) as [body|]; io_unfold H; [|left; io_done H; auto].
  destruct (token_check cfg body []) as [[[]|e] l] eqn:Htok; cbv beta iota in H.
  - assert (l = []) as ->.
    { pose proof (token_check_frame _ _ _ Htok []) as Ha. congruence. }
    apply token_check_frame in Htok.
    destruct (action_text body) as [text|e] eqn:Htext; cbv beta iota in H.
    + destruct (is_action text) eqn:Hact; cbn [negb] in H; cbv beta iota in H.
      * right. exists body, text. auto.
      * left. io_done H. split; [reflexivity|]. right. right. eauto.
    + left. io_done H. split; [reflexivity|]. right. left.
      now pose proof (action_text_raises _ _ Htext) as ->.
  - left. io_done H. unfold token_check in Htok.
    destruct (token_configured cfg) as [t|] eqn:Ht; [|discriminate].
    io_unfold Htok. unfold dict_get in Htok.
    destruct body; cbv beta iota in Htok;
      try (injection Htok as <- <-; split; [reflexivity|]; right; left; reflexivity).
    destruct (differs_from_str _ t); [|discriminate]. injection Htok as <- <-.
    split; [reflexivity|]. left. split; [reflexivity|discriminate].
Qed.

(** The whole handler, by where it stops. *)
Lemma serve_trace request r log :
  serve cfg ex request = (r, log) ->
  (log = [] /\ turned_away cfg request r) \/
  (exists body text,
     request_json request = Some body /\ authorized cfg body /\
     action_text body = Ok text /\ is_action text = true /\
     ((log = [GetSymbolInfo (SYMBOL cfg)] /\ lookup_failure cfg ex r) \/
      (exists fs step_size min_qty min_notional l,
         get_symbol_info ex (SYMBOL cfg) = Ok (Some fs) /\
         scan_filters fs (None, None, None) = Ok (step_size, min_qty, min_notional) /\
         log = GetSymbolInfo (SYMBOL cfg) :: l /\
         placed_trace cfg ex text r l))).
Proof.
  intros H. apply serve_cases in H.
  destruct H as [H|(body & text & Hb & Ha & Ht & Hact & H)]; [now left|right].
  exists body, text. repeat (split; [assumption|]).
  apply execute_cases in H.
  destruct H as [[-> H]|(fs & s & q & n & Hi & Hs & H)]; [now left|right].
  apply place_order_trace in H; [|exact Hact].
  destruct H as (l & -> & H). exists fs, s, q, n, l. auto.
Qed.

Lemma feedback_Ok text order resp :
  feedback cfg text order = Ok resp ->
  resp = {| r_status := "ok"; r_action := text; r_symbol := SYMBOL cfg;
            r_executedQty := executedQty order; r_side := side order;
            r_orderStatus := status order; r_avgPrice := first_price order |}.
Proof.
  unfold feedback, first_price, getitem. unfold mbind, result_bind, rbind.
  destruct (fills order) as [|f fs]; [now intros [= <-]|].
  destruct (price f); [now intros [= <-]|discriminate].
Qed.

Lemma answers_raises (c : call) (e : binance_exn) :
  answers ex c -> raises ex c e -> False.
Proof. destruct c; cbn; intros [v Hv] He; congruence. Qed.

Lemma raises_once (c : call) (e e' : binance_exn) :
  raises ex c e -> raises ex c e' -> e = e'.
Proof. destruct c; cbn; congruence. Qed.

(** The [try] statement ends in one of three ways: after an accepted
    order, at a call that failed, or at a stop of the handler's own. *)
Lemma placed_trace_cases text r l :
  placed_trace cfg ex text r l ->
  (exists order,
     accepted_at cfg ex text l order /\
     r = match feedback cfg text order with
         | Ok resp => Ok resp
         | Raise e => Raise (HTTPException 500 (Server_error (Builtin e)))
         end) \/
  (exists e, failed_at cfg ex text l e /\ r = Raise (reported e)) \/
  (exists st d, r = Raise (HTTPException st d) /\
                stopped_at cfg ex text l (is_guard d)).
Proof.
  destruct r as [resp|[f|st d]]; cbn [placed_trace].
  - intros (order & Ha & Hf). left. exists order. now rewrite Hf.
  - intros [].
  - destruct d;
      try (intros (_ & _ & _ & H); right; right; eauto; fail).
    + intros (-> & Hp & H). right. left. exists e. unfold reported. now rewrite Hp.
    + destruct e as [e|e].
      * intros (-> & [H|(order & Ha & Hf)]).
        -- right. right. eauto.
        -- left. exists order. now rewrite Hf.
      * intros (-> & Hp & H). right. left. exists e. unfold reported. now rewrite Hp.
Qed.

(** The calls of a request, by how far it got. *)
Lemma serve_calls request r log :
  serve cfg ex request = (r, log) ->
  log = [] \/
  exists body text,
    request_json request = Some body /\ authorized cfg body /\
    action_text body = Ok text /\ is_action text = true /\
    (log = [GetSymbolInfo (SYMBOL cfg)] \/
     log = [GetSymbolInfo (SYMBOL cfg); GetAssetBalance (asset_of cfg text)] \/
     exists amount, log = session cfg text amount).
Proof.
  intros H. apply serve_trace in H.
  destruct H as [[-> _]|(body & text & Hb & Ha & Ht & Hact & H)]; [now left|right].
  exists body, text. repeat (split; [assumption|]).
  destruct H as [[-> _]|(fs & s & q & n & l & Hi & Hs & -> & H)]; [now left|].
  apply placed_trace_cases in H.
  destruct H as [(order & (amount & -> & _) & _)
                |[(e & [[-> _]|(amount & -> & _)] & _)
                 |(st & d & _ & [[-> _]|[-> _]])]]; unfold session; eauto.
Qed.

(** X3.  An answer with the status ["ok"] stands for one accepted
    order.  The request carried a payload whose action text is the
    ["buy"] or ["sell"] the answer repeats; the calls were the symbol
    lookup, the read of the balance of the quote asset (buy) or of the
    base asset (sell) and one market order on the configured symbol, in
    this order; the exchange accepted the order, and the answer copies
    its executed quantity, side and status, and the price of its first
    fill ([None] without fills). *)
Theorem ok_answer_reports_one_order request resp log :
  serve cfg ex request = (Ok resp, log) ->
  exists body amount order,
    request_json request = Some body /\
    action_text body = Ok (r_action resp) /\
    (r_action resp = "buy" \/ r_action resp = "sell") /\
    log = session cfg (r_action resp) amount /\
    create_order ex (order_of cfg (r_action resp) amount) = Ok order /\
    resp = {| r_status := "ok"; r_action := r_action resp; r_symbol := SYMBOL cfg;
              r_executedQty := executedQty order; r_side := side order;
              r_orderStatus := status order; r_avgPrice := first_price order |}.
Proof.
  intros H. apply serve_trace in H.
  destruct H as [[_ H]|(body & text & Hb & Ha & Ht & Hact & H)].
  { unfold turned_away in H. destruct (request_json request).
    - destruct H as [[H _]|[H|[H _]]]; discriminate H.
    - discriminate H. }
  destruct H as [[_ H]|(fs & s & q & n & l & Hi & Hs & -> & H)].
  { destruct H as [[H _]|[(e & H & _)|[H _]]]; discriminate H. }
  cbn [placed_trace] in H. destruct H as (order & (amount & -> & _ & Hc) & Hf).
  apply feedback_Ok in Hf. pose proof Hf as Hf'. rewrite Hf'. cbn [r_action].
  exists body, amount, order. repeat split; auto using is_action_cases.
Qed.

(** X4.  Whatever the outcome, the calls of a request are an initial
    part of one session: the symbol lookup, the read of the one balance
    the action needs, one order.  No call is made unless the payload
    passed the token check and its action text is ["buy"] or ["sell"];
    no request submits more than one order. *)
Theorem calls_follow_one_session request r log :
  serve cfg ex request = (r, log) ->
  (length (orders log) <= 1)%nat /\
  (log = [] \/
   exists body text amount,
     request_json request = Some body /\ authorized cfg body /\
     action_text body = Ok text /\ (text = "buy" \/ text = "sell") /\
     log `prefix_of` session cfg text amount).
Proof.
  intros H. apply serve_calls in H.
  destruct H as [-> |(body & text & Hb & Ha & Ht & Hact & H)].
  { split; [cbn; lia|now left]. }
  apply is_action_cases in Hact.
  destruct H as [-> |[-> |(amount & ->)]]; (split; [cbn; lia|right]).
  - exists body, text, (S754_zero false). repeat (split; [assumption|]).
    unfold session. now eexists.
  - exists body, text, (S754_zero false). repeat (split; [assumption|]).
    unfold session. now eexists.
  - exists body, text, amount. repeat (split; [assumption|]). reflexivity.
Qed.

(** X5.  The status code of every [HTTPException] the handler raises
    follows from its [detail]: 401 for the token error, 500 for
    ["Server error"], 400 for every other one. *)
Theorem status_follows_detail request st d log :
  serve cfg ex request = (Raise (HTTPException st d), log) ->
  st = status_of d.
Proof.
  intros H. apply serve_trace in H.
  destruct H as [[_ H]|(body & text & Hb & Ha & Ht & Hact & H)].
  { unfold turned_away in H. destruct (request_json request).
    - destruct H as [[H _]|[H|[H _]]]; now inversion H.
    - now inversion H. }
  destruct H as [[_ H]|(fs & s & q & n & l & Hi & Hs & -> & H)].
  { destruct H as [[H _]|[(e & H & _)|[H _]]]; now inversion H. }
  cbn [placed_trace] in H.
  destruct d; try (destruct H as (H & _); exact H).
  - destruct H as (_ & _ & H & _). discriminate H.
  - destruct e; destruct H as (H & _); exact H.
Qed.

(** X6.  A call on which the exchange raises is the last call of the
    request, and the exception decides the answer.  Raised by the
    symbol lookup, which stands before the [try] statement, it leaves
    the handler as it is.  Raised by the balance read or by the order,
    a [BinanceAPIException] or a [BinanceOrderException] is answered
    with the status 400 and ["Binance Error"], a
    [BinanceRequestException], which no clause names, with the status
    500 and ["Server error"]. *)
Theorem exchange_failure_routing request r log c e :
  serve cfg ex request = (r, log) -> In c log -> raises ex c e ->
  last log = Some c /\
  r = Raise (match c with
             | GetSymbolInfo _ => Fault (Binance e)
             | _ => reported e
             end).
Proof.
  intros H Hin Hr. apply serve_trace in H.
  destruct H as [[-> _]|(body & text & Hb & Ha & Ht & Hact & H)]; [destruct Hin|].
  destruct H as [[-> H]|(fs & s & q & n & l & Hi & Hs & -> & H)].
  { destruct Hin as [<-|[]]. split; [reflexivity|]. cbn [raises] in Hr.
    destruct H as [[_ H]|[(e' & -> & H)|(_ & fs & H & _)]]; congruence. }
  destruct Hin as [<-|Hin]; [cbn [raises] in Hr; congruence|].
  apply placed_trace_cases in H.
  destruct H as [(order & (amount & -> & Hb1 & Hc) & _)
                |[(e' & [[-> Hf]|(amount & -> & Hb1 & Hf)] & ->)
                 |(st & d & -> & [[-> Hb1]|[-> _]])]].
  - destruct Hin as [<-|[<-|[]]]; [destruct (answers_raises _ _ Hb1 Hr)|].
    cbn [raises] in Hr. congruence.
  - destruct Hin as [<-|[]]. rewrite (raises_once _ _ _ Hr Hf). auto.
  - destruct Hin as [<-|[<-|[]]]; [destruct (answers_raises _ _ Hb1 Hr)|].
    rewrite (raises_once _ _ _ Hr Hf). auto.
  - destruct Hin as [<-|[]]. destruct (answers_raises _ _ Hb1 Hr).
  - destruct Hin.
Qed.

(** X7.  Once the exchange has accepted the order, the answer depends
    on the fills alone: the status ["ok"] with the price of the first
    fill, or with [None] when there is no fill; but the status 500 with
    the [KeyError] when the first fill carries no ["price"], although
    the order is executed. *)
Theorem answer_after_accepted_order request r log req order :
  serve cfg ex request = (r, log) ->
  In (CreateOrder req) log ->
  create_order ex req = Ok order ->
  match fills order with
  | fl :: _ =>
      match price fl with
      | Some p => exists resp, r = Ok resp /\ r_avgPrice resp = Some p
      | None => r = Raise (HTTPException 500 (Server_error (Builtin KeyError)))
      end
  | [] => exists resp, r = Ok resp /\ r_avgPrice resp = None
  end.
Proof.
  intros H Hin Hr. apply serve_trace in H.
  destruct H as [[-> _]|(body & text & Hb & Ha & Ht & Hact & H)]; [destruct Hin|].
  destruct H as [[-> H]|(fs & s & q & n & l & Hi & Hs & -> & H)].
  { destruct Hin as [Hin|[]]. discriminate Hin. }
  destruct Hin as [Hin|Hin]; [discriminate Hin|].
  apply placed_trace_cases in H.
  destruct H as [(order' & (amount & -> & Hb1 & Hc) & ->)
                |[(e' & [[-> Hf]|(amount & -> & Hb1 & Hf)] & ->)
                 |(st & d & -> & [[-> Hb1]|[-> _]])]].
  - destruct Hin as [Hin|[[= <-]|[]]]; [discriminate Hin|].
    assert (order' = order) as -> by congruence.
    unfold feedback, getitem. unfold mbind, result_bind, rbind.
    destruct (fills order) as [|fl rest]; [eauto|].
    destruct (price fl); eauto.
  - destruct Hin as [Hin|[]]. discriminate Hin.
  - destruct Hin as [Hin|[[= <-]|[]]]; [discriminate Hin|].
    cbn [raises] in Hf. congruence.
  - destruct Hin as [Hin|[]]. discriminate Hin.
  - destruct Hin.
Qed.

(** X8.  An exception that leaves the handler unhandled was raised
    before the [try] statement: an [AttributeError] on the payload,
    before any exchange call, or, right after the symbol lookup, the
    exception of the exchange or the [KeyError] of an incomplete
    [LOT_SIZE] filter.  No order has been submitted. *)
Theorem unhandled_exceptions_precede_the_try request f log :
  serve cfg ex request = (Raise (Fault f), log) ->
  (f = Builtin AttributeError /\ log = []) \/
  (log = [GetSymbolInfo (SYMBOL cfg)] /\
   ((exists e, f = Binance e /\ get_symbol_info ex (SYMBOL cfg) = Raise e) \/
    (f = Builtin KeyError /\
     exists fs, get_symbol_info ex (SYMBOL cfg) = Ok (Some fs) /\
                existsb incomplete_lot_size fs = true))).
Proof.
  intros H. apply serve_trace in H.
  destruct H as [[-> H]|(body & text & Hb & Ha & Ht & Hact & H)].
  { left. unfold turned_away in H. destruct (request_json request).
    - destruct H as [[H _]|[H|[H _]]]; now inversion H.
    - discriminate H. }
  destruct H as [[-> H]|(fs & s & q & n & l & Hi & Hs & -> & H)].
  - right. split; [reflexivity|].
    destruct H as [[H _]|[(e & [= ->] & H)|([= ->] & H)]]; [discriminate H| |]; eauto.
  - destruct H.
Qed.

Lemma serve_post (body : json) :
  serve cfg ex (post body)
  = (_ ← token_check cfg body;
     text ← pure (action_text body);
     if negb (is_action text)
     then raise (HTTPException 400 Erwarte_buy_oder_sell)
     else execute cfg ex text) [].
Proof. reflexivity. Qed.


(** X10.  With a token configured the check is an exact comparison: an
    object passes when its ["token"] is the configured string itself,
    and is answered with the status 401 before any exchange call in
    every other case, whether the field is missing, is no string, or
    is another string. *)
Theorem token_gate (d : gmap string json) (t : string) :
  token_configured cfg = Some t ->
  (d !! "token" = Some (JStr t) -> authorized cfg (JDict d)) /\
  (d !! "token" <> Some (JStr t) ->
   serve cfg ex (post (JDict d)) = (Raise (HTTPException 401 Ungueltiger_Token), [])).
Proof.
  intros Ht. split.
  - intros Hd log. unfold token_check, dict_get. rewrite Ht, Hd. io_goal.
    cbn [default from_option id differs_from_str]. now rewrite String.eqb_refl.
  - intros Hd. rewrite serve_post. unfold token_check, dict_get. rewrite Ht. io_goal.
    destruct (d !! "token") as [v|]; cbn [default from_option id]; [|reflexivity].
    destruct v; try reflexivity. cbn [differs_from_str].
    destruct (String.eqb_spec s t) as [->|Hne]; [now destruct Hd|reflexivity].
Qed.

(** X15.  With complete filters and a balance that is not huge the
    handler always reaches a decision.  An authorized signal, a known
    symbol whose [LOT_SIZE] filters are complete, a non-negative
    balance [B] below [2^950] and, for a sell with a known step, a
    finite positive step with [B / step] below [2^950]: the request is
    rejected with the status 400 and no order, or it submits one order
    of a finite non-negative amount, for a buy the amount
    [truncate(B * 0.98, 2)].  No step of the sizing raises. *)
Theorem sizing_reaches_a_decision
    (body : json) (text : string) (fs : list Filter) (B : float)
    (r : result exn Response) (log : list call) :
  authorized cfg body ->
  action_text body = Ok text ->
  is_action text = true ->
  get_symbol_info ex (SYMBOL cfg) = Ok (Some fs) ->
  existsb incomplete_lot_size fs = false ->
  get_asset_balance ex (asset_of cfg text) = Ok (Some B) ->
  F64.nonneg B = true ->
  (F64.to_Q B < 2 ^ 950)%Q ->
  (text = "sell" ->
   forall s, (lot_of fs).1 = Some s ->
             F64.positive_finite s = true /\
             (F64.to_Q B / F64.to_Q s < 2 ^ 950)%Q) ->
  serve cfg ex (post body) = (r, log) ->
  (exists d, r = Raise (HTTPException 400 d) /\ rejection d = true /\ orders log = []) \/
  (exists amount,
     log = session cfg text amount /\ F64.nonneg amount = true /\
     (text = "buy" -> truncate (F64.mul B F64.c0_98) 2 = Ok amount)).
Proof.
  intros Hauth Htext Hact Hinfo Hcomplete Hbal HB Hbig Hstep H.
  destruct (scan_filters_complete fs (None, None, None) Hcomplete) as [[[s q] n] Hscan].
  destruct (scan_filters_last_from _ _ _ Hscan) as [Hlot _]. cbn [fst snd] in Hlot.
  fold (lot_of fs) in Hlot.
  rewrite (serve_sizing cfg ex body text fs s q n Hauth Htext Hact Hinfo Hscan) in H.
  destruct (is_action_cases text Hact) as [-> | ->].
  - (* buy *)
    change (asset_of cfg "buy") with (QUOTE_ASSET cfg) in Hbal.
    destruct (spend_returns B HB Hbig) as (spend & Hspend & Hsn).
    unfold place_order, buy, free, on_exception in H. io_unfold H.
    change (String.eqb "buy" "buy") with true in H. cbv beta iota in H.
    rewrite Hbal in H. cbv beta iota in H. rewrite Hspend in H. cbv beta iota in H.
    destruct n as [mn|]; cbv beta iota in H.
    + destruct (F64.ltb spend mn); cbv beta iota in H.
      * io_done H. left. eexists. repeat split.
      * destruct (F64.ltb spend F64.c5) eqn:E5; cbv beta iota in H.
        -- io_done H. left. eexists. repeat split.
        -- right. exists spend. split; [|auto].
           repeat io_case H; io_done H; reflexivity.
    + destruct (F64.ltb spend F64.c5) eqn:E5; cbv beta iota in H.
      * io_done H. left. eexists. repeat split.
      * right. exists spend. split; [|auto].
        repeat io_case H; io_done H; reflexivity.
  - (* sell *)
    change (asset_of cfg "sell") with (BASE_ASSET cfg) in Hbal.
    unfold place_order, sell, free, on_exception in H. io_unfold H.
    change (String.eqb "sell" "buy") with false in H. cbv beta iota in H.
    destruct s as [s|]; [destruct q as [mq|]|]; cbv beta iota in H;
      try (io_done H; left; eexists; repeat split; fail).
    destruct (Hstep eq_refl s) as [Hs Hq]; [now rewrite <- Hlot|].
    destruct (round_step_size_returns B s HB Hs) as (stepped & Hst & Hstn & Hstb);
      [now apply Qlt_le_weak..|].
    destruct (step_decimals_returns s) as (d & Hd & _).
    destruct (round_returns stepped d Hstn) as (qty & Hqty & Hqn).
    { apply (Qle_trans _ _ _ Hstb). apply p2_le. lia. }
    rewrite Hbal in H. cbv beta iota in H. rewrite Hst in H. cbv beta iota in H.
    rewrite Hd in H. cbv beta iota in H. rewrite Hqty in H. cbv beta iota in H.
    destruct (F64.ltb qty mq); cbv beta iota in H.
    + io_done H. left. eexists. repeat split.
    + right. exists qty. split; [|split; [exact Hqn|discriminate]].
      repeat io_case H; io_done H; reflexivity.
Qed.

(** X18.  The health check answers ["ok"] with the configured symbol
    and makes no exchange call, and that symbol is the one the webhook
    trades: the symbol of every lookup and of every order of a request,
    and the symbol its ["ok"] answer names. *)
Theorem health_reports_the_traded_symbol
    (request : Request) (r : result exn Response) (log log0 : list call) :
  serve cfg ex request = (r, log) ->
  exists h,
    root cfg log0 = (Ok h, log0) /\ h_status h = "ok" /\
    (forall resp, r = Ok resp -> r_symbol resp = h_symbol h) /\
    (forall c, In c log ->
       match c with
       | GetSymbolInfo s => s = h_symbol h
       | CreateOrder req => o_symbol req = h_symbol h
       | GetAssetBalance _ => True
       end).
Proof.
  intros H. eexists. split; [reflexivity|]. cbn [h_status h_symbol].
  split; [reflexivity|]. split.
  - intros resp ->. apply serve_trace in H.
    destruct H as [[_ H]|(body & text & Hb & Ha & Ht & Hact & H)].
    { unfold turned_away in H. destruct (request_json request).
      - destruct H as [[H _]|[H|[H _]]]; discriminate H.
      - discriminate H. }
    destruct H as [[_ H]|(fs & s & q & n & l & Hi & Hs & -> & H)].
    { destruct H as [[H _]|[(e & H & _)|[H _]]]; discriminate H. }
    cbn [placed_trace] in H. destruct H as (order & _ & Hf).
    apply feedback_Ok in Hf. now rewrite Hf.
  - intros c Hc. apply serve_calls in H.
    destruct H as [-> |(body & text & _ & _ & _ & _ & H)]; [destruct Hc|].
    destruct H as [-> |[-> |(amount & ->)]]; cbn [In session] in Hc;
      repeat (destruct Hc as [<-|Hc]; [auto|]); destruct Hc.
Qed.

End Sessions.

(** ** The spelling of an action *)

(** A property of characters that holds of the 256 of them. *)
Lemma ascii_forall (P : ascii -> bool) :
  forallb (fun n => P (ascii_of_nat n)) (seq 0 256) = true ->
  forall c, P c = true.
Proof.
  intros H c. rewrite forallb_forall in H.
  rewrite <- (ascii_nat_embedding c). apply H. apply in_seq.
  pose proof (nat_ascii_bounded c). lia.
Qed.

(** Lowering a character yields a letter of the action words exactly
    for the letter and its upper-case form. *)
Lemma lower_char_letter (c w : ascii) :
  is_letter w = true ->
  Ascii.eqb (Str.lower_char c) w = Ascii.eqb c w || Ascii.eqb c (upper_of w).
Proof.
  intros Hw.
  pose proof (ascii_forall
    (fun c => forallb (fun w => Bool.eqb (Ascii.eqb (Str.lower_char c) w)
                                  (Ascii.eqb c w || Ascii.eqb c (upper_of w)))
                letters)
    ltac:(vm_compute; reflexivity) c) as Hc.
  cbv beta in Hc. rewrite forallb_forall in Hc.
  apply Bool.eqb_prop. apply Hc.
  unfold is_letter in Hw. apply existsb_exists in Hw.
  destruct Hw as (x & Hx & E). apply Ascii.eqb_eq in E. now subst.
Qed.

Lemma letter_not_space (c : ascii) :
  is_letter (Str.lower_char c) = true -> Str.is_space c = false.
Proof.
  pose proof (ascii_forall
    (fun c => implb (is_letter (Str.lower_char c)) (negb (Str.is_space c)))
    ltac:(vm_compute; reflexivity) c) as Hc.
  cbv beta in Hc. intros H. rewrite H in Hc. now apply negb_true_iff.
Qed.

Lemma lower_spells (word core : string) :
  over is_letter word = true ->
  Str.lower core = word <-> spells word core = true.
Proof.
  revert core. induction word as [|w word IH]; intros [|c core] Hw;
    cbn [Str.lower spells]; try (split; intros; discriminate); [tauto|].
  cbn [over] in Hw. apply andb_true_iff in Hw. destruct Hw as [Hw Hword].
  rewrite andb_true_iff, <- (lower_char_letter c w Hw), <- (IH core Hword).
  rewrite Ascii.eqb_eq. split; [intros [= -> ->]; auto|intros [-> ->]; reflexivity].
Qed.

Lemma lower_over_letters (core word : string) :
  over is_letter word = true -> Str.lower core = word ->
  over (fun c => negb (Str.is_space c)) core = true.
Proof.
  revert word. induction core as [|c core IH]; intros [|w word]; cbn [Str.lower over];
    try discriminate; [reflexivity|].
  intros Hw [= <- <-]. apply andb_true_iff in Hw. destruct Hw as [Hw Hword].
  rewrite (letter_not_space c Hw), (IH _ Hword eq_refl). reflexivity.
Qed.

Lemma lstrip_blank (l t : string) : blank l = true -> Str.lstrip (l ++ t) = Str.lstrip t.
Proof.
  unfold blank. induction l as [|c l IH]; [reflexivity|]. cbn [over]. intros H.
  apply andb_true_iff in H. destruct H as [Hc Hl].
  change (String c l ++ t) with (String c (l ++ t)). cbn [Str.lstrip].
  rewrite Hc. auto.
Qed.

Lemma lstrip_split (s : string) :
  exists l, s = l ++ Str.lstrip s /\ blank l = true.
Proof.
  unfold blank. induction s as [|c s (l & Hl & Hb)]; [now exists ""|]. cbn [Str.lstrip].
  destruct (Str.is_space c) eqn:Hc.
  - exists (String c l). split; [|cbn [over]; now rewrite Hc].
    change (String c l ++ Str.lstrip s) with (String c (l ++ Str.lstrip s)).
    now rewrite <- Hl.
  - now exists "".
Qed.

Lemma rstrip_by_split (p : ascii -> bool) (s : string) :
  exists r, s = Str.rstrip_by p s ++ r /\ over p r = true.
Proof.
  induction s as [|c s (r & Hr & Hb)]; [now exists ""|]. cbn [Str.rstrip_by].
  destruct (Str.rstrip_by p s) as [|c' s'] eqn:E.
  - destruct (p c) eqn:Hc.
    + exists (String c s). split; [reflexivity|]. cbn [over]. rewrite Hc.
      change ("" ++ r) with r in Hr. now subst.
    + exists r. split; [|exact Hb]. rewrite Hr at 1. reflexivity.
  - exists r. split; [|exact Hb]. rewrite Hr at 1. reflexivity.
Qed.

Lemma rstrip_by_over (p : ascii -> bool) (t r : string) :
  over p r = true -> Str.rstrip_by p (t ++ r) = Str.rstrip_by p t.
Proof.
  intros Hr. induction t as [|c t IH].
  - change ("" ++ r) with r. induction r as [|c r IH]; [reflexivity|].
    cbn [over] in Hr. apply andb_true_iff in Hr. destruct Hr as [Hc Hr].
    cbn [Str.rstrip_by]. rewrite (IH Hr). cbn [Str.rstrip_by]. now rewrite Hc.
  - change (String c t ++ r) with (String c (t ++ r)). cbn [Str.rstrip_by].
    now rewrite IH.
Qed.

Lemma rstrip_by_none (p : ascii -> bool) (t : string) :
  over (fun c => negb (p c)) t = true -> Str.rstrip_by p t = t.
Proof.
  induction t as [|c t IH]; [reflexivity|]. cbn [over]. intros H.
  apply andb_true_iff in H. destruct H as [Hc Ht]. apply negb_true_iff in Hc.
  cbn [Str.rstrip_by]. rewrite (IH Ht). destruct t; [now rewrite Hc|reflexivity].
Qed.

(** The normalized text is an action word exactly when the text spells
    the word, in any letter case, between whitespace. *)
Lemma strip_lower_spells (s word : string) :
  word <> "" -> over is_letter word = true ->
  Str.lower (Str.strip s) = word <->
  exists core, padded s core /\ spells word core = true.
Proof.
  intros Hne Hw. split.
  - intros H. exists (Str.strip s). split; [|now apply lower_spells].
    unfold padded, Str.strip.
    destruct (lstrip_split s) as (l & Hl & Hbl).
    destruct (rstrip_by_split Str.is_space (Str.lstrip s)) as (r & Hr & Hbr).
    exists l, r. split; [rewrite <- Hr; exact Hl|]. split; [exact Hbl|exact Hbr].
  - intros (core & (l & r & -> & Hl & Hr) & Hs).
    apply lower_spells in Hs; [|exact Hw].
    pose proof (lower_over_letters core word Hw Hs) as Hcore.
    unfold Str.strip. rewrite lstrip_blank by exact Hl.
    assert (Hc : core <> "") by (intros ->; cbn in Hs; congruence).
    assert (Hls : Str.lstrip (core ++ r) = core ++ r).
    { destruct core as [|c core]; [congruence|].
      change (String c core ++ r) with (String c (core ++ r)).
      cbn [over] in Hcore. apply andb_true_iff in Hcore. destruct Hcore as [Hcs _].
      apply negb_true_iff in Hcs. cbn [Str.lstrip]. now rewrite Hcs. }
    rewrite Hls, rstrip_by_over by exact Hr.
    now rewrite rstrip_by_none.
Qed.

(** X11.  Which texts are actions.  For an authorized object whose
    first non-empty field of ["message"] and ["action"] is the string
    [s] (the empty string when there is none), the request is rejected
    as unrecognized, before any exchange call, exactly when [s] is not
    ["buy"] or ["sell"] in some mix of upper and lower case between
    leading and trailing whitespace. *)
Theorem unrecognized_action_iff
    (cfg : Config) (ex : Exchange) (d : gmap string json) (s : string) :
  authorized cfg (JDict d) ->
  first_non_empty d ["message"; "action"] = JStr s ->
  serve cfg ex (post (JDict d)) = (Raise (HTTPException 400 Erwarte_buy_oder_sell), [])
  <-> ~ exists core, padded s core /\
                     (spells "buy" core = true \/ spells "sell" core = true).
Proof.
  intros Ha Hs.
  assert (Ht : action_text (JDict d) = Ok (Str.lower (Str.strip s)))
    by (now rewrite action_text_first, Hs).
  rewrite (serve_action cfg ex _ _ Ha Ht).
  set (text := Str.lower (Str.strip s)) in *.
  assert (Hiff : is_action text = true <->
                 exists core, padded s core /\
                   (spells "buy" core = true \/ spells "sell" core = true)).
  { rewrite is_action_spec. unfold text.
    rewrite (strip_lower_spells s "buy"), (strip_lower_spells s "sell");
      try discriminate; try reflexivity.
    split.
    - intros [(core & ? & ?)|(core & ? & ?)]; exists core; auto.
    - intros (core & ? & [?|?]); [left|right]; exists core; auto. }
  destruct (is_action text) eqn:Hact.
  - split; [|intros Hn; destruct Hn; now apply Hiff].
    intros Hrun. apply execute_starts in Hrun. destruct Hrun as [rest Hrest].
    discriminate Hrest.
  - split; [|reflexivity]. intros _ Hc. apply Hiff in Hc. discriminate Hc.
Qed.

(** ** The decimals of the step, digit by digit *)

Lemma digit_zero (d : Z) :
  0 <= d < 10 -> Ascii.eqb "0" (Str.digit d) = (d =? 0).
Proof.
  intros H.
  assert (Hd : d = 0 \/ d = 1 \/ d = 2 \/ d = 3 \/ d = 4 \/ d = 5 \/ d = 6
               \/ d = 7 \/ d = 8 \/ d = 9) by lia.
  repeat (destruct Hd as [->|Hd]; [reflexivity|]). now subst.
Qed.

(** The digits that remain once the trailing zeros are stripped: as
    many as the number needs. *)
Lemma stripped_digits (k : nat) (F : Z) :
  let L := String.length (Str.rstrip "0" (Str.digits k F)) in
  (L <= k)%nat /\
  (10 ^ Z.of_nat (k - L) | F) /\
  ((0 < L)%nat -> ~ (10 ^ Z.of_nat (k - L + 1) | F)).
Proof.
  cbv zeta. unfold Str.rstrip. revert F.
  induction k as [|k IH]; intros F.
  - cbn. split; [lia|]. split; [apply Z.divide_1_l|lia].
  - cbn [Str.digits].
    pose proof (Z.mod_pos_bound F 10 ltac:(lia)) as Hb.
    pose proof (digit_zero (F mod 10) Hb) as Hz.
    pose proof (Z.div_mod F 10 ltac:(lia)) as Hdm.
    destruct (Z.eqb_spec (F mod 10) 0) as [H0|H0].
    + rewrite rstrip_by_over by (cbn [over]; now rewrite Hz).
      destruct (IH (F / 10)) as (Hle & Hdiv & Hnot).
      set (L := String.length (Str.rstrip_by (Ascii.eqb "0") (Str.digits k (F / 10)))) in *.
      split; [lia|].
      replace (S k - L)%nat with (S (k - L)) by lia.
      replace (S (k - L) + 1)%nat with (S (k - L + 1)) by lia.
      rewrite !Nat2Z.inj_succ, !Z.pow_succ_r by lia.
      split.
      * destruct Hdiv as [q Hq]. exists q. rewrite Hdm at 1. rewrite H0, Hq. ring.
      * intros HL [q Hq]. apply (Hnot HL). exists q.
        apply (Z.mul_cancel_l _ _ 10); [lia|].
        transitivity F; [lia|]. rewrite Hq. ring.
    + rewrite rstrip_by_app_keep by exact Hz.
      cbn [Str.rstrip_by]. rewrite length_app, digits_length. cbn [String.length].
      replace (S k - (k + 1))%nat with 0%nat by lia.
      split; [lia|]. split; [apply Z.divide_1_l|].
      intros _ [q Hq]. cbn in Hq. lia.
Qed.

(** The decimals derived from a finite step: the least count at which
    the ten printed digits end in zeros only. *)
Lemma step_decimals_divides (sg : bool) (m : positive) (e : Z) (d : nat) :
  step_decimals (S754_finite sg m e) = Ok d ->
  (d <= 10)%nat /\
  (10 ^ Z.of_nat (10 - d) | F64.scaled_digits m e 10) /\
  (forall k : nat, (k < d)%nat ->
     ~ (10 ^ Z.of_nat (10 - k) | F64.scaled_digits m e 10)).
Proof.
  rewrite step_decimals_finite. intros H.
  pose proof (f_equal (fun r => match r with Ok x => x | Raise _ => d end) H) as Hd.
  cbv beta iota in Hd. clear H. subst d.
  unfold kept_digits.
  generalize (F64.scaled_digits m e 10). intros N.
  pose proof (stripped_digits 10 (N mod 10 ^ 10)) as HS. cbv zeta in HS.
  revert HS.
  generalize (String.length (Str.rstrip "0" (Str.digits 10 (N mod 10 ^ 10)))).
  intros L (Hle & Hdiv & Hnot).
  assert (Hmod : forall j : nat, (j <= 10)%nat ->
            (10 ^ Z.of_nat j | N mod 10 ^ 10) <-> (10 ^ Z.of_nat j | N)).
  { intros j Hj.
    assert (Hpow : (10 ^ Z.of_nat j | 10 ^ 10)).
    { exists (10 ^ (10 - Z.of_nat j)). rewrite <- Z.pow_add_r by lia.
      f_equal. lia. }
    pose proof (Z.div_mod N (10 ^ 10) ltac:(lia)) as Hdm.
    assert (Hq : (10 ^ Z.of_nat j | 10 ^ 10 * (N / 10 ^ 10)))
      by (now apply Z.divide_mul_l).
    split; intros H.
    - rewrite Hdm. now apply Z.divide_add_r.
    - apply (Z.divide_add_cancel_r _ _ _ Hq). now rewrite <- Hdm. }
  split; [exact Hle|]. split; [apply Hmod; [lia|exact Hdiv]|].
  intros k Hk Hdk. apply (Hnot ltac:(lia)). apply Hmod; [lia|].
  apply Z.divide_trans with (10 ^ Z.of_nat (10 - k)); [|exact Hdk].
  exists (10 ^ (Z.of_nat (10 - k) - Z.of_nat (10 - L + 1))).
  rewrite <- Z.pow_add_r by lia. f_equal. lia.
Qed.

(** X19.  The number of decimals derived from a finite step is the
    least number of decimal places that writes the step as [%.10f] shows
    it: with [N] the integer nearest to [step * 10^10] that the format
    prints, [10^(10-d)] divides [N], and [10^(10-k)] does not for any
    [k < d]. *)
Theorem step_decimals_counts_the_digits (sg : bool) (m : positive) (e : Z) (d : nat) :
  step_decimals (S754_finite sg m e) = Ok d ->
  exists N : Z,
    (Qabs (inject_Z N - scaled m e 10) <= 1 # 2)%Q /\
    (d <= 10)%nat /\
    (10 ^ Z.of_nat (10 - d) | N) /\
    (forall k : nat, (k < d)%nat -> ~ (10 ^ Z.of_nat (10 - k) | N)).
Proof.
  intros H. exists (F64.scaled_digits m e 10).
  split; [apply scaled_digits_spec|].
  now apply (step_decimals_divides sg m e d).
Qed.

(** ** The cleanup rounding at a step of ten decimals at most *)

Section Noise.

Local Open Scope Q_scope.

(** A value [y] within the relative distance [r] of the integer [A]:
    an integer nearest to [y] is as close to it. *)
Lemma nearest_integer_close (y r : Q) (A N : Z) :
  (1 <= A)%Z -> 0 <= r -> r <= 1 # 4 ->
  Qabs (y - inject_Z A) <= r * inject_Z A ->
  Qabs (inject_Z N - y) <= 1 # 2 ->
  (1 <= N)%Z /\ Qabs (inject_Z N - y) <= r * inject_Z A.
Proof.
  intros HA Hr0 Hr1 Hy HN.
  apply Qabs_Qle_condition in Hy. destruct Hy as [Hy1 Hy2].
  pose proof HN as HN'. apply Qabs_Qle_condition in HN'. destruct HN' as [HN1 HN2].
  assert (Ha : 1 <= inject_Z A) by (rewrite <- (Zle_Qle 1); exact HA).
  assert (Hp : r * inject_Z A <= (1 # 4) * inject_Z A)
    by (apply Qmult_le_compat_r; lra).
  assert (Hup : inject_Z (A + 1) == inject_Z A + 1)
    by (rewrite inject_Z_plus; reflexivity).
  assert (Hdn : inject_Z (A - 1) == inject_Z A - 1).
  { unfold Z.sub. rewrite inject_Z_plus. reflexivity. }
  assert (H0 : inject_Z 0 == 0) by reflexivity.
  destruct (Qlt_le_dec (r * inject_Z A) (1 # 2)) as [Hs|Hl].
  - assert (HNA : N = A).
    { assert (H1 : inject_Z N < inject_Z (A + 1)) by lra.
      assert (H2 : inject_Z (A - 1) < inject_Z N) by lra.
      rewrite <- Zlt_Qlt in H1, H2. lia. }
    subst N. split; [exact HA|].
    apply Qabs_Qle_condition. split; lra.
  - split; [|lra].
    assert (H1 : inject_Z 0 < inject_Z N) by lra.
    rewrite <- Zlt_Qlt in H1. lia.
Qed.

(** Away from the subnormal range the rounding error is relative. *)
Lemma upper_rounded_normal (V : Q) (r : float) :
  2 ^ (-1000) <= V -> upper_rounded V r -> F64.to_Q r <= V * (1 + F64.u).
Proof.
  intros HV [H|[H _]]; [exact H|].
  assert (He : F64.eta <= 2 ^ (-1000) * F64.u)
    by (apply Qle_bool_imp_le; vm_compute; reflexivity).
  assert (Hm : 2 ^ (-1000) * F64.u <= V * F64.u).
  { apply Qmult_le_compat_r; [exact HV|]. apply Qlt_le_weak, u_pos. }
  lra.
Qed.

Lemma lower_rounded_normal (V : Q) (r : float) :
  2 ^ (-1000) <= V -> lower_rounded V r -> V * (1 - F64.u) <= F64.to_Q r.
Proof.
  intros HV [H|H]; [exact H|].
  assert (He : F64.eta <= 2 ^ (-1000) * F64.u)
    by (apply Qle_bool_imp_le; vm_compute; reflexivity).
  assert (Hm : 2 ^ (-1000) * F64.u <= V * F64.u).
  { apply Qmult_le_compat_r; [exact HV|]. apply Qlt_le_weak, u_pos. }
  lra.
Qed.

Lemma pow10_pos (k : nat) : 0 < inject_Z (10 ^ Z.of_nat k).
Proof. rewrite <- (Zlt_Qlt 0). apply Z.pow_pos_nonneg; lia. Qed.

Lemma pow10_split (a b : nat) :
  inject_Z (10 ^ Z.of_nat (a + b))
  == inject_Z (10 ^ Z.of_nat a) * inject_Z (10 ^ Z.of_nat b).
Proof.
  rewrite <- inject_Z_mult, Nat2Z.inj_add, Z.pow_add_r by lia. reflexivity.
Qed.

(** A step within one rounding of the decimal [K / 10^d0], [d0 <= 10]:
    at the decimals [d] derived from it, the step is within two
    roundings of a whole number of units. *)
Lemma decimal_step_units (m : positive) (e : Z) (K : Z) (d0 d : nat) :
  (1 <= K)%Z -> (d0 <= 10)%nat ->
  Qabs (F64.to_Q (S754_finite false m e) - inject_Z K / inject_Z (10 ^ Z.of_nat d0))
  <= F64.u * (inject_Z K / inject_Z (10 ^ Z.of_nat d0)) ->
  step_decimals (S754_finite false m e) = Ok d ->
  exists K' : Z,
    (1 <= K')%Z /\ (d <= 10)%nat /\
    Qabs (F64.to_Q (S754_finite false m e) * inject_Z (10 ^ Z.of_nat d) - inject_Z K')
    <= 2 * F64.u * inject_Z K'.
Proof.
  intros HK Hd0 Hw Hd.
  destruct (step_decimals_divides false m e d Hd) as (Hd10 & [K' HK'] & _).
  pose proof (scaled_digits_spec m e 10) as Hspec. unfold scaled in Hspec.
  set (S0 := F64.to_Q (S754_finite false m e)) in *.
  set (N := F64.scaled_digits m e 10) in *.
  pose proof (pow10_pos d0) as HT0. pose proof (pow10_pos (10 - d0)) as HP0.
  pose proof (pow10_pos d) as HT. pose proof (pow10_pos (10 - d)) as HP.
  pose proof (pow10_split d0 (10 - d0)) as E0.
  replace (d0 + (10 - d0))%nat with 10%nat in E0 by lia.
  pose proof (pow10_split d (10 - d)) as E1.
  replace (d + (10 - d))%nat with 10%nat in E1 by lia.
  pose proof u_pos as Hu. pose proof u_small as Hu1.
  (* the step in units of the tenth decimal *)
  set (A := (K * 10 ^ Z.of_nat (10 - d0))%Z).
  assert (HA : (1 <= A)%Z).
  { unfold A. assert (0 < 10 ^ Z.of_nat (10 - d0))%Z by (apply Z.pow_pos_nonneg; lia).
    nia. }
  assert (HAq : inject_Z A == inject_Z K / inject_Z (10 ^ Z.of_nat d0)
                              * inject_Z (10 ^ Z.of_nat 10)).
  { unfold A. rewrite inject_Z_mult, E0. field. lra. }
  assert (Hy : Qabs (S0 * inject_Z (10 ^ Z.of_nat 10) - inject_Z A)
               <= F64.u * inject_Z A).
  { apply Qabs_Qle_condition in Hw. destruct Hw as [Hw1 Hw2].
    assert (H10 : 0 < inject_Z (10 ^ Z.of_nat 10)) by apply pow10_pos.
    rewrite HAq.
    set (D := inject_Z K / inject_Z (10 ^ Z.of_nat d0)) in *.
    set (T10 := inject_Z (10 ^ Z.of_nat 10)) in *.
    apply Qabs_Qle_condition. split.
    - assert ((- (F64.u * D)) * T10 <= (S0 - D) * T10)
        by (apply Qmult_le_compat_r; lra).
      lra.
    - assert ((S0 - D) * T10 <= F64.u * D * T10)
        by (apply Qmult_le_compat_r; lra).
      lra. }
  destruct (nearest_integer_close _ F64.u A N HA ltac:(lra) ltac:(lra) Hy Hspec)
    as [HN1 HNy].
  (* the units at the derived decimals *)
  assert (HK1 : (1 <= K')%Z).
  { assert (0 < 10 ^ Z.of_nat (10 - d))%Z by (apply Z.pow_pos_nonneg; lia).
    rewrite HK' in HN1. nia. }
  exists K'. split; [exact HK1|]. split; [exact Hd10|].
  assert (HNq : inject_Z N == inject_Z K' * inject_Z (10 ^ Z.of_nat (10 - d)))
    by (rewrite HK', inject_Z_mult; reflexivity).
  apply Qabs_Qle_condition in Hy. destruct Hy as [Hy1 Hy2].
  apply Qabs_Qle_condition in HNy. destruct HNy as [HN2 HN3].
  rewrite E1 in HN2, HN3, Hy1, Hy2. rewrite HNq in HN2, HN3.
  set (T := inject_Z (10 ^ Z.of_nat d)) in *.
  set (P := inject_Z (10 ^ Z.of_nat (10 - d))) in *.
  set (k := inject_Z K') in *. set (a := inject_Z A) in *.
  assert (Ha1 : 1 <= a) by (unfold a; rewrite <- (Zle_Qle 1); exact HA).
  assert (Hua : F64.u * a <= (1 # 1000) * a) by (apply Qmult_le_compat_r; lra).
  assert (Ha : a <= 2 * (k * P)) by lra.
  assert (Hua2 : F64.u * a <= F64.u * (2 * (k * P))).
  { rewrite !(Qmult_comm F64.u). apply Qmult_le_compat_r; lra. }
  apply Qabs_Qle_condition. split.
  - apply Qmult_le_r with P; [exact HP|]. lra.
  - apply Qmult_le_r with P; [exact HP|]. lra.
Qed.

(** The double nearest to a positive decimal with ten fractional digits
    at most lies within one rounding of it. *)
Lemma of_decimal_within (K : Z) (d0 : nat) (s : float) :
  (1 <= K)%Z -> (d0 <= 10)%nat ->
  F64.of_decimal false K d0 = Ok s ->
  F64.positive_finite s = true /\
  Qabs (F64.to_Q s - inject_Z K / inject_Z (10 ^ Z.of_nat d0))
  <= F64.u * (inject_Z K / inject_Z (10 ^ Z.of_nat d0)).
Proof.
  intros HK Hd0. unfold F64.of_decimal.
  destruct K as [|p|p]; try lia.
  assert (Hten : (0 < 10 ^ Z.of_nat d0)%Z) by (apply Z.pow_pos_nonneg; lia).
  pose proof (div_upper p 0 (Z.to_pos (10 ^ Z.of_nat d0)) 0) as [H1 H2].
  pose proof (div_lower p 0 (Z.to_pos (10 ^ Z.of_nat d0)) 0) as H3.
  cbv zeta in *. rewrite Z2Pos.id in H2, H3 by exact Hten.
  pose proof (pow10_pos d0) as HT.
  set (T := inject_Z (10 ^ Z.of_nat d0)) in *.
  assert (HV : inject_Z (Z.pos p) * 2 ^ 0 / (T * 2 ^ 0) == inject_Z (Z.pos p) / T).
  { change (2 ^ 0) with 1. rewrite !Qmult_1_r. reflexivity. }
  assert (HT10 : T <= inject_Z (10 ^ 10)).
  { unfold T. rewrite <- Zle_Qle. apply Z.pow_le_mono_r; lia. }
  assert (Hp1 : 1 <= inject_Z (Z.pos p)) by (rewrite <- (Zle_Qle 1); lia).
  assert (Hbig : 2 ^ (-1000) <= inject_Z (Z.pos p) * 2 ^ 0 / (T * 2 ^ 0)).
  { rewrite HV. apply Qle_shift_div_l; [exact HT|].
    assert (E : 2 ^ (-1000) * inject_Z (10 ^ 10) <= 1)
      by (apply Qle_bool_imp_le; vm_compute; reflexivity).
    assert (2 ^ (-1000) * T <= 2 ^ (-1000) * inject_Z (10 ^ 10)).
    { rewrite !(Qmult_comm (2 ^ (-1000))). apply Qmult_le_compat_r; [exact HT10|].
      apply Qlt_le_weak, p2_pos. }
    lra. }
  destruct H1 as [H1|H1]; [|rewrite H1; discriminate].
  specialize (H2 H1). specialize (H3 H1).
  apply (upper_rounded_normal _ _ Hbig) in H2.
  apply (lower_rounded_normal _ _ Hbig) in H3.
  rewrite HV in H2, H3.
  pose proof u_pos as Hu. pose proof u_small as Hu1.
  assert (HD : 0 < inject_Z (Z.pos p) / T) by (apply Qlt_shift_div_l; lra).
  destruct (SFdiv _ _ _ _) as [s0|s0| |s0 m0 e0] eqn:ES; try discriminate;
    intros [= <-].
  - exfalso. cbn [F64.to_Q] in H3.
    assert (0 < inject_Z (Z.pos p) / T * (1 - F64.u))
      by (apply Qmult_lt_0_compat; lra).
    lra.
  - destruct s0; [discriminate|]. split; [reflexivity|].
    apply Qabs_Qle_condition. split; lra.
Qed.

(** The stepped quantity of [round_step_size], for a step that is a
    whole number [K'] of units [1 / T] up to two roundings: none, or a
    whole number of units up to five roundings. *)
Lemma stepped_units (raw s stepped : float) (K' : Z) (T : Q) :
  F64.nonneg raw = true -> F64.positive_finite s = true ->
  (1 <= K')%Z -> 0 < T -> T <= inject_Z (10 ^ 10) ->
  Qabs (F64.to_Q s * T - inject_Z K') <= 2 * F64.u * inject_Z K' ->
  round_step_size raw s = Ok stepped ->
  stepped = S754_zero false \/ stepped = S754_infinity false \/
  (F64.nonneg stepped = true /\
   exists M : Z, (1 <= M)%Z /\
     Qabs (F64.to_Q stepped * T - inject_Z M) <= 5 * F64.u * inject_Z M).
Proof.
  intros Hq Hs HK HT HT10 Hunits H. unfold round_step_size in H.
  destruct (F64.truediv raw s) as [t|] eqn:Ht; [|discriminate].
  change (match F64.floor t with
          | Ok n => match F64.of_int n with
                    | Ok f => Ok (F64.mul f s)
                    | Raise e => Raise e
                    end
          | Raise e => Raise e
          end = Ok stepped) in H.
  destruct (F64.floor t) as [n|] eqn:Hn; [|discriminate].
  destruct (F64.of_int n) as [f|] eqn:Hf; [|discriminate].
  injection H as <-.
  destruct (truediv_upper raw s t Hq Hs Ht) as [Hts _].
  destruct Hts as [Hts|Hts]; [|rewrite Hts in Hn; discriminate].
  pose proof (floor_nonneg _ _ Hts Hn) as Hn0.
  destruct (of_int_upper n f Hn0 Hf) as [Hfn Hfu].
  pose proof (of_int_lower n f Hn0 Hf) as Hfl.
  pose proof (positive_to_Q s Hs) as HS.
  assert (Hsn : F64.nonneg s = true) by (destruct s as [| | |[|]]; auto).
  destruct (Z.eq_dec n 0%Z) as [->|Hnz].
  { left. injection Hf as <-. destruct s as [| | |[|] ms es]; try discriminate.
    reflexivity. }
  right.
  destruct (mul_upper f s Hfn Hsn) as [[Hm|Hm] Hmu]; [right|now left].
  specialize (Hmu Hm). pose proof (mul_lower f s Hfn Hsn Hm) as Hml.
  split; [exact Hm|]. exists (n * K')%Z. split; [nia|].
  assert (Hn1 : 1 <= inject_Z n) by (rewrite <- (Zle_Qle 1); lia).
  assert (Hk1 : 1 <= inject_Z K') by (rewrite <- (Zle_Qle 1); exact HK).
  apply upper_rounded_ge_1 in Hfu; [|exact Hn1].
  apply lower_rounded_ge_1 in Hfl; [|exact Hn1].
  apply Qabs_Qle_condition in Hunits. destruct Hunits as [Hu1 Hu2].
  pose proof u_pos as Hu. pose proof u_small as Hus.
  set (S0 := F64.to_Q s) in *. set (F := F64.to_Q f) in *.
  set (X := F64.to_Q (F64.mul f s)) in *.
  set (nq := inject_Z n) in *. set (k := inject_Z K') in *.
  assert (Huk : F64.u * k <= (1 # 1000) * k) by (apply Qmult_le_compat_r; lra).
  assert (Hun : F64.u * nq <= (1 # 1000) * nq) by (apply Qmult_le_compat_r; lra).
  (* the product is far from the subnormal range *)
  assert (HST : 1 # 2 <= S0 * T) by lra.
  assert (HF : 1 # 2 <= F) by lra.
  assert (HSlow : 2 ^ (-40) <= S0).
  { assert (E : 2 ^ (-40) * inject_Z (10 ^ 10) <= 1 # 2)
      by (apply Qle_bool_imp_le; vm_compute; reflexivity).
    assert (2 ^ (-40) * T <= 2 ^ (-40) * inject_Z (10 ^ 10)).
    { rewrite !(Qmult_comm (2 ^ (-40))). apply Qmult_le_compat_r; [exact HT10|].
      apply Qlt_le_weak, p2_pos. }
    apply Qmult_le_r with T; [exact HT|]. lra. }
  assert (Hbig : 2 ^ (-1000) <= F * S0).
  { assert (E : 2 ^ (-1000) <= (1 # 2) * 2 ^ (-40))
      by (apply Qle_bool_imp_le; vm_compute; reflexivity).
    assert (E40 : 0 < 2 ^ (-40)) by apply p2_pos.
    assert ((1 # 2) * 2 ^ (-40) <= F * S0).
    { apply (Qmult_le_both _ _ _ _); lra. }
    lra. }
  apply (upper_rounded_normal _ _ Hbig) in Hmu.
  apply (lower_rounded_normal _ _ Hbig) in Hml.
  fold X in Hmu, Hml.
  (* the stepped quantity in units *)
  rewrite inject_Z_mult. fold nq k.
  assert (Hc1 : (1 + F64.u) * (1 + 2 * F64.u) * (1 + F64.u) <= 1 + 5 * F64.u)
    by (apply Qle_bool_imp_le; vm_compute; reflexivity).
  assert (Hc2 : 1 - 5 * F64.u <= (1 - F64.u) * (1 - 2 * F64.u) * (1 - F64.u))
    by (apply Qle_bool_imp_le; vm_compute; reflexivity).
  assert (HM0 : 0 <= nq * k) by (apply Qmult_le_0_compat; lra).
  assert (Hup1 : F * (S0 * T) <= nq * (1 + F64.u) * (k * (1 + 2 * F64.u)))
    by (apply Qmult_le_both; lra).
  assert (Hlo1 : nq * (1 - F64.u) * (k * (1 - 2 * F64.u)) <= F * (S0 * T)).
  { apply Qmult_le_both; lra. }
  assert (Hup2 : X * T <= F * S0 * (1 + F64.u) * T)
    by (apply Qmult_le_compat_r; lra).
  assert (Hlo2 : F * S0 * (1 - F64.u) * T <= X * T)
    by (apply Qmult_le_compat_r; lra).
  assert (Hup3 : F * (S0 * T) * (1 + F64.u)
                 <= nq * (1 + F64.u) * (k * (1 + 2 * F64.u)) * (1 + F64.u))
    by (apply Qmult_le_compat_r; lra).
  assert (Hlo3 : nq * (1 - F64.u) * (k * (1 - 2 * F64.u)) * (1 - F64.u)
                 <= F * (S0 * T) * (1 - F64.u))
    by (apply Qmult_le_compat_r; lra).
  assert (Hup4 : nq * k * ((1 + F64.u) * (1 + 2 * F64.u) * (1 + F64.u))
                 <= nq * k * (1 + 5 * F64.u)).
  { rewrite !(Qmult_comm (nq * k)). apply Qmult_le_compat_r; lra. }
  assert (Hlo4 : nq * k * (1 - 5 * F64.u)
                 <= nq * k * ((1 - F64.u) * (1 - 2 * F64.u) * (1 - F64.u))).
  { rewrite !(Qmult_comm (nq * k)). apply Qmult_le_compat_r; lra. }
  apply Qabs_Qle_condition. split.
  - apply Qle_trans with (nq * k * (1 - 5 * F64.u) - nq * k); [apply Qle_lteq; right; ring|].
    apply Qle_trans with (F * S0 * (1 - F64.u) * T - nq * k); [|lra].
    apply Qle_trans with (nq * (1 - F64.u) * (k * (1 - 2 * F64.u)) * (1 - F64.u) - nq * k).
    + apply Qle_trans with (nq * k * ((1 - F64.u) * (1 - 2 * F64.u) * (1 - F64.u)) - nq * k);
        [lra|apply Qle_lteq; right; ring].
    + apply Qle_trans with (F * (S0 * T) * (1 - F64.u) - nq * k); [lra|].
      apply Qle_lteq; right; ring.
  - apply Qle_trans with (nq * k * (1 + 5 * F64.u) - nq * k); [|apply Qle_lteq; right; ring].
    apply Qle_trans with (F * S0 * (1 + F64.u) * T - nq * k); [lra|].
    apply Qle_trans with (nq * (1 + F64.u) * (k * (1 + 2 * F64.u)) * (1 + F64.u) - nq * k).
    + apply Qle_trans with (F * (S0 * T) * (1 + F64.u) - nq * k); [|lra].
      apply Qle_lteq; right; ring.
    + apply Qle_trans with (nq * k * ((1 + F64.u) * (1 + 2 * F64.u) * (1 + F64.u)) - nq * k);
        [apply Qle_lteq; right; ring|lra].
Qed.

(** The cleanup rounding of a quantity that is a whole number of units
    of its last kept decimal, up to five roundings: the quantity moves
    by a relative [2^-50] at most. *)
Lemma round_units (m : positive) (e : Z) (d : nat) (M : Z) (final : float) :
  (d <= 10)%nat -> (1 <= M)%Z ->
  Qabs (F64.to_Q (S754_finite false m e) * inject_Z (10 ^ Z.of_nat d) - inject_Z M)
  <= 5 * F64.u * inject_Z M ->
  F64.round (S754_finite false m e) d = Ok final ->
  F64.nonneg final = true /\
  Qabs (F64.to_Q final - F64.to_Q (S754_finite false m e))
  <= 2 ^ (-50) * F64.to_Q (S754_finite false m e).
Proof.
  intros Hd HM Hunits. cbn [F64.round]. unfold F64.of_decimal.
  pose proof (scaled_digits_spec m e d) as Hspec. unfold scaled in Hspec.
  set (X := F64.to_Q (S754_finite false m e)) in *.
  pose proof u_pos as Hu. pose proof u_small as Hus.
  assert (Hr : 5 * F64.u <= 1 # 4) by lra.
  assert (Hr0 : 0 <= 5 * F64.u) by lra.
  destruct (nearest_integer_close _ _ M _ HM Hr0 Hr Hunits Hspec) as [HN1 HNy].
  assert (Hten : (0 < 10 ^ Z.of_nat d)%Z) by (apply Z.pow_pos_nonneg; lia).
  pose proof (pow10_pos d) as HT.
  assert (HT10 : inject_Z (10 ^ Z.of_nat d) <= inject_Z (10 ^ 10)).
  { rewrite <- Zle_Qle. apply Z.pow_le_mono_r; lia. }
  destruct (F64.scaled_digits m e d) as [|p|p] eqn:EN; try lia.
  pose proof (div_upper p 0 (Z.to_pos (10 ^ Z.of_nat d)) 0) as [H1 H2].
  pose proof (div_lower p 0 (Z.to_pos (10 ^ Z.of_nat d)) 0) as H3.
  cbv zeta in *. rewrite Z2Pos.id in H2, H3 by exact Hten.
  set (T := inject_Z (10 ^ Z.of_nat d)) in *.
  assert (HV : inject_Z (Z.pos p) * 2 ^ 0 / (T * 2 ^ 0) == inject_Z (Z.pos p) / T).
  { change (2 ^ 0) with 1. rewrite !Qmult_1_r. reflexivity. }
  assert (Hp1 : 1 <= inject_Z (Z.pos p)) by (rewrite <- (Zle_Qle 1); lia).
  assert (Hbig : 2 ^ (-1000) <= inject_Z (Z.pos p) * 2 ^ 0 / (T * 2 ^ 0)).
  { rewrite HV. apply Qle_shift_div_l; [exact HT|].
    assert (E : 2 ^ (-1000) * inject_Z (10 ^ 10) <= 1)
      by (apply Qle_bool_imp_le; vm_compute; reflexivity).
    assert (2 ^ (-1000) * T <= 2 ^ (-1000) * inject_Z (10 ^ 10)).
    { rewrite !(Qmult_comm (2 ^ (-1000))). apply Qmult_le_compat_r; [exact HT10|].
      apply Qlt_le_weak, p2_pos. }
    lra. }
  destruct H1 as [H1|H1]; [|rewrite H1; discriminate].
  specialize (H2 H1). specialize (H3 H1).
  apply (upper_rounded_normal _ _ Hbig) in H2.
  apply (lower_rounded_normal _ _ Hbig) in H3.
  rewrite HV in H2, H3.
  assert (Hfin : F64.nonneg (SFdiv F64.prec F64.emax (S754_finite false p 0)
                   (S754_finite false (Z.to_pos (10 ^ Z.of_nat d)) 0)) = true /\
                 Qabs (F64.to_Q (SFdiv F64.prec F64.emax (S754_finite false p 0)
                   (S754_finite false (Z.to_pos (10 ^ Z.of_nat d)) 0)) - X)
                 <= 2 ^ (-50) * X).
  { split; [exact H1|].
    set (Fin := F64.to_Q (SFdiv _ _ _ _)) in *.
    set (Nq := inject_Z (Z.pos p)) in *. set (Mq := inject_Z M) in *.
    apply Qabs_Qle_condition in Hunits. destruct Hunits as [HU1 HU2].
    apply Qabs_Qle_condition in HNy. destruct HNy as [HN2 HN3].
    assert (HM1 : 1 <= Mq) by (unfold Mq; rewrite <- (Zle_Qle 1); exact HM).
    assert (HuM : F64.u * Mq <= (1 # 1000) * Mq) by (apply Qmult_le_compat_r; lra).
    assert (Hy0 : 0 <= X * T) by lra.
    assert (HMy : Mq <= (1006 # 1000) * (X * T)) by lra.
    assert (HuMy : F64.u * Mq <= F64.u * ((1006 # 1000) * (X * T))).
    { rewrite !(Qmult_comm F64.u). apply Qmult_le_compat_r; lra. }
    assert (HNy : Nq <= (1006 # 1000) * (X * T)) by lra.
    assert (HuN : F64.u * Nq <= F64.u * ((1006 # 1000) * (X * T))).
    { rewrite !(Qmult_comm F64.u). apply Qmult_le_compat_r; lra. }
    assert (HFT1 : Nq / T * (1 - F64.u) * T <= Fin * T)
      by (apply Qmult_le_compat_r; lra).
    assert (HFT2 : Fin * T <= Nq / T * (1 + F64.u) * T)
      by (apply Qmult_le_compat_r; lra).
    assert (E1 : Nq / T * (1 - F64.u) * T == Nq - F64.u * Nq) by (field; lra).
    assert (E2 : Nq / T * (1 + F64.u) * T == Nq + F64.u * Nq) by (field; lra).
    rewrite E1 in HFT1. rewrite E2 in HFT2.
    assert (E50 : 2 ^ (-50) == 8 * F64.u) by reflexivity.
    rewrite E50.
    apply Qabs_Qle_condition. split.
    - apply Qmult_le_r with T; [exact HT|]. lra.
    - apply Qmult_le_r with T; [exact HT|]. lra. }
  destruct (SFdiv _ _ _ _) as [s0|s0| |s0 m0 e0] eqn:ES; try discriminate;
    intros [= <-]; exact Hfin.
Qed.

(** C5, as the code has it.  For a non-negative balance and a step that
    is the double nearest to a decimal [K / 10^k] with [K >= 1] and
    [k <= 10], the cleanup removes noise only: whenever the stepping,
    the derivation of the decimals [d] and the re-rounding return, the
    final quantity is the stepped quantity itself, or it differs from
    the positive stepped quantity, above or below, by a relative
    [2^-50] at most. *)
Theorem cleanup_removes_noise_only
  (raw_qty step_size stepped final : float) (K : Z) (k d : nat) :
  F64.nonneg raw_qty = true ->
  (1 <= K)%Z -> (k <= 10)%nat ->
  F64.of_decimal false K k = Ok step_size ->
  round_step_size raw_qty step_size = Ok stepped ->
  step_decimals step_size = Ok d ->
  F64.round stepped d = Ok final ->
  final = stepped \/
  (F64.positive_finite stepped = true /\ F64.nonneg final = true /\
   Qabs (F64.to_Q final - F64.to_Q stepped) <= 2 ^ (-50) * F64.to_Q stepped).
Proof.
  intros Hq HK Hd0 Hs Hst Hd Hfinal.
  rename raw_qty into raw, step_size into s, k into d0.
  destruct (of_decimal_within K d0 s HK Hd0 Hs) as [Hpos Hw].
  destruct s as [| | |[|] ms es]; try discriminate.
  destruct (decimal_step_units ms es K d0 d HK Hd0 Hw Hd) as (K' & HK' & Hd10 & Hu).
  pose proof (pow10_pos d) as HT.
  assert (HT10 : inject_Z (10 ^ Z.of_nat d) <= inject_Z (10 ^ 10)).
  { rewrite <- Zle_Qle. apply Z.pow_le_mono_r; lia. }
  destruct (stepped_units raw _ stepped K' _ Hq Hpos HK' HT HT10 Hu Hst)
    as [->|[->|(Hn & M & HM & HMu)]].
  - left. cbn [F64.round] in Hfinal. now injection Hfinal.
  - left. cbn [F64.round] in Hfinal. now injection Hfinal.
  - destruct stepped as [sz| | |[|] mX eX]; try discriminate.
    + (* a whole number of units is not zero *)
      exfalso. cbn [F64.to_Q] in HMu.
      apply Qabs_Qle_condition in HMu. destruct HMu as [HM1 _].
      assert (HMq : 1 <= inject_Z M) by (rewrite <- (Zle_Qle 1); exact HM).
      pose proof u_small.
      assert (F64.u * inject_Z M <= (1 # 1000) * inject_Z M)
        by (apply Qmult_le_compat_r; lra).
      lra.
    + right. split; [reflexivity|].
      now apply (round_units mX eX d M final Hd10 HM HMu).
Qed.

End Noise.

(** The balance 2.1 at the step 0.7: stepped to 2.0999999999999996,
    cleaned up to 2.1, one unit in the last place above. *)
Lemma cleanup_removes_noise_only_witness :
  Dbl.d2_1 = Dbl.d2_1_pred \/
  (F64.positive_finite Dbl.d2_1_pred = true /\ F64.nonneg Dbl.d2_1 = true /\
   (Qabs (F64.to_Q Dbl.d2_1 - F64.to_Q Dbl.d2_1_pred) <= 2 ^ (-50) * F64.to_Q Dbl.d2_1_pred)%Q).
Proof.
  apply (cleanup_removes_noise_only Dbl.d2_1 Dbl.d0_7 Dbl.d2_1_pred Dbl.d2_1 7 1 1).
  - reflexivity.
  - lia.
  - lia.
  - vm_compute. reflexivity.
  - vm_compute. reflexivity.
  - vm_compute. reflexivity.
  - vm_compute. reflexivity.
Defined.

(** ** The environment *)

Lemma unset_token (env : gmap string string) (settings : Settings) :
  configure env = Ok settings ->
  token_configured (config settings)
  = if unset (env !! "WEBHOOK_TOKEN") then None else env !! "WEBHOOK_TOKEN".
Proof.
  unfold configure. cbv zeta.
  destruct (unset (getenv env "BINANCE_API_KEY") || unset (getenv env "BINANCE_API_SECRET"));
    [discriminate|].
  intros [= <-]. unfold token_configured, getenv, unset. cbn [config WEBHOOK_TOKEN].
  destruct (env !! "WEBHOOK_TOKEN") as [t|]; [|reflexivity].
  now destruct (String.eqb t "").
Qed.

(** X17.  Whether the token check is on follows from the environment:
    a service that started answers some request with the status 401
    exactly when [WEBHOOK_TOKEN] is set to a non-empty string.  With the
    variable unset, or set to the empty string, no request is ever
    turned away for its token. *)
Theorem token_check_follows_the_environment
    (env : gmap string string) (settings : Settings) (ex : Exchange) :
  configure env = Ok settings ->
  (exists request log,
     serve (config settings) ex request
     = (Raise (HTTPException 401 Ungueltiger_Token), log))
  <-> unset (env !! "WEBHOOK_TOKEN") = false.
Proof.
  intros Hc. pose proof (unset_token env settings Hc) as Ht. split.
  - intros (request & log & H).
    destruct (webhook_late _ _ _ _ _ _ H) as (_ & _ & Hon).
    destruct (unset (env !! "WEBHOOK_TOKEN")); [|reflexivity].
    destruct Hon; auto.
  - intros Hu. rewrite Hu in Ht.
    destruct (env !! "WEBHOOK_TOKEN") as [t|] eqn:Et; [|discriminate Hu].
    exists (post (JDict ∅)), [].
    unfold serve, webhook, post, token_check. rewrite Ht. reflexivity.
Qed.

(** ** The theorems at work on the example service *)

Import Example.

(** A balance of 100 is spent to 98: one buy order of that amount. *)
Lemma buy_signal_sizing_witness :
  (serve cfg ex (post (signal "buy"))).2
  = [GetSymbolInfo "ETHUSDC"; GetAssetBalance "USDC";
     CreateOrder (market SIDE_BUY (quoteOrderQty Dbl.d98))] /\
  orders (serve cfg ex (post (signal "buy"))).2
  = [market SIDE_BUY (quoteOrderQty Dbl.d98)].
Proof.
  refine (proj2 (proj2 (buy_signal_sizing cfg ex (signal "buy")
            (filters Dbl.d0_01) (Some Dbl.d0_01) (Some Dbl.d0_01) (Some F64.c5)
            Dbl.d100 Dbl.d98 _ _ _ _ _ _)) _ _).
  - intros log. vm_compute. reflexivity.
  - vm_compute. reflexivity.
  - vm_compute. reflexivity.
  - vm_compute. reflexivity.
  - vm_compute. reflexivity.
  - vm_compute. reflexivity.
  - vm_compute. reflexivity.
  - vm_compute. reflexivity.
Defined.

(** A balance of 1.23456 at step 0.01 is sold as 1.23. *)
Lemma sell_signal_sizing_witness :
  (serve cfg ex (post (signal "sell"))).2
  = [GetSymbolInfo "ETHUSDC"; GetAssetBalance "ETH";
     CreateOrder (market SIDE_SELL (quantity Dbl.d1_23))] /\
  orders (serve cfg ex (post (signal "sell"))).2
  = [market SIDE_SELL (quantity Dbl.d1_23)].
Proof.
  refine (proj2 (proj1 (proj2 (sell_signal_sizing cfg ex (signal "sell")
            (filters Dbl.d0_01) (Some Dbl.d0_01) (Some Dbl.d0_01) (Some F64.c5)
            _ _ _ _))
            Dbl.d0_01 Dbl.d0_01 Dbl.d1_23456 Dbl.d1_23 Dbl.d1_23 2%nat
            _ _ _ _ _ _) _).
  - intros log. vm_compute. reflexivity.
  - vm_compute. reflexivity.
  - vm_compute. reflexivity.
  - vm_compute. reflexivity.
  - reflexivity.
  - reflexivity.
  - vm_compute. reflexivity.
  - vm_compute. reflexivity.
  - vm_compute. reflexivity.
  - vm_compute. reflexivity.
  - vm_compute. reflexivity.
Defined.

(** The exchange reports a step of zero: the request dies in the
    division, after the balance was read. *)
Lemma zero_step_reaches_division_witness :
  round_step_size Dbl.d1_23456 (S754_zero false) = Raise ZeroDivisionError /\
  serve cfg (exchange (S754_zero false) Dbl.d100 Dbl.d1_23456) (post (signal "sell"))
  = (Raise (HTTPException 500 (Server_error (Builtin ZeroDivisionError))),
     [GetSymbolInfo "ETHUSDC"; GetAssetBalance "ETH"]).
Proof.
  apply (zero_step_reaches_division cfg
           (exchange (S754_zero false) Dbl.d100 Dbl.d1_23456) (signal "sell")
           (filters (S754_zero false)) false Dbl.d0_01 (Some F64.c5) Dbl.d1_23456).
  - intros log. vm_compute. reflexivity.
  - vm_compute. reflexivity.
  - vm_compute. reflexivity.
  - vm_compute. reflexivity.
  - vm_compute. reflexivity.
Defined.

(** ["hold"] is rejected with no exchange call at all; a balance of 4
    is rejected with the balance read and no order. *)
Lemma rejection_precedes_order_submission_witness :
  (serve cfg ex (post (signal "hold"))).2 = [] /\
  orders (serve cfg (exchange Dbl.d0_01 Dbl.d4 Dbl.d1_23456)
            (post (signal "buy"))).2 = [].
Proof.
  split.
  - refine (proj2 (rejection_precedes_order_submission cfg ex
              (post (signal "hold")) 400 Erwarte_buy_oder_sell _ _ _) _).
    + vm_compute. reflexivity.
    + vm_compute. reflexivity.
    + right. left. reflexivity.
  - refine (proj1 (rejection_precedes_order_submission cfg
              (exchange Dbl.d0_01 Dbl.d4 Dbl.d1_23456) (post (signal "buy"))
              400 (Guthaben_zu_gering_minNotional Dbl.d3_92 F64.c5) _ _ _)).
    + vm_compute. reflexivity.
    + vm_compute. reflexivity.
Defined.

(** A padded, mixed-case ["  BuY "] is served as ["buy"]; ["hold"] is
    rejected. *)
Lemma action_text_decides_dispatch_witness :
  serve cfg ex (post (JDict (<["message" := JStr "  BuY "]>
                               {["token" := JStr "secret"]})))
  = serve cfg ex (post (JDict (<["message" := JStr "buy"]>
                                 {["token" := JStr "secret"]}))) /\
  serve cfg ex (post (JDict {["token" := JStr "secret"; "message" := JStr "hold"]}))
  = (Raise (HTTPException 400 Erwarte_buy_oder_sell), []) /\
  exists rest,
    (serve cfg ex (post (JDict {["token" := JStr "secret"; "message" := JStr " Sell"]}))).2
    = GetSymbolInfo "ETHUSDC" :: rest.
Proof.
  split; [|split].
  - apply (proj2 (proj2 (action_text_decides_dispatch cfg ex
                           {["token" := JStr "secret"]}))).
    vm_compute. reflexivity.
  - refine (proj2 (proj1 (proj2 (action_text_decides_dispatch cfg ex
              {["token" := JStr "secret"; "message" := JStr "hold"]}))
              "hold" _ _) _).
    + intros log. vm_compute. reflexivity.
    + vm_compute. reflexivity.
    + intros [H|H]; discriminate H.
  - refine (proj2 (proj1 (proj1 (proj2 (action_text_decides_dispatch cfg ex
              {["token" := JStr "secret"; "message" := JStr " Sell"]}))
              "sell" _ _) _)).
    + intros log. vm_compute. reflexivity.
    + vm_compute. reflexivity.
    + right. reflexivity.
Defined.

(** Without a token, a payload with a token field and one without are
    served alike. *)
Lemma token_field_ignored_without_token_witness :
  serve open_cfg ex (post (JDict {["token" := JStr "guess"; "message" := JStr "buy"]}))
  = serve open_cfg ex (post (JDict {["message" := JStr "buy"]})).
Proof.
  apply (token_field_ignored_without_token open_cfg ex).
  - reflexivity.
  - vm_compute. reflexivity.
Defined.

(** ** Sample runs *)

(** A balance of 4 gives a spend of 3.92: rejected, no order. *)
Example buy_with_4_is_rejected :
  truncate (F64.mul Dbl.d4 F64.c0_98) 2 = Ok Dbl.d3_92 /\
  serve cfg (exchange Dbl.d0_01 Dbl.d4 Dbl.d1_23456) (post (signal "buy"))
  = (Raise (HTTPException 400 (Guthaben_zu_gering_minNotional Dbl.d3_92 F64.c5)),
     [GetSymbolInfo "ETHUSDC"; GetAssetBalance "USDC"]).
Proof. split; vm_compute; reflexivity. Qed.

(** A base balance of 0.001 at step 0.01 steps to zero: rejected. *)
Example sell_with_dust_is_rejected :
  serve cfg (exchange Dbl.d0_01 Dbl.d100 Dbl.d0_001)
    (post (signal "sell"))
  = (Raise (HTTPException 400 (Zu_wenig "ETH" (S754_zero false) Dbl.d0_01)),
     [GetSymbolInfo "ETHUSDC"; GetAssetBalance "ETH"]).
Proof. vm_compute. reflexivity. Qed.

(** A payload without the token is turned away before any exchange call. *)
Example missing_token_is_unauthorized :
  serve cfg ex (post (payload [("message", JStr "buy")]))
  = (Raise (HTTPException 401 Ungueltiger_Token), []).
Proof. vm_compute. reflexivity. Qed.

(** A body that is no JSON is turned away as well. *)
Example invalid_json_is_rejected :
  serve cfg ex {| request_json := None |}
  = (Raise (HTTPException 400 Invalid_JSON), []).
Proof. reflexivity. Qed.

(** An exchange that knows no such symbol: status 400 after the lookup. *)
Example unknown_symbol_is_rejected :
  serve cfg {| get_symbol_info := fun _ => Ok None;
               get_asset_balance := get_asset_balance ex;
               create_order := create_order ex |} (post (signal "sell"))
  = (Raise (HTTPException 400 (Symbol_nicht_gefunden "ETHUSDC")),
     [GetSymbolInfo "ETHUSDC"]).
Proof. vm_compute. reflexivity. Qed.

(** ** The further properties at work on the example service *)

(** Of two lot size filters and two notional filters the later ones
    are read; the price filter is skipped. *)
Lemma get_symbol_filters_reads_last_match_witness :
  get_symbol_filters (looking_up (Ok (Some crowded))) "ETHUSDC" []
  = (Ok (Some Dbl.d0_01, Some Dbl.d0_01, Some F64.c5), [GetSymbolInfo "ETHUSDC"]).
Proof.
  refine (proj1 (get_symbol_filters_reads_last_match
                   (looking_up (Ok (Some crowded))) "ETHUSDC" crowded [] _ _)).
  - reflexivity.
  - vm_compute. reflexivity.
Defined.

(** A lot size filter without its minimum quantity: a [KeyError]. *)
Lemma get_symbol_filters_failures_witness :
  [GetSymbolInfo "ETHUSDC"] = ([] ++ [GetSymbolInfo "ETHUSDC"])%list /\
  ((Fault (Builtin KeyError) = HTTPException 400 (Symbol_nicht_gefunden "ETHUSDC") /\
    get_symbol_info (looking_up (Ok (Some [broken_lot]))) "ETHUSDC" = Ok None) \/
   (exists b, Fault (Builtin KeyError) = Fault (Binance b) /\
              get_symbol_info (looking_up (Ok (Some [broken_lot]))) "ETHUSDC" = Raise b) \/
   (Fault (Builtin KeyError) = Fault (Builtin KeyError) /\
    exists fs, get_symbol_info (looking_up (Ok (Some [broken_lot]))) "ETHUSDC"
               = Ok (Some fs) /\
               existsb incomplete_lot_size fs = true)).
Proof.
  apply (get_symbol_filters_failures (looking_up (Ok (Some [broken_lot])))
           "ETHUSDC" [] [GetSymbolInfo "ETHUSDC"] (Fault (Builtin KeyError))).
  vm_compute. reflexivity.
Defined.

(** The answer to a buy signal reports the one order of 98. *)
Lemma ok_answer_reports_one_order_witness :
  exists body amount order,
    request_json (post (signal "buy")) = Some body /\
    action_text body = Ok "buy" /\
    ("buy" = "buy" \/ "buy" = "sell") /\
    [GetSymbolInfo "ETHUSDC"; GetAssetBalance "USDC";
     CreateOrder (market SIDE_BUY (quoteOrderQty Dbl.d98))]
    = session cfg "buy" amount /\
    create_order ex (order_of cfg "buy" amount) = Ok order /\
    bought = {| r_status := "ok"; r_action := "buy"; r_symbol := "ETHUSDC";
                r_executedQty := executedQty order; r_side := side order;
                r_orderStatus := status order; r_avgPrice := first_price order |}.
Proof.
  apply (ok_answer_reports_one_order cfg ex (post (signal "buy")) bought
           [GetSymbolInfo "ETHUSDC"; GetAssetBalance "USDC";
            CreateOrder (market SIDE_BUY (quoteOrderQty Dbl.d98))]).
  vm_compute. reflexivity.
Defined.

(** A sell of dust stops after the balance read: two calls of the
    session, no order. *)
Lemma calls_follow_one_session_witness :
  (length (orders [GetSymbolInfo "ETHUSDC"; GetAssetBalance "ETH"]) <= 1)%nat /\
  ([GetSymbolInfo "ETHUSDC"; GetAssetBalance "ETH"] = [] \/
   exists body text amount,
     request_json (post (signal "sell")) = Some body /\ authorized cfg body /\
     action_text body = Ok text /\ (text = "buy" \/ text = "sell") /\
     [GetSymbolInfo "ETHUSDC"; GetAssetBalance "ETH"] `prefix_of` session cfg text amount).
Proof.
  apply (calls_follow_one_session cfg (exchange Dbl.d0_01 Dbl.d100 Dbl.d0_001)
           (post (signal "sell"))
           (Raise (HTTPException 400 (Zu_wenig "ETH" (S754_zero false) Dbl.d0_01)))).
  vm_compute. reflexivity.
Defined.

(** The missing token is answered with 401. *)
Lemma status_follows_detail_witness : 401 = status_of Ungueltiger_Token.
Proof.
  apply (status_follows_detail cfg ex (post (payload [("message", JStr "buy")]))
           401 Ungueltiger_Token []).
  vm_compute. reflexivity.
Defined.

(** The exchange times out on the order: the request exception is
    answered with the status 500. *)
Lemma exchange_failure_routing_witness :
  last (serve cfg (ordering (Raise (BinanceRequestException "timeout")))
          (post (signal "buy"))).2
  = Some (CreateOrder (market SIDE_BUY (quoteOrderQty Dbl.d98))) /\
  (serve cfg (ordering (Raise (BinanceRequestException "timeout")))
     (post (signal "buy"))).1
  = Raise (HTTPException 500
             (Server_error (Binance (BinanceRequestException "timeout")))).
Proof.
  apply (exchange_failure_routing cfg
           (ordering (Raise (BinanceRequestException "timeout")))
           (post (signal "buy")) _ _
           (CreateOrder (market SIDE_BUY (quoteOrderQty Dbl.d98)))
           (BinanceRequestException "timeout")).
  - vm_compute. reflexivity.
  - vm_compute. right. right. left. reflexivity.
  - reflexivity.
Defined.

(** The exchange fills the order without a price: the order is placed
    and the answer is the status 500. *)
Lemma answer_after_accepted_order_witness :
  (serve cfg (ordering (Ok unpriced)) (post (signal "buy"))).1
  = Raise (HTTPException 500 (Server_error (Builtin KeyError))).
Proof.
  apply (answer_after_accepted_order cfg (ordering (Ok unpriced))
           (post (signal "buy")) _
           (serve cfg (ordering (Ok unpriced)) (post (signal "buy"))).2
           (market SIDE_BUY (quoteOrderQty Dbl.d98)) unpriced).
  - vm_compute. reflexivity.
  - vm_compute. right. right. left. reflexivity.
  - reflexivity.
Defined.

(** The exchange is down at the symbol lookup: its exception leaves
    the handler. *)
Lemma unhandled_exceptions_precede_the_try_witness :
  (Binance (BinanceAPIException "down") = Builtin AttributeError /\
   [GetSymbolInfo "ETHUSDC"] = []) \/
  ([GetSymbolInfo "ETHUSDC"] = [GetSymbolInfo (SYMBOL cfg)] /\
   ((exists e, Binance (BinanceAPIException "down") = Binance e /\
               get_symbol_info (looking_up (Raise (BinanceAPIException "down")))
                 (SYMBOL cfg) = Raise e) \/
    (Binance (BinanceAPIException "down") = Builtin KeyError /\
     exists fs, get_symbol_info (looking_up (Raise (BinanceAPIException "down")))
                  (SYMBOL cfg) = Ok (Some fs) /\
                existsb incomplete_lot_size fs = true))).
Proof.
  apply (unhandled_exceptions_precede_the_try cfg
           (looking_up (Raise (BinanceAPIException "down")))
           (post (signal "sell"))).
  vm_compute. reflexivity.
Defined.


(** The token is compared as it is: ["Secret"] is not ["secret"]. *)
Lemma token_gate_witness :
  serve cfg ex (post (JDict {["token" := JStr "Secret"; "message" := JStr "buy"]}))
  = (Raise (HTTPException 401 Ungueltiger_Token), []).
Proof.
  refine (proj2 (token_gate cfg ex _ "secret" _) _).
  - reflexivity.
  - vm_compute. discriminate.
Defined.

(** [" Hold "] spells neither action. *)
Lemma unrecognized_action_iff_witness :
  ~ exists core, padded " Hold " core /\
                 (spells "buy" core = true \/ spells "sell" core = true).
Proof.
  refine (proj1 (unrecognized_action_iff cfg ex
                   (list_to_map [("token", JStr "secret"); ("message", JStr " Hold ")])
                   " Hold " _ _) _).
  - intros log. vm_compute. reflexivity.
  - vm_compute. reflexivity.
  - vm_compute. reflexivity.
Defined.

(** [truncate(1.23456, 2)] returns. *)
Lemma truncate_returns_unless_huge_witness :
  exists r, truncate Dbl.d1_23456 2 = Ok r /\ F64.nonneg r = true.
Proof.
  apply (truncate_returns_unless_huge Dbl.d1_23456 2).
  - reflexivity.
  - lia.
  - vm_compute. reflexivity.
Defined.

(** The spend of a balance of 100 is at most 100. *)
Lemma buy_spend_within_balance_witness :
  exists spend,
    truncate (F64.mul Dbl.d100 F64.c0_98) 2 = Ok spend /\
    F64.nonneg spend = true /\
    (F64.to_Q spend <= F64.to_Q Dbl.d100)%Q.
Proof.
  apply (buy_spend_within_balance Dbl.d100).
  - reflexivity.
  - vm_compute. reflexivity.
Defined.

(** The quantity of a balance of 1.23456 at the step 0.01 is computed. *)
Lemma sell_quantity_returns_witness :
  exists (stepped : float) (d : nat) (qty : float),
    round_step_size Dbl.d1_23456 Dbl.d0_01 = Ok stepped /\
    step_decimals Dbl.d0_01 = Ok d /\ (d <= 10)%nat /\
    F64.round stepped d = Ok qty /\
    F64.nonneg stepped = true /\ F64.nonneg qty = true.
Proof.
  apply (sell_quantity_returns Dbl.d1_23456 Dbl.d0_01).
  - reflexivity.
  - reflexivity.
  - vm_compute. reflexivity.
  - vm_compute. reflexivity.
Defined.

(** The buy signal on the example exchange reaches its decision. *)
Lemma sizing_reaches_a_decision_witness :
  (exists d, (serve cfg ex (post (signal "buy"))).1 = Raise (HTTPException 400 d) /\
             rejection d = true /\
             orders (serve cfg ex (post (signal "buy"))).2 = []) \/
  (exists amount,
     (serve cfg ex (post (signal "buy"))).2 = session cfg "buy" amount /\
     F64.nonneg amount = true /\
     ("buy" = "buy" -> truncate (F64.mul Dbl.d100 F64.c0_98) 2 = Ok amount)).
Proof.
  apply (sizing_reaches_a_decision cfg ex (signal "buy") "buy"
           (filters Dbl.d0_01) Dbl.d100).
  - intros log. vm_compute. reflexivity.
  - vm_compute. reflexivity.
  - reflexivity.
  - reflexivity.
  - vm_compute. reflexivity.
  - reflexivity.
  - reflexivity.
  - vm_compute. reflexivity.
  - intros H. discriminate H.
  - vm_compute. reflexivity.
Defined.

(** An infinite number cannot be floored. *)
Lemma quantization_error_kinds_witness :
  OverflowError = OverflowError \/ OverflowError = ValueError.
Proof.
  apply (proj1 quantization_error_kinds (S754_infinity false) 2%nat OverflowError).
  vm_compute. reflexivity.
Defined.

(** The example environment sets a token: the check is on. *)
Lemma token_check_follows_the_environment_witness :
  (exists request log,
     serve (config settings) ex request
     = (Raise (HTTPException 401 Ungueltiger_Token), log))
  <-> unset (env !! "WEBHOOK_TOKEN") = false.
Proof.
  apply (token_check_follows_the_environment env settings ex).
  vm_compute. reflexivity.
Defined.

(** The health check names the symbol the buy signal traded. *)
Lemma health_reports_the_traded_symbol_witness :
  exists h,
    root cfg [] = (Ok h, []) /\ h_status h = "ok" /\
    (forall resp, (serve cfg ex (post (signal "buy"))).1 = Ok resp ->
                  r_symbol resp = h_symbol h) /\
    (forall c, In c (serve cfg ex (post (signal "buy"))).2 ->
       match c with
       | GetSymbolInfo s => s = h_symbol h
       | CreateOrder req => o_symbol req = h_symbol h
       | GetAssetBalance _ => True
       end).
Proof.
  apply (health_reports_the_traded_symbol cfg ex (post (signal "buy"))).
  vm_compute. reflexivity.
Defined.

(** The step 0.01 prints as 0.0100000000 and needs two decimals. *)
Lemma step_decimals_counts_the_digits_witness :
  exists N : Z,
    (Qabs (inject_Z N - scaled 5764607523034235 (-59) 10) <= 1 # 2)%Q /\
    (2 <= 10)%nat /\
    (10 ^ Z.of_nat (10 - 2) | N) /\
    (forall k : nat, (k < 2)%nat -> ~ (10 ^ Z.of_nat (10 - k) | N)).
Proof.
  apply (step_decimals_counts_the_digits false 5764607523034235 (-59) 2).
  vm_compute. reflexivity.
Defined.

(** 0.8999999999999999 truncated to one decimal is 0.9, above the bound. *)
Lemma truncate_drops_less_than_one_unit_witness :
  (F64.to_Q Dbl.d0_9_pred * (1 - F64.u) * (1 - F64.u) * (1 - F64.u)
   - 1 / inject_Z (10 ^ Z.of_nat 1) - F64.eta <= F64.to_Q Dbl.d0_9)%Q.
Proof.
  apply (truncate_drops_less_than_one_unit Dbl.d0_9_pred 1 Dbl.d0_9).
  - reflexivity.
  - vm_compute. reflexivity.
Defined.

(** The spend of a balance of 100 is 97.99 at least. *)
Lemma buy_spend_reaches_98_percent_witness :
  exists spend,
    truncate (F64.mul Dbl.d100 F64.c0_98) 2 = Ok spend /\
    ((98 # 100) * F64.to_Q Dbl.d100 * (1 - 2 ^ (-50)) - (1 # 100)
     <= F64.to_Q spend)%Q.
Proof.
  apply (buy_spend_reaches_98_percent Dbl.d100).
  - reflexivity.
  - vm_compute. reflexivity.
Defined.

(** 1.7 stepped by 0.1 stays within one step. *)
Lemma round_step_size_drops_less_than_one_step_witness :
  Dbl.d1_7_succ = S754_infinity false \/
  (F64.to_Q Dbl.d1_7 * (1 - F64.u) * (1 - F64.u) * (1 - F64.u)
   - F64.to_Q Dbl.d0_1 - F64.eta <= F64.to_Q Dbl.d1_7_succ)%Q.
Proof.
  apply (round_step_size_drops_less_than_one_step Dbl.d1_7 Dbl.d0_1 Dbl.d1_7_succ).
  - reflexivity.
  - reflexivity.
  - vm_compute. reflexivity.
Defined.

(** The quantity sold of a balance of 1.23456 at the step 0.01. *)
Lemma sell_quantity_near_balance_witness :
  exists (stepped : float) (d : nat) (qty : float),
    round_step_size Dbl.d1_23456 Dbl.d0_01 = Ok stepped /\
    step_decimals Dbl.d0_01 = Ok d /\
    F64.round stepped d = Ok qty /\
    ((F64.to_Q Dbl.d1_23456 * (1 - F64.u) * (1 - F64.u) * (1 - F64.u)
      - F64.to_Q Dbl.d0_01 - F64.eta
      - (1 # 2) / inject_Z (10 ^ Z.of_nat d)) * (1 - F64.u) - F64.eta
     <= F64.to_Q qty)%Q /\
    (F64.to_Q qty
     <= (F64.to_Q Dbl.d1_23456 * (1 + F64.u) * (1 + F64.u) * (1 + F64.u) + F64.eta
         + (1 # 2) / inject_Z (10 ^ Z.of_nat d)) * (1 + F64.u) + F64.eta)%Q.
Proof.
  apply (sell_quantity_near_balance Dbl.d1_23456 Dbl.d0_01).
  - reflexivity.
  - reflexivity.
  - vm_compute. reflexivity.
  - vm_compute. reflexivity.
Defined.

(** ** More sample runs *)

(** Without the credentials the module body raises. *)
Example startup_without_secret :
  configure (list_to_map [("BINANCE_API_KEY", "key")]) = Raise RuntimeError_credentials /\
  configure (list_to_map [("BINANCE_API_KEY", "key"); ("BINANCE_API_SECRET", "")])
  = Raise RuntimeError_credentials /\
  configure env = Ok settings.
Proof. repeat split; vm_compute; reflexivity. Qed.

(** ["  BuY "] spells ["buy"] between whitespace. *)
Example padded_mixed_case :
  padded "  BuY " "BuY" /\ spells "buy" "BuY" = true.
Proof. split; [now exists "  ", " "|reflexivity]. Qed.
